(** * The OpenClaw worker ([openclaw_skill/index.js]): model and properties

    The development follows the layout of the script:
    - [Str]: JavaScript strings as sequences of UTF-16 code units, with the
      [String.prototype] operations the script calls;
    - [Regex]: a backtracking matcher for the constructs occurring in the
      three regular expressions of [extractJSON];
    - [Json]: JSON values, [JSON.parse] and [JSON.stringify];
    - [Agent]: the functions of [index.js] themselves
      ([extractJSON], [apiRequest], [fetchWork], [submitResult],
      [processWithAI], [loadConfig], [saveConfig], [workerLoop]);
    - the properties of the worker, stated on these definitions. *)

From Stdlib Require Import String Ascii.
From Stdlib Require Import List ZArith NArith Bool Lia.
Import ListNotations.

Set Implicit Arguments.

(* ===================================================================== *)
(** * Strings *)
(* ===================================================================== *)

Module Str.

(** A JavaScript string is a sequence of 16-bit code units. *)
Definition str := list N.

(** [lit s] is the string whose code units are the bytes of [s]. *)
Definition lit (s : string) : str :=
  map N_of_ascii (list_ascii_of_string s).

(** [jlit s] is [lit s] with every apostrophe read as a double quote, so
    that JSON texts can be written down literally. *)
Definition jlit (s : string) : str :=
  map (fun c => if N.eqb c 39 then 34%N else c) (lit s).

Definition nl : str := [10%N].

Fixpoint eqb (a b : str) : bool :=
  match a, b with
  | [], [] => true
  | x :: a', y :: b' => N.eqb x y && eqb a' b'
  | _, _ => false
  end.

(** [strip_prefix p s] is [Some r] when [s = p ++ r]. *)
Fixpoint strip_prefix (p s : str) : option str :=
  match p with
  | [] => Some s
  | x :: p' =>
      match s with
      | [] => None
      | y :: s' => if N.eqb x y then strip_prefix p' s' else None
      end
  end.

Definition starts_with (p s : str) : bool :=
  match strip_prefix p s with Some _ => true | None => false end.

(** [String.prototype.includes]. *)
Fixpoint includes (s p : str) : bool :=
  starts_with p s ||
  match s with
  | [] => false
  | _ :: s' => includes s' p
  end.

(** White space and line terminators of ECMAScript: the class [\s] of
    regular expressions and the characters removed by [trim]. *)
Definition is_space (c : N) : bool :=
  ((9 <=? c) && (c <=? 13) || (c =? 32) || (c =? 160) || (c =? 5760)
   || ((8192 <=? c) && (c <=? 8202)) || (c =? 8232) || (c =? 8233)
   || (c =? 8239) || (c =? 8287) || (c =? 12288) || (c =? 65279))%N.

Fixpoint trim_start (s : str) : str :=
  match s with
  | c :: s' => if is_space c then trim_start s' else s
  | [] => []
  end.

Definition trim_end (s : str) : str := rev (trim_start (rev s)).

(** [String.prototype.trim]. *)
Definition trim (s : str) : str := trim_end (trim_start s).

(** Decimal digits of a natural number, as in a template literal. *)
Fixpoint digits_fuel (fuel : nat) (n : N) (acc : str) : str :=
  match fuel with
  | O => acc
  | S f =>
      let acc' := (48 + n mod 10)%N :: acc in
      if (n <? 10)%N then acc' else digits_fuel f (n / 10)%N acc'
  end.

Definition digits (n : N) : str :=
  digits_fuel (S (N.to_nat (N.log2 n))) n [].

End Str.

Import Str.

(* ===================================================================== *)
(** * Regular expressions *)
(* ===================================================================== *)

Module Regex.

(** The constructs used by the patterns of [extractJSON]: literals,
    greedy and lazy repetition of a character class, a greedy optional
    part, concatenation and the capturing group 1. *)
Inductive regex : Type :=
| Lit (cs : str)
| Star (p : N -> bool)
| StarLazy (p : N -> bool)
| Opt (r : regex)
| Cat (r1 r2 : regex)
| Group (r : regex).

Section Matcher.
Variable A : Type.

(** Continuations receive the rest of the input and the text captured
    by group 1 so far. *)
Definition cont := str -> str -> option A.

Definition or_else (x : option A) (y : unit -> option A) : option A :=
  match x with Some a => Some a | None => y tt end.

(** [p*]: as many characters as possible first, then fewer. *)
Fixpoint star_greedy (p : N -> bool) (s : str) (k : str -> option A)
  : option A :=
  match s with
  | c :: s' =>
      if p c then or_else (star_greedy p s' k) (fun _ => k s) else k s
  | [] => k s
  end.

(** [p*?]: as few characters as possible first, then more. *)
Fixpoint star_lazy (p : N -> bool) (s : str) (k : str -> option A)
  : option A :=
  or_else (k s) (fun _ =>
    match s with
    | c :: s' => if p c then star_lazy p s' k else None
    | [] => None
    end).

(** Backtracking match of [r] at the start of [s]. *)
Fixpoint rmatch (r : regex) (s : str) (cap : str) (k : cont)
  : option A :=
  match r with
  | Lit cs =>
      match strip_prefix cs s with
      | Some s' => k s' cap
      | None => None
      end
  | Star p => star_greedy p s (fun s' => k s' cap)
  | StarLazy p => star_lazy p s (fun s' => k s' cap)
  | Opt r1 => or_else (rmatch r1 s cap k) (fun _ => k s cap)
  | Cat r1 r2 => rmatch r1 s cap (fun s' cap' => rmatch r2 s' cap' k)
  | Group r1 =>
      rmatch r1 s cap
        (fun s' _ => k s' (firstn (length s - length s') s))
  end.
End Matcher.

(** A match anchored at the start of [s]: the text of group 1. *)
Definition match_here (r : regex) (s : str) : option str :=
  rmatch r s [] (fun _ cap => Some cap).

(** [String.prototype.match] with a pattern without flags: the leftmost
    match; the result is element 1 of the match array. *)
Fixpoint match_group1 (r : regex) (s : str) : option str :=
  match match_here r s with
  | Some g => Some g
  | None =>
      match s with
      | [] => None
      | _ :: s' => match_group1 r s'
      end
  end.

Definition any (_ : N) : bool := true.

End Regex.

Import Regex.

(* ===================================================================== *)
(** * JSON values, [JSON.parse] and [JSON.stringify] *)
(* ===================================================================== *)

Module Json.

(** The values [JSON.parse] produces.  A number is kept as the exact
    decimal [m * 10^e] it denotes (normalised: [m] is not a multiple of
    ten, and zero is [JNum 0 0]); rounding to a double is outside the
    model.  An object lists its properties in creation order. *)
#[local] Unset Elimination Schemes.
Inductive json : Type :=
| JNull
| JBool (b : bool)
| JNum (m e : Z)
| JStr (s : str)
| JArr (l : list json)
| JObj (l : list (str * json)).
#[local] Set Elimination Schemes.

(** ** Property access *)

Fixpoint lookup (k : str) (l : list (str * json)) : option json :=
  match l with
  | [] => None
  | (k', v) :: l' => if Str.eqb k k' then Some v else lookup k l'
  end.

(** Creating a property: an existing key keeps its place and takes the
    new value, a new key goes last. *)
Fixpoint set_prop (k : str) (v : json) (l : list (str * json))
  : list (str * json) :=
  match l with
  | [] => [(k, v)]
  | (k', v') :: l' =>
      if Str.eqb k k' then (k, v) :: l' else (k', v') :: set_prop k v l'
  end.

(** [o.k] on a parsed value, [None] standing for [undefined].  Strings
    and arrays have further properties ([length], indices); the script
    reads none of them by name. *)
Definition get (k : str) (v : json) : option json :=
  match v with
  | JObj l => lookup k l
  | _ => None
  end.

(** ToBoolean. *)
Definition truthy (v : json) : bool :=
  match v with
  | JNull => false
  | JBool b => b
  | JNum m _ => negb (m =? 0)%Z
  | JStr s => match s with [] => false | _ => true end
  | JArr _ | JObj _ => true
  end.

Definition truthy_opt (v : option json) : bool :=
  match v with Some x => truthy x | None => false end.

(** ** Parsing *)

Inductive pres (A : Type) : Type :=
| POk (a : A) (rest : str)
| PErr
| PFuel.
Arguments PErr {A}.
Arguments PFuel {A}.

Definition is_ws (c : N) : bool :=
  ((c =? 32) || (c =? 9) || (c =? 10) || (c =? 13))%N.

Fixpoint skip_ws (s : str) : str :=
  match s with
  | c :: s' => if is_ws c then skip_ws s' else s
  | [] => []
  end.

Definition is_digit (c : N) : bool := ((48 <=? c) && (c <=? 57))%N.

Definition hex_val (c : N) : option N :=
  if ((48 <=? c) && (c <=? 57))%N then Some (c - 48)%N
  else if ((97 <=? c) && (c <=? 102))%N then Some (c - 87)%N
  else if ((65 <=? c) && (c <=? 70))%N then Some (c - 55)%N
  else None.

(** The characters of a string literal after its opening quote. *)
Fixpoint parse_chars (s : str) (acc : str) : pres str :=
  match s with
  | [] => PErr
  | c :: s' =>
      if (c =? 34)%N then POk (rev acc) s'
      else if (c <? 32)%N then PErr
      else if (c =? 92)%N then
        match s' with
        | e :: s'' =>
            if (e =? 34)%N then parse_chars s'' (34%N :: acc)
            else if (e =? 92)%N then parse_chars s'' (92%N :: acc)
            else if (e =? 47)%N then parse_chars s'' (47%N :: acc)
            else if (e =? 98)%N then parse_chars s'' (8%N :: acc)
            else if (e =? 102)%N then parse_chars s'' (12%N :: acc)
            else if (e =? 110)%N then parse_chars s'' (10%N :: acc)
            else if (e =? 114)%N then parse_chars s'' (13%N :: acc)
            else if (e =? 116)%N then parse_chars s'' (9%N :: acc)
            else if (e =? 117)%N then
              match s'' with
              | h1 :: h2 :: h3 :: h4 :: s3 =>
                  match hex_val h1, hex_val h2, hex_val h3, hex_val h4 with
                  | Some a, Some b, Some c', Some d =>
                      parse_chars s3
                        ((a * 4096 + b * 256 + c' * 16 + d)%N :: acc)
                  | _, _, _, _ => PErr
                  end
              | _ => PErr
              end
            else PErr
        | [] => PErr
        end
      else parse_chars s' (c :: acc)
  end.

(** A maximal run of digits. *)
Fixpoint span_digits (s : str) : str * str :=
  match s with
  | c :: s' =>
      if is_digit c then let (d, r) := span_digits s' in (c :: d, r)
      else ([], s)
  | [] => ([], [])
  end.

Definition digits_val (d : str) : Z :=
  fold_left (fun acc c => (10 * acc + (Z.of_N c - 48))%Z) d 0%Z.

(** Number of trailing zero digits. *)
Fixpoint leading_zeros (d : str) : nat :=
  match d with
  | c :: d' => if (c =? 48)%N then S (leading_zeros d') else O
  | [] => O
  end.

(** The decimal with digits [d] scaled by [10^e], normalised. *)
Definition decimal (neg : bool) (d : str) (e : Z) : json :=
  let z := leading_zeros (rev d) in
  let d' := firstn (length d - z) d in
  let m := digits_val d' in
  if (m =? 0)%Z then JNum 0 0
  else JNum (if neg then - m else m)%Z (e + Z.of_nat z)%Z.

(** The integer part: a single [0], or a digit run not starting with [0]. *)
Definition parse_int (s : str) : option (str * str) :=
  match s with
  | c :: s' =>
      if (c =? 48)%N then Some ([c], s')
      else if is_digit c then Some (span_digits s)
      else None
  | [] => None
  end.

Definition parse_frac (s : str) : option (str * str) :=
  match s with
  | c :: s' =>
      if (c =? 46)%N then
        match span_digits s' with
        | ([], _) => None
        | (d, r) => Some (d, r)
        end
      else Some ([], s)
  | [] => Some ([], s)
  end.

Definition parse_exp (s : str) : option (Z * str) :=
  match s with
  | c :: s' =>
      if ((c =? 101) || (c =? 69))%N then
        let '(neg, s1) :=
          match s' with
          | x :: s'' =>
              if (x =? 45)%N then (true, s'')
              else if (x =? 43)%N then (false, s'')
              else (false, s')
          | [] => (false, s')
          end in
        match span_digits s1 with
        | ([], _) => None
        | (d, r) =>
            Some ((if neg then - digits_val d else digits_val d)%Z, r)
        end
      else Some (0%Z, s)
  | [] => Some (0%Z, s)
  end.

(** A number without its sign. *)
Definition parse_unsigned (neg : bool) (s : str) : pres json :=
  match parse_int s with
  | None => PErr
  | Some (i, s2) =>
      match parse_frac s2 with
      | None => PErr
      | Some (f, s3) =>
          match parse_exp s3 with
          | None => PErr
          | Some (x, s4) =>
              POk (decimal neg (i ++ f) (x - Z.of_nat (length f))%Z) s4
          end
      end
  end.

Definition parse_number (s : str) : pres json :=
  match s with
  | c :: s' =>
      if (c =? 45)%N then parse_unsigned true s' else parse_unsigned false s
  | [] => parse_unsigned false s
  end.

(** Values, the elements of an array after its first, and the members
    of an object from a key on.  Every call takes one unit of fuel. *)
Fixpoint parse_value (fuel : nat) (s : str) : pres json :=
  match fuel with
  | O => PFuel
  | S f =>
      match skip_ws s with
      | [] => PErr
      | c :: r =>
          if (c =? 123)%N then
            match skip_ws r with
            | c' :: r' =>
                if (c' =? 125)%N then POk (JObj []) r'
                else parse_members f (c' :: r') []
            | [] => PErr
            end
          else if (c =? 91)%N then
            match skip_ws r with
            | c' :: r' =>
                if (c' =? 93)%N then POk (JArr []) r'
                else parse_elements f (c' :: r') []
            | [] => PErr
            end
          else if (c =? 34)%N then
            match parse_chars r [] with
            | POk x r' => POk (JStr x) r'
            | PErr => PErr
            | PFuel => PFuel
            end
          else
            match strip_prefix (lit "true") (c :: r) with
            | Some r' => POk (JBool true) r'
            | None =>
            match strip_prefix (lit "false") (c :: r) with
            | Some r' => POk (JBool false) r'
            | None =>
            match strip_prefix (lit "null") (c :: r) with
            | Some r' => POk JNull r'
            | None => parse_number (c :: r)
            end end end
      end
  end

with parse_elements (fuel : nat) (s : str) (acc : list json)
  : pres json :=
  match fuel with
  | O => PFuel
  | S f =>
      match parse_value f s with
      | POk v r =>
          match skip_ws r with
          | c :: r' =>
              if (c =? 44)%N then parse_elements f r' (v :: acc)
              else if (c =? 93)%N then POk (JArr (rev (v :: acc))) r'
              else PErr
          | [] => PErr
          end
      | PErr => PErr
      | PFuel => PFuel
      end
  end

with parse_members (fuel : nat) (s : str) (acc : list (str * json))
  : pres json :=
  match fuel with
  | O => PFuel
  | S f =>
      match skip_ws s with
      | q :: r0 =>
          if (q =? 34)%N then
            match parse_chars r0 [] with
            | POk k r1 =>
                match skip_ws r1 with
                | c :: r2 =>
                    if (c =? 58)%N then
                      match parse_value f r2 with
                      | POk v r3 =>
                          match skip_ws r3 with
                          | d :: r4 =>
                              if (d =? 44)%N then
                                parse_members f r4 (set_prop k v acc)
                              else if (d =? 125)%N then
                                POk (JObj (set_prop k v acc)) r4
                              else PErr
                          | [] => PErr
                          end
                      | PErr => PErr
                      | PFuel => PFuel
                      end
                    else PErr
                | [] => PErr
                end
            | PErr => PErr
            | PFuel => PFuel
            end
          else PErr
      | [] => PErr
      end
  end.

(** [JSON.parse]: one value between optional white space; [None] stands
    for the [SyntaxError]. *)
Definition parse (s : str) : option json :=
  match parse_value (2 * length s + 2) s with
  | POk v r =>
      match skip_ws r with
      | [] => Some v
      | _ :: _ => None
      end
  | PErr | PFuel => None
  end.

(** ** Serialising *)

(** The digits [d] of a positive number scaled by [10^e], as
    Number::toString lays them out. *)
Definition number_body (d : str) (e : Z) : str :=
  let k := Z.of_nat (length d) in
  let n := (k + e)%Z in
  if ((k <=? n) && (n <=? 21))%Z then
    d ++ repeat 48%N (Z.to_nat (n - k))
  else if ((0 <? n) && (n <=? 21))%Z then
    firstn (Z.to_nat n) d ++ lit "." ++ skipn (Z.to_nat n) d
  else if ((-6 <? n) && (n <=? 0))%Z then
    lit "0." ++ repeat 48%N (Z.to_nat (- n)) ++ d
  else
    let x := (n - 1)%Z in
    let sign := if (x <? 0)%Z then lit "-" else lit "+" in
    let xs := Str.digits (Z.to_N (Z.abs x)) in
    match d with
    | [c] => [c] ++ lit "e" ++ sign ++ xs
    | c :: d' => [c] ++ lit "." ++ d' ++ lit "e" ++ sign ++ xs
    | [] => []
    end.

(** Number::toString on the decimal [m * 10^e]. *)
Definition number_to_string (m e : Z) : str :=
  if (m =? 0)%Z then lit "0"
  else
    let body := number_body (Str.digits (Z.to_N (Z.abs m))) e in
    if (m <? 0)%Z then lit "-" ++ body else body.

Definition hex_digit (n : N) : N :=
  if (n <? 10)%N then (48 + n)%N else (87 + n)%N.

(** The escape [\uXXXX] of a code unit. *)
Definition unicode_escape (c : N) : str :=
  [92; 117; hex_digit (c / 4096 mod 16); hex_digit (c / 256 mod 16);
   hex_digit (c / 16 mod 16); hex_digit (c mod 16)]%N.

Definition is_lead (c : N) : bool := ((55296 <=? c) && (c <=? 56319))%N.
Definition is_trail (c : N) : bool := ((56320 <=? c) && (c <=? 57343))%N.

Definition quote_unit (c : N) : str :=
  if (c =? 8)%N then lit "\b"
  else if (c =? 9)%N then lit "\t"
  else if (c =? 10)%N then lit "\n"
  else if (c =? 12)%N then lit "\f"
  else if (c =? 13)%N then lit "\r"
  else if (c =? 34)%N then [92; 34]%N
  else if (c =? 92)%N then [92; 92]%N
  else if (c <? 32)%N then unicode_escape c
  else if is_lead c || is_trail c then unicode_escape c
  else [c].

(** The characters of QuoteJSONString: a surrogate pair is copied, a
    lone surrogate is escaped. *)
Fixpoint quote_chars (s : str) : str :=
  match s with
  | [] => []
  | c :: s' =>
      if is_lead c then
        match s' with
        | d :: s'' =>
            if is_trail d then c :: d :: quote_chars s''
            else quote_unit c ++ quote_chars s'
        | [] => quote_unit c
        end
      else quote_unit c ++ quote_chars s'
  end.

Definition quote (s : str) : str := [34%N] ++ quote_chars s ++ [34%N].

Fixpoint join (sep : str) (l : list str) : str :=
  match l with
  | [] => []
  | [x] => x
  | x :: l' => x ++ sep ++ join sep l'
  end.

(** The text of an object or array from the texts of its parts. *)
Definition wrap (open close gap indent : str) (parts : list str) : str :=
  match parts with
  | [] => open ++ close
  | _ :: _ =>
      match gap with
      | [] => open ++ join (lit ",") parts ++ close
      | _ :: _ =>
          let inner := indent ++ gap in
          open ++ nl ++ inner ++ join (lit "," ++ nl ++ inner) parts
               ++ nl ++ indent ++ close
      end
  end.

Definition colon (gap : str) : str :=
  match gap with [] => lit ":" | _ :: _ => lit ": " end.

(** SerializeJSONProperty at the current indentation. *)
Fixpoint serialize (gap indent : str) (v : json) : str :=
  match v with
  | JNull => lit "null"
  | JBool true => lit "true"
  | JBool false => lit "false"
  | JNum m e => number_to_string m e
  | JStr s => quote s
  | JArr l =>
      wrap (lit "[") (lit "]") gap indent
        (map (serialize gap (indent ++ gap)) l)
  | JObj l =>
      wrap (lit "{") (lit "}") gap indent
        (map (fun kv =>
                quote (fst kv) ++ colon gap
                      ++ serialize gap (indent ++ gap) (snd kv)) l)
  end.

(** [JSON.stringify(v)] and [JSON.stringify(v, null, n)]. *)
Definition stringify (v : json) : str := serialize [] [] v.

Definition stringify_indent (n : nat) (v : json) : str :=
  serialize (repeat 32%N (Nat.min n 10)) [] v.

(** ToString of a parsed value, as a template literal or a string
    argument takes it. *)
Fixpoint to_string (v : json) : str :=
  match v with
  | JNull => lit "null"
  | JBool true => lit "true"
  | JBool false => lit "false"
  | JNum m e => number_to_string m e
  | JStr s => s
  | JArr l =>
      join (lit ",")
        (map (fun x => match x with JNull => [] | _ => to_string x end) l)
  | JObj _ => lit "[object Object]"
  end.

(** The number with integer value [z]. *)
Definition JInt (z : Z) : json :=
  decimal (z <? 0)%Z (Str.digits (Z.to_N (Z.abs z))) 0.

(** The integer value of a number, when it has one. *)
Definition int_value (v : json) : option Z :=
  match v with
  | JNum m e => if (0 <=? e)%Z then Some (m * 10 ^ e)%Z else None
  | _ => None
  end.

End Json.

Import Json.

(* ===================================================================== *)
(** * The script [openclaw_skill/index.js] *)
(* ===================================================================== *)

Module Agent.

(** ** Constants *)

Definition DEFAULT_SERVER : str := lit "http://57.129.44.62:8000".
Definition POLL_INTERVAL_MS : Z := 5000.
Definition MAX_CONSECUTIVE_ERRORS : Z := 10.
Definition ERROR_BACKOFF_MS : Z := 15000.

(** ** Role definitions *)

Record RoleInfo : Type :=
  { difficulty : str; role_points : Z; role_label : str }.

Definition ROLE_TABLE : list (str * RoleInfo) :=
  [ (lit "trend_researcher",
     {| difficulty := lit "easy"; role_points := 10;
        role_label := lit "Trend Researcher" |});
    (lit "theme_designer",
     {| difficulty := lit "medium"; role_points := 15;
        role_label := lit "Theme Designer" |});
    (lit "world_architect",
     {| difficulty := lit "hard"; role_points := 25;
        role_label := lit "World Architect" |});
    (lit "quality_reviewer",
     {| difficulty := lit "medium"; role_points := 15;
        role_label := lit "Quality Reviewer" |});
    (lit "script_writer",
     {| difficulty := lit "hard"; role_points := 30;
        role_label := lit "Script Writer" |});
    (lit "tycoon_architect",
     {| difficulty := lit "hard"; role_points := 25;
        role_label := lit "Tycoon Architect" |});
    (lit "simulator_designer",
     {| difficulty := lit "hard"; role_points := 25;
        role_label := lit "Simulator Designer" |}) ].

Fixpoint assoc (A : Type) (k : str) (l : list (str * A)) : option A :=
  match l with
  | [] => None
  | (k', v) :: l' => if Str.eqb k k' then Some v else assoc k l'
  end.

(** [ROLES[key]] for a key that is none of the names every object
    inherits ([constructor], [toString], ...): the own properties of the
    table. *)
Definition ROLES (key : str) : option RoleInfo := assoc key ROLE_TABLE.

Definition ROLE_KEYS : list str := map fst ROLE_TABLE.

(** ** Role system prompts *)

Definition prompt_trend_researcher : string :=
   ("You are a Roblox trend researcher for the Clankerblox AI game builder. " ++
    "Analyze the given topic thoroughly and return ONLY valid JSON (no markdown, no backticks) with these fields: " ++
    "{trend_name: string, why_trending: string, key_characters: string[], visual_elements: string[], " ++
    "color_palette: string[] (hex codes), catchphrases: string[], meme_elements: string[], " ++
    "competitor_games: string[], monetization_hooks: string[]}. " ++
    "Be creative, specific, and reference real Roblox trends. Every array must have at least 3 entries.")%string.

Definition prompt_theme_designer : string :=
   ("You are a Roblox theme designer for the Clankerblox AI game builder. " ++
    "Create exactly 8 themed sections for an obby/platformer. Return ONLY valid JSON (no markdown) with: " ++
    "{game_title: string, sections: [{index: number (0-7), name: string, platform_color: [R,G,B] (0-255), " ++
    "platform_material: string (Roblox material name), accent_color: [R,G,B], kill_brick_color: [R,G,B], " ++
    "wall_color: [R,G,B], wall_material: string, floor_color: [R,G,B], floor_material: string, " ++
    "kill_description: string, decoration_notes: string}]}. " ++
    "Make each section visually distinct with a cohesive overall theme. Use valid Roblox material names " ++
    "(Plastic, SmoothPlastic, Neon, Foil, Brick, Marble, Granite, Wood, Slate, Concrete, Ice, Glass, etc).")%string.

Definition prompt_world_architect : string :=
   ("You are a Roblox world architect for the Clankerblox AI game builder. " ++
    "Design physics-valid level layouts for an obby/platformer. Return ONLY valid JSON (no markdown) with: " ++
    "{section_configs: [{index: number, gap_min: number, gap_max: number (MAX 8 studs = sprint jump limit), " ++
    "platform_width_min: number, platform_width_max: number, moving_chance: number (0-1), " ++
    "spinning_chance: number (0-1), kill_brick_chance: number (0-1), enclosed: boolean}], " ++
    "global_rules: {gravity: number, walkspeed: number, jump_power: number, checkpoint_frequency: number, " ++
    "difficulty_curve: string}}. " ++
    "Ensure difficulty ramps progressively. Early sections must be forgiving (large platforms, small gaps). " ++
    "Max gap is 8 studs (Roblox sprint jump limit). Include at least 8 section configs.")%string.

Definition prompt_quality_reviewer : string :=
   ("You are a Roblox game quality reviewer for the Clankerblox AI game builder. " ++
    "Score the given game design on these categories (1-10 each): playability, theme_consistency, " ++
    "visual_quality, fun_factor, monetization_ready, bug_risk. " ++
    "Return ONLY valid JSON (no markdown) with: {overall_score: number (1-10), " ++
    "categories: {playability: number, theme_consistency: number, visual_quality: number, " ++
    "fun_factor: number, monetization_ready: number, bug_risk: number}, " ++
    "critical_issues: string[], improvement_suggestions: string[], ship_ready: boolean}. " ++
    "Be honest and constructive. ship_ready should only be true if overall_score >= 7 and no critical issues.")%string.

Definition prompt_script_writer : string :=
   ("You are a Roblox Lua script writer for the Clankerblox AI game builder. " ++
    "Write complete, production-ready Lua scripts for Roblox Studio. " ++
    "Return ONLY valid JSON (no markdown) with: {script_name: string, " ++
    "script_type: string (ServerScript|LocalScript|ModuleScript), " ++
    "location: string (where in the game hierarchy it goes, e.g. ServerScriptService, StarterPlayerScripts), " ++
    "code: string (the full Lua source code), dependencies: string[], notes: string}. " ++
    "Use proper Roblox API patterns: game:GetService(), :WaitForChild(), remote events for client-server. " ++
    "Include error handling and comments. Do NOT use deprecated APIs.")%string.

Definition prompt_tycoon_architect : string :=
   ("You are a Roblox tycoon game architect for the Clankerblox AI game builder. " ++
    "Design a complete tycoon economy and progression system. " ++
    "Return ONLY valid JSON (no markdown) with: {tycoon_name: string, currency_name: string, " ++
    "tiers: [{tier: number, name: string, unlock_cost: number, droppers: [{name: string, " ++
    "income_per_drop: number, drop_rate: number, upgrade_cost: number, max_level: number}]}], " ++
    "upgrades: [{name: string, cost: number, effect: string, multiplier: number}], " ++
    "rebirth: {cost: number, reward_multiplier: number, bonus_items: string[]}, " ++
    "pricing_strategy: string, estimated_playtime_to_max: string}. " ++
    "Ensure balanced economy: early tiers cheap and rewarding, later tiers exponentially more expensive. " ++
    "Include at least 5 tiers with 2-4 droppers each.")%string.

Definition prompt_simulator_designer : string :=
   ("You are a Roblox simulator designer for the Clankerblox AI game builder. " ++
    "Design simulator areas, click targets, pet systems, and progression. " ++
    "Return ONLY valid JSON (no markdown) with: {simulator_name: string, click_mechanic: string, " ++
    "areas: [{name: string, unlock_price: number, click_value_multiplier: number, " ++
    "enemies: [{name: string, health: number, reward: number}], boss: {name: string, health: number, " ++
    "reward: number, drop_chance: number}}], " ++
    "pets: [{name: string, rarity: string (Common|Uncommon|Rare|Epic|Legendary|Mythic), " ++
    "chance: number (0-1), multiplier: number, shiny_multiplier: number}], " ++
    "rebirth: {requirement: number, reward: string, permanent_multiplier: number}, " ++
    "egg_prices: [{egg_name: string, cost: number, pet_pool: string[]}]}. " ++
    "Design at least 6 areas with increasing difficulty. Pet table must have 10+ pets across all rarities.")%string.

Definition ROLE_PROMPT_TABLE : list (str * str) :=
  [ (lit "trend_researcher", lit prompt_trend_researcher);
    (lit "theme_designer", lit prompt_theme_designer);
    (lit "world_architect", lit prompt_world_architect);
    (lit "quality_reviewer", lit prompt_quality_reviewer);
    (lit "script_writer", lit prompt_script_writer);
    (lit "tycoon_architect", lit prompt_tycoon_architect);
    (lit "simulator_designer", lit prompt_simulator_designer) ].

(** [ROLE_PROMPTS[role]], likewise of the own properties. *)
Definition ROLE_PROMPTS (role : str) : option str :=
  assoc role ROLE_PROMPT_TABLE.

(** ** AI backend configuration *)

(** [x?.[0]]: the first element of an array, the first character of a
    string, the property named [0] of an object. *)
Definition index0 (v : json) : option json :=
  match v with
  | JArr (x :: _) => Some x
  | JStr (c :: _) => Some (JStr [c])
  | JObj l => lookup (lit "0") l
  | _ => None
  end.

(** Optional chaining: [undefined] and [null] stop the chain. *)
Definition chain (x : option json) (f : json -> option json)
  : option json :=
  match x with
  | None | Some JNull => None
  | Some v => f v
  end.

(** [x || ""]. *)
Definition or_empty (x : option json) : json :=
  match x with
  | Some v => if truthy v then v else JStr []
  | None => JStr []
  end.

Definition obj (l : list (string * json)) : json :=
  JObj (map (fun kv => (lit (fst kv), snd kv)) l).

Record Backend : Type :=
  { label : str;
    envKey : str;
    url : str -> str;
    headers : option (str -> list (str * str));
    buildBody : str -> json -> json;
    extractText : json -> json }.

Definition chat_body (model : string) (system : str) (prompt : json)
  : json :=
  obj [ ("model", JStr (lit model));
        ("messages",
         JArr [ obj [("role", JStr (lit "system"));
                     ("content", JStr system)];
                obj [("role", JStr (lit "user")); ("content", prompt)] ]);
        ("max_tokens", JInt 4096) ]%string.

(** [json?.choices?.[0]?.message?.content || ""]. *)
Definition chat_text (j : json) : json :=
  or_empty
    (chain (chain (chain (chain (Some j)
       (get (lit "choices"))) index0) (get (lit "message")))
       (get (lit "content"))).

Definition bearer (key : str) : list (str * str) :=
  [ (lit "Authorization", lit "Bearer " ++ key);
    (lit "content-type", lit "application/json") ].

Definition gemini : Backend :=
  {| label := lit "Google Gemini (free)";
     envKey := lit "GEMINI_API_KEY";
     url := fun key =>
       lit "https://generativelanguage.googleapis.com/v1beta/models/gemini-2.0-flash:generateContent?key="
       ++ key;
     headers := None;
     buildBody := fun system prompt =>
       obj [ ("system_instruction",
              obj [("parts", JArr [obj [("text", JStr system)]])]);
             ("contents",
              JArr [obj [("parts", JArr [obj [("text", prompt)]])]]) ]%string;
     extractText := fun j =>
       or_empty
         (chain (chain (chain (chain (chain (chain (Some j)
            (get (lit "candidates"))) index0) (get (lit "content")))
            (get (lit "parts"))) index0) (get (lit "text"))) |}.

Definition claude : Backend :=
  {| label := lit "Anthropic Claude";
     envKey := lit "ANTHROPIC_API_KEY";
     url := fun _ => lit "https://api.anthropic.com/v1/messages";
     headers := Some (fun key =>
       [ (lit "x-api-key", key);
         (lit "anthropic-version", lit "2023-06-01");
         (lit "content-type", lit "application/json") ]);
     buildBody := fun system prompt =>
       obj [ ("model", JStr (lit "claude-sonnet-4-20250514"));
             ("max_tokens", JInt 4096);
             ("system", JStr system);
             ("messages",
              JArr [obj [("role", JStr (lit "user"));
                         ("content", prompt)]]) ]%string;
     extractText := fun j =>
       or_empty
         (chain (chain (chain (Some j)
            (get (lit "content"))) index0) (get (lit "text"))) |}.

Definition gpt4o : Backend :=
  {| label := lit "OpenAI GPT-4o";
     envKey := lit "OPENAI_API_KEY";
     url := fun _ => lit "https://api.openai.com/v1/chat/completions";
     headers := Some bearer;
     buildBody := chat_body "gpt-4o";
     extractText := chat_text |}.

Definition deepseek : Backend :=
  {| label := lit "DeepSeek";
     envKey := lit "DEEPSEEK_API_KEY";
     url := fun _ => lit "https://api.deepseek.com/chat/completions";
     headers := Some bearer;
     buildBody := chat_body "deepseek-chat";
     extractText := chat_text |}.

Definition AI_BACKEND_TABLE : list (str * Backend) :=
  [ (lit "gemini", gemini); (lit "claude", claude);
    (lit "gpt4o", gpt4o); (lit "deepseek", deepseek) ].

(** [AI_BACKENDS[model]], likewise of the own properties. *)
Definition AI_BACKENDS (model : str) : option Backend :=
  assoc model AI_BACKEND_TABLE.

Definition AI_BACKEND_KEYS : list str := map fst AI_BACKEND_TABLE.

(** ** The worker identity *)

Record Stats : Type := { completed : Z; points : Z; errors : Z }.

Record Config : Type :=
  { name : str;
    owner : str;
    solana_wallet : str;
    role : str;
    model : str;
    model_info : str;
    ai_api_key : option str;
    agent_id : str;
    api_key : option str;
    server : str;
    created_at : str;
    stats : Stats }.

Definition with_stats (cfg : Config) (st : Stats) : Config :=
  {| name := name cfg; owner := owner cfg;
     solana_wallet := solana_wallet cfg; role := role cfg;
     model := model cfg; model_info := model_info cfg;
     ai_api_key := ai_api_key cfg; agent_id := agent_id cfg;
     api_key := api_key cfg; server := server cfg;
     created_at := created_at cfg; stats := st |}.

Definition nullable (x : option str) : json :=
  match x with Some s => JStr s | None => JNull end.

(** The object [fullConfig] that setup builds and the loop updates. *)
Definition config_json (cfg : Config) : json :=
  obj [ ("name", JStr (name cfg));
        ("owner", JStr (owner cfg));
        ("solana_wallet", JStr (solana_wallet cfg));
        ("role", JStr (role cfg));
        ("model", JStr (model cfg));
        ("model_info", JStr (model_info cfg));
        ("ai_api_key", nullable (ai_api_key cfg));
        ("agent_id", JStr (agent_id cfg));
        ("api_key", nullable (api_key cfg));
        ("server", JStr (server cfg));
        ("created_at", JStr (created_at cfg));
        ("stats",
         obj [ ("completed", JInt (completed (stats cfg)));
               ("points", JInt (points (stats cfg)));
               ("errors", JInt (errors (stats cfg))) ]) ]%string.

(** ** Reading the identity off a loaded object *)

Definition field_str (k : string) (v : json) : option str :=
  match get (lit k) v with
  | Some (JStr s) => Some s
  | _ => None
  end.

(** A field that holds a string, or is [null] or missing. *)
Definition field_opt (k : string) (v : json) : option (option str) :=
  match get (lit k) v with
  | Some (JStr s) => Some (Some s)
  | Some JNull | None => Some None
  | Some _ => None
  end.

Definition field_int (k : string) (v : json) : option Z :=
  match get (lit k) v with
  | Some x => int_value x
  | None => None
  end.

Definition and_then (A B : Type) (x : option A) (f : A -> option B)
  : option B :=
  match x with
  | Some a => f a
  | None => None
  end.

(** [config.stats], which [main] creates with zero counts when the
    loaded object has none. *)
Definition stats_of (v : json) : option Stats :=
  match get (lit "stats") v with
  | None | Some JNull =>
      Some {| completed := 0; points := 0; errors := 0 |}
  | Some st =>
      and_then (field_int "completed" st) (fun c =>
      and_then (field_int "points" st) (fun p =>
      and_then (field_int "errors" st) (fun e =>
      Some {| completed := c; points := p; errors := e |})))
  end.

(** The identity the loop works on when [main] hands it the object [v]
    that [loadConfig] returned; [None] when a field has a type the loop
    does not expect. *)
Definition identity_of (v : json) : option Config :=
  and_then (field_str "name" v) (fun name_ =>
  and_then (field_str "owner" v) (fun owner_ =>
  and_then (field_str "solana_wallet" v) (fun wallet_ =>
  and_then (field_str "role" v) (fun role_ =>
  and_then (field_str "model" v) (fun model_ =>
  and_then (field_str "model_info" v) (fun info_ =>
  and_then (field_opt "ai_api_key" v) (fun key_ =>
  and_then (field_str "agent_id" v) (fun id_ =>
  and_then (field_opt "api_key" v) (fun api_ =>
  and_then (field_str "server" v) (fun server_ =>
  and_then (field_str "created_at" v) (fun created_ =>
  and_then (stats_of v) (fun stats_ =>
  Some {| name := name_; owner := owner_; solana_wallet := wallet_;
          role := role_; model := model_; model_info := info_;
          ai_api_key := key_; agent_id := id_; api_key := api_;
          server := server_; created_at := created_;
          stats := stats_ |})))))))))))).

(** ** The world of the process *)

(** The file at [CONFIG_PATH]. *)
Inductive file : Type :=
| Absent
| Unreadable (why : str)
| Content (data : str).

(** What [fetch] resolves to: a rejection, or a status and a body. *)
Inductive http_outcome : Type :=
| NetFail (why : str)
| Response (status : N) (body : str).

(** What [fs.writeFileSync] does: it writes, or it throws and leaves
    the file in some state. *)
Inductive write_outcome : Type :=
| Written
| WriteFailed (why : str) (remains : file).

(** The environment of the process: [process.env] and [SERVER_URL]. *)
Record process : Type :=
  { env : str -> option str;
    SERVER_URL : str }.

Inductive level : Type := LInfo | LOk | LWarn | LErr | LWork | LPlain.

(** One constructor per message the script prints. *)
Inductive message : Type :=
| MReadFailed (why : str)
| MConfigSaved
| MSaveFailed (why : str)
| MNoSystemPrompt (role : str)
| MOpenClawMode
| MOpenClawTask (payload : str)
| MNoBackend (role : str) (system : str)
| MTaskPrompt (prompt : json)
| MNoApiKey (label envKey : str)
| MSending (label : str)
| MEmptyResponse
| MRawFallback
| MParsed
| MAIFailed (why : str)
| MSubmitted (taskId : json)
| MSubmitFailed (taskId : json) (why : str)
| MWorkerActive (label name agent_id : str)
| MReceived (taskId : json) (prompt : json)
| MNoResult (taskId : json) (no_model : bool)
| MWaiting (st : Stats)
| MWorkerError (n : Z) (why : str)
| MBackoff (seconds : Z).

Inductive event : Type :=
| Http (method url : str) (hdrs : list (str * str)) (body : option str)
| WriteFile (data : str)
| Sleep (ms : Z)
| Print (lvl : level) (what : message).

(** The state a cycle of the loop acts on: the [config] object, the
    local [consecutiveErrors], the configuration file and what the
    process has done so far. *)
Record machine : Type :=
  { config : Config;
    consecutiveErrors : Z;
    disk : file;
    trace : list event }.

(** ** Computations that act on the machine and may throw *)

Inductive result (A : Type) : Type :=
| Ok (a : A)
| Throw (why : str).
Arguments Throw {A}.

Definition M (A : Type) : Type := machine -> result A * machine.

Definition ret (A : Type) (a : A) : M A := fun m => (Ok a, m).

Definition throw (A : Type) (why : str) : M A := fun m => (Throw why, m).
Arguments throw {A}.

Definition bind (A B : Type) (c : M A) (k : A -> M B) : M B :=
  fun m =>
    match c m with
    | (Ok a, m') => k a m'
    | (Throw why, m') => (Throw why, m')
    end.

Definition try_catch (A : Type) (c : M A) (handler : str -> M A) : M A :=
  fun m =>
    match c m with
    | (Ok a, m') => (Ok a, m')
    | (Throw why, m') => handler why m'
    end.

Declare Scope agent_scope.
Delimit Scope agent_scope with agent.
Notation "x <- c ;; k" := (bind c (fun x => k))
  (at level 61, c at next level, right associativity) : agent_scope.
Notation "c ;; k" := (bind c (fun _ => k))
  (at level 61, right associativity) : agent_scope.
Local Open Scope agent_scope.

Definition emit (e : event) : M unit :=
  fun m =>
    (Ok tt, {| config := config m;
               consecutiveErrors := consecutiveErrors m;
               disk := disk m;
               trace := trace m ++ [e] |}).

Definition get_config : M Config := fun m => (Ok (config m), m).

Definition get_consecutive : M Z := fun m => (Ok (consecutiveErrors m), m).

Definition get_disk : M file := fun m => (Ok (disk m), m).

Definition set_config (cfg : Config) : M unit :=
  fun m =>
    (Ok tt, {| config := cfg;
               consecutiveErrors := consecutiveErrors m;
               disk := disk m;
               trace := trace m |}).

Definition set_consecutive (n : Z) : M unit :=
  fun m =>
    (Ok tt, {| config := config m;
               consecutiveErrors := n;
               disk := disk m;
               trace := trace m |}).

Definition set_disk (f : file) : M unit :=
  fun m =>
    (Ok tt, {| config := config m;
               consecutiveErrors := consecutiveErrors m;
               disk := f;
               trace := trace m |}).

(** An assignment to a field of [config.stats]. *)
Definition modify_stats (f : Stats -> Stats) : M unit :=
  cfg <- get_config ;;
  set_config (with_stats cfg (f (stats cfg))).

Definition log (what : message) : M unit := emit (Print LInfo what).
Definition logOk (what : message) : M unit := emit (Print LOk what).
Definition logWarn (what : message) : M unit := emit (Print LWarn what).
Definition logErr (what : message) : M unit := emit (Print LErr what).
Definition logWork (what : message) : M unit := emit (Print LWork what).

Definition sleep (ms : Z) : M unit := emit (Sleep ms).

(** ** Config management *)

Definition loadConfig : M json :=
  d <- get_disk ;;
  match d with
  | Absent => ret JNull
  | Unreadable why => logWarn (MReadFailed why) ;; ret JNull
  | Content data =>
      match parse data with
      | Some v => ret v
      | None =>
          logWarn (MReadFailed (lit "Unexpected token in JSON")) ;;
          ret JNull
      end
  end.

Definition saveConfig (cfg : Config) (w : write_outcome) : M unit :=
  let data := stringify_indent 2 (config_json cfg) in
  emit (WriteFile data) ;;
  match w with
  | Written => set_disk (Content data) ;; logOk MConfigSaved
  | WriteFailed why remains =>
      set_disk remains ;; logErr (MSaveFailed why) ;; throw why
  end.

(** ** API helpers *)

Definition resp_ok (status : N) : bool :=
  ((200 <=? status) && (status <=? 299))%N.

(** [await fetch(url, opts)]. *)
Definition fetch (method url : str) (hdrs : list (str * str))
           (body : option str) (reply : http_outcome) : M (N * str) :=
  emit (Http method url hdrs body) ;;
  match reply with
  | NetFail why => throw why
  | Response status text => ret (status, text)
  end.

Definition apiRequest (P : process) (endpoint method : str)
           (body : option json) (hdrs : list (str * str))
           (reply : http_outcome) : M json :=
  let url := SERVER_URL P ++ endpoint in
  let hdrs' := (lit "Content-Type", lit "application/json") :: hdrs in
  resp <- fetch method url hdrs' (option_map stringify body) reply ;;
  let (status, text) := resp in
  if negb (resp_ok status) then
    throw (lit "API " ++ method ++ lit " " ++ endpoint ++ lit " failed ("
             ++ Str.digits status ++ lit "): " ++ text)
  else
    match text with
    | [] => ret JNull
    | _ :: _ =>
        match parse text with
        | Some v => ret v
        | None => ret (JStr text)
        end
    end.

Definition auth_headers (cfg : Config) : list (str * str) :=
  match api_key cfg with
  | Some (c :: k) => [(lit "Authorization", lit "Bearer " ++ c :: k)]
  | _ => []
  end.

(** ** AI processing *)

Definition fence_re : regex :=
  Cat (Lit (lit "```"))
    (Cat (Opt (Lit (lit "json")))
      (Cat (Star is_space)
        (Cat (Opt (Lit nl))
          (Cat (Group (StarLazy any))
            (Cat (Opt (Lit nl)) (Lit (lit "```"))))))).

Definition brace_re : regex :=
  Group (Cat (Lit (lit "{")) (Cat (Star any) (Lit (lit "}")))).

Definition bracket_re : regex :=
  Group (Cat (Lit (lit "[")) (Cat (Star any) (Lit (lit "]")))).

(** [try { return JSON.parse(x) } catch { fall through }] *)
Definition attempt (x : option str) (fallthrough : unit -> json) : json :=
  match x with
  | Some t =>
      match parse t with
      | Some v => v
      | None => fallthrough tt
      end
  | None => fallthrough tt
  end.

Definition extractJSON (text : str) : json :=
  attempt (Some text) (fun _ =>
  attempt (option_map trim (match_group1 fence_re text)) (fun _ =>
  attempt (match_group1 brace_re text) (fun _ =>
  attempt (match_group1 bracket_re text) (fun _ =>
  JNull)))).

(** [extractJSON] on whatever [extractText] returned: [JSON.parse]
    converts its argument to a string, [match] exists on strings only. *)
Definition extractJSON_of (text : json) : result json :=
  match text with
  | JStr s => Ok (extractJSON s)
  | _ =>
      match parse (to_string text) with
      | Some v => Ok v
      | None => Throw (lit "text.match is not a function")
      end
  end.

(** [a || b] on strings that may be missing. *)
Definition or_str (a b : option str) : option str :=
  match a with
  | Some (c :: r) => Some (c :: r)
  | _ => b
  end.

Definition nonempty (x : option str) : option str := or_str x None.

Definition lift (A : Type) (r : result A) : M A := fun m => (r, m).

(** The [try] block of [processWithAI]. *)
Definition call_backend (backend : Backend) (apiKey systemPrompt : str)
           (taskPrompt : json) (reply : http_outcome) : M json :=
  let body := buildBody backend systemPrompt taskPrompt in
  let hdrs :=
    match headers backend with
    | Some h => h apiKey
    | None => [(lit "Content-Type", lit "application/json")]
    end in
  resp <- fetch (lit "POST") (url backend apiKey) hdrs
                (Some (stringify body)) reply ;;
  let (status, text) := resp in
  if negb (resp_ok status) then
    throw (label backend ++ lit " API error (" ++ Str.digits status
             ++ lit "): " ++ firstn 200 text)
  else
    match parse text with
    | None => throw (lit "invalid json response body")
    | Some j =>
        let text := extractText backend j in
        if negb (truthy text) then
          logWarn MEmptyResponse ;; ret JNull
        else
          parsed <- lift (extractJSON_of text) ;;
          if negb (truthy parsed) then
            logWarn MRawFallback ;;
            ret (obj [("_raw_text", text)]%string)
          else
            logOk MParsed ;; ret parsed
    end.

(** Strings and arrays have a [slice] method. *)
Definition has_slice (v : json) : bool :=
  match v with
  | JStr _ | JArr _ => true
  | _ => false
  end.

(** The [TypeError] of [taskPrompt.slice(...)] on a value without a
    [slice] method. *)
Definition slice_error (v : json) : str :=
  match v with
  | JNull => lit "Cannot read properties of null (reading 'slice')"
  | _ => lit "taskPrompt.slice is not a function"
  end.

(** [processWithAI(config, taskPrompt)].  The lookups [ROLE_PROMPTS[role]]
    and [AI_BACKENDS[config.model]] are those of the own properties of
    the two tables. *)
Definition processWithAI (P : process) (cfg : Config) (taskPrompt : json)
           (reply : http_outcome) : M json :=
  match ROLE_PROMPTS (role cfg) with
  | None => logErr (MNoSystemPrompt (role cfg)) ;; ret JNull
  | Some systemPrompt =>
      if Str.eqb (model cfg) (lit "openclaw") then
        log MOpenClawMode ;;
        emit (Print LPlain (MOpenClawTask (stringify
          (obj [ ("_openclaw_task", JBool true);
                 ("system", JStr systemPrompt);
                 ("prompt", taskPrompt);
                 ("role", JStr (role cfg));
                 ("expected_format", JStr (lit "json")) ]%string)))) ;;
        sleep 2000 ;;
        ret JNull
      else
        match (if Str.eqb (model cfg) (lit "none") then None
               else AI_BACKENDS (model cfg)) with
        | None =>
            logWarn (MNoBackend (role cfg) (firstn 120 systemPrompt)) ;;
            (if has_slice taskPrompt then ret tt
             else throw (slice_error taskPrompt)) ;;
            emit (Print LPlain (MTaskPrompt taskPrompt)) ;;
            ret JNull
        | Some backend =>
            match or_str (ai_api_key cfg)
                         (nonempty (env P (envKey backend))) with
            | None =>
                logErr (MNoApiKey (label backend) (envKey backend)) ;;
                ret JNull
            | Some apiKey =>
                log (MSending (label backend)) ;;
                try_catch
                  (call_backend backend apiKey systemPrompt taskPrompt
                                reply)
                  (fun why => logErr (MAIFailed why) ;; ret JNull)
            end
        end
  end.

(** ** Worker loop *)

Definition fetchWork (P : process) (cfg : Config) (reply : http_outcome)
  : M json :=
  try_catch
    (apiRequest P (lit "/api/agents/" ++ agent_id cfg ++ lit "/work")
                (lit "GET") None (auth_headers cfg) reply)
    (fun why =>
       if includes why (lit "404") || includes why (lit "204")
       then ret JNull
       else throw why).

Definition submitResult (P : process) (cfg : Config) (taskId result : json)
           (reply : http_outcome) : M json :=
  try_catch
    (resp <- apiRequest P (lit "/api/agents/submit") (lit "POST")
               (Some (obj [ ("agent_id", JStr (agent_id cfg));
                            ("task_id", taskId);
                            ("result", result) ]%string))
               (auth_headers cfg) reply ;;
     logOk (MSubmitted taskId) ;;
     ret resp)
    (fun why => logErr (MSubmitFailed taskId why) ;; throw why).

(** What the world answers during one cycle of the loop. *)
Record cycle_env : Type :=
  { work_reply : http_outcome;
    ai_reply : http_outcome;
    submit_reply : http_outcome;
    write_reply : write_outcome }.

(** [a || b || c || d]. *)
Definition first_truthy (l : list (option json)) (last : json) : json :=
  match filter truthy_opt l with
  | Some v :: _ => v
  | _ => last
  end.

(** [work && work.task_id]: the task id when the condition holds. *)
Definition task_of (work : json) : option json :=
  if truthy work then
    match get (lit "task_id") work with
    | Some taskId => if truthy taskId then Some taskId else None
    | None => None
    end
  else None.

(** [work.prompt || work.description || work.task ||
    JSON.stringify(work)]. *)
Definition prompt_of (work : json) : json :=
  first_truthy [ get (lit "prompt") work;
                 get (lit "description") work;
                 get (lit "task") work ]
               (JStr (stringify work)).

(** The [try] block of the loop. *)
Definition loop_try (P : process) (roleInfo : RoleInfo) (E : cycle_env)
  : M unit :=
  cfg <- get_config ;;
  work <- fetchWork P cfg (work_reply E) ;;
  match task_of work with
  | Some taskId =>
      set_consecutive 0 ;;
      let taskPrompt := prompt_of work in
      (if has_slice taskPrompt then ret tt
       else throw (lit "taskPrompt.slice is not a function")) ;;
      logWork (MReceived taskId taskPrompt) ;;
      result <- processWithAI P cfg taskPrompt (ai_reply E) ;;
      if truthy result then
        submitResult P cfg taskId result (submit_reply E) ;;
        modify_stats (fun st =>
          {| completed := completed st + 1;
             points := points st;
             errors := errors st |}) ;;
        modify_stats (fun st =>
          {| completed := completed st;
             points := points st + role_points roleInfo;
             errors := errors st |}) ;;
        cfg1 <- get_config ;;
        saveConfig cfg1 (write_reply E)
      else
        logWarn (MNoResult taskId (Str.eqb (model cfg) (lit "none")))
  | None =>
      cfg' <- get_config ;;
      emit (Print LPlain (MWaiting (stats cfg'))) ;;
      set_consecutive 0
  end.

(** The [catch] block of the loop. *)
Definition loop_catch (why : str) : M unit :=
  n <- get_consecutive ;;
  set_consecutive (n + 1) ;;
  modify_stats (fun st =>
    {| completed := completed st;
       points := points st;
       errors := errors st + 1 |}) ;;
  n' <- get_consecutive ;;
  logErr (MWorkerError n' why) ;;
  if (MAX_CONSECUTIVE_ERRORS <=? n')%Z then
    logErr (MBackoff (ERROR_BACKOFF_MS / 1000)) ;;
    sleep ERROR_BACKOFF_MS ;;
    set_consecutive 0
  else ret tt.

(** One turn of [while (true)]. *)
Definition cycle (P : process) (roleInfo : RoleInfo) (E : cycle_env)
  : M unit :=
  try_catch (loop_try P roleInfo E) loop_catch ;;
  sleep POLL_INTERVAL_MS.

Definition step (P : process) (roleInfo : RoleInfo) (E : cycle_env)
           (m : machine) : machine :=
  snd (cycle P roleInfo E m).

(** The machine after the given cycles. *)
Definition run (P : process) (roleInfo : RoleInfo) (Es : list cycle_env)
           (m : machine) : machine :=
  fold_left (fun m E => step P roleInfo E m) Es m.

(** [workerLoop(config)] observed for as many cycles as [Es] describes;
    [None] when [ROLES[config.role]] is undefined and the banner
    throws. *)
Definition workerLoop (P : process) (cfg : Config) (d : file)
           (Es : list cycle_env) : option machine :=
  match ROLES (role cfg) with
  | None => None
  | Some roleInfo =>
      Some (run P roleInfo Es
              {| config := cfg;
                 consecutiveErrors := 0;
                 disk := d;
                 trace := [Print LPlain
                             (MWorkerActive (role_label roleInfo)
                                (name cfg) (agent_id cfg))] |})
  end.

End Agent.

Import Agent.

Unset Implicit Arguments.

(** [Str.eqb] decides equality. *)
Lemma str_eqb_eq (a b : str) : Str.eqb a b = true <-> a = b.
Proof.
  revert b. induction a as [ | x a IH]; intros [ | y b]; cbn;
    try (split; [ discriminate | discriminate ]); [ now split | ].
  rewrite andb_true_iff, N.eqb_eq, IH. split.
  - now intros [-> ->].
  - intros H. injection H as -> ->. now split.
Qed.

Lemma str_eqb_refl (a : str) : Str.eqb a a = true.
Proof. now apply str_eqb_eq. Qed.

(* ===================================================================== *)
(** * [JSON.parse] after [JSON.stringify] *)
(* ===================================================================== *)

(** ** Decimal digits *)

Lemma digits_fuel_acc fuel : forall n acc,
  digits_fuel fuel n acc = digits_fuel fuel n [] ++ acc.
Proof.
  induction fuel as [ | f IH]; intros n acc; cbn; [ reflexivity | ].
  destruct (n <? 10)%N; [ reflexivity | ].
  rewrite IH, (IH _ [_]), <- app_assoc. reflexivity.
Qed.

Lemma log2_div10 n : (10 <= n)%N -> (N.log2 (n / 10) < N.log2 n)%N.
Proof.
  intros H.
  assert (H2 : (n / 10 <= n / 2)%N).
  { apply N.div_le_compat_l. lia. }
  assert (H3 : (N.log2 (n / 2) < N.log2 n)%N).
  { rewrite <- N.div2_div, N.div2_spec, N.log2_shiftr.
    assert (0 < N.log2 n)%N by (apply N.log2_pos; lia). lia. }
  pose proof (N.log2_le_mono _ _ H2). lia.
Qed.

(** More fuel than the binary length changes nothing. *)
Lemma digits_fuel_enough fuel : forall fuel' n,
  (N.to_nat (N.log2 n) < fuel)%nat ->
  (N.to_nat (N.log2 n) < fuel')%nat ->
  digits_fuel fuel n [] = digits_fuel fuel' n [].
Proof.
  induction fuel as [ | f IH]; intros [ | f'] n H H'; try lia.
  cbn [digits_fuel]. destruct (N.ltb_spec n 10) as [Hlt | Hge];
    [ reflexivity | ].
  pose proof (log2_div10 n Hge) as Hl.
  rewrite digits_fuel_acc, (digits_fuel_acc f').
  f_equal. apply IH; lia.
Qed.

Lemma digits_small n : (n < 10)%N -> Str.digits n = [(48 + n)%N].
Proof.
  intros H. unfold Str.digits. cbn [digits_fuel].
  destruct (N.ltb_spec n 10); [ | lia ].
  now rewrite N.mod_small.
Qed.

Lemma digits_step n :
  (10 <= n)%N ->
  Str.digits n = Str.digits (n / 10) ++ [(48 + n mod 10)%N].
Proof.
  intros H. unfold Str.digits at 1. cbn [digits_fuel].
  destruct (N.ltb_spec n 10); [ lia | ].
  rewrite digits_fuel_acc. f_equal.
  pose proof (log2_div10 n H).
  apply digits_fuel_enough; lia.
Qed.

(** Induction on a number along its decimal digits. *)
Lemma decimal_ind (Q : N -> Prop) :
  (forall n, (n < 10)%N -> Q n) ->
  (forall n, (10 <= n)%N -> Q (n / 10)%N -> Q n) ->
  forall n, Q n.
Proof.
  intros Hs Hl n. induction n as [n IH] using (well_founded_induction N.lt_wf_0).
  destruct (N.ltb_spec n 10) as [H | H]; [ now apply Hs | ].
  apply Hl; [ assumption | ]. apply IH.
  apply N.div_lt; lia.
Qed.

Lemma is_digit_code d : (d < 10)%N -> is_digit (48 + d) = true.
Proof.
  intros H. unfold is_digit. apply andb_true_iff. split; apply N.leb_le; lia.
Qed.

Lemma digits_all_digits n : forallb is_digit (Str.digits n) = true.
Proof.
  induction n as [n H | n H IH] using decimal_ind.
  - rewrite digits_small by assumption. cbn [forallb].
    now rewrite is_digit_code.
  - rewrite digits_step by assumption. rewrite forallb_app, IH.
    cbn [forallb]. rewrite is_digit_code; [ reflexivity | ].
    apply N.mod_upper_bound. lia.
Qed.

Lemma digits_val_app a b :
  digits_val (a ++ b) =
  fold_left (fun acc c => (10 * acc + (Z.of_N c - 48))%Z) b (digits_val a).
Proof. unfold digits_val. now rewrite fold_left_app. Qed.

Lemma digits_val_digits n : digits_val (Str.digits n) = Z.of_N n.
Proof.
  induction n as [n H | n H IH] using decimal_ind.
  - rewrite digits_small by assumption. unfold digits_val.
    cbn [fold_left]. lia.
  - rewrite digits_step by assumption. rewrite digits_val_app, IH.
    cbn [fold_left]. pose proof (N.div_mod n 10). lia.
Qed.

Lemma digits_nonempty n : Str.digits n <> [].
Proof.
  destruct (N.ltb_spec n 10) as [H | H].
  - rewrite digits_small by assumption. discriminate.
  - rewrite digits_step by assumption. now destruct (Str.digits (n / 10)).
Qed.

(** The first digit of a positive number is not [0]. *)
Lemma digits_head n :
  (0 < n)%N ->
  exists c d, Str.digits n = c :: d /\ (49 <= c)%N /\ (c <= 57)%N.
Proof.
  induction n as [n H | n H IH] using decimal_ind; intros Hpos.
  - rewrite digits_small by assumption. eexists _, _. split; [ reflexivity | ].
    lia.
  - rewrite digits_step by assumption.
    destruct IH as (c & d & -> & Hc).
    + apply N.div_str_pos. lia.
    + eexists _, _. split; [ reflexivity | ]. exact Hc.
Qed.

(** The last digit is the residue modulo ten. *)
Lemma digits_last n :
  exists d, Str.digits n = d ++ [(48 + n mod 10)%N].
Proof.
  destruct (N.ltb_spec n 10) as [H | H].
  - rewrite digits_small by assumption. exists []. cbn.
    now rewrite N.mod_small.
  - rewrite digits_step by assumption. eexists. reflexivity.
Qed.

(** ** Numbers: [parse_number] after [number_to_string] *)

(** The text after a number does not continue it. *)
Definition number_end (rest : str) : Prop :=
  match rest with
  | [] => True
  | c :: _ =>
      is_digit c = false /\ c <> 46%N /\ c <> 101%N /\ c <> 69%N
  end.

Lemma span_digits_app ds rest :
  forallb is_digit ds = true ->
  match rest with [] => True | c :: _ => is_digit c = false end ->
  span_digits (ds ++ rest) = (ds, rest).
Proof.
  intros Hd Hr. induction ds as [ | c ds IH]; cbn [app span_digits].
  - destruct rest as [ | c rest]; [ reflexivity | ].
    cbn [span_digits]. now rewrite Hr.
  - cbn [forallb] in Hd. apply andb_true_iff in Hd as [Hc Hd].
    now rewrite Hc, IH.
Qed.

Lemma leading_zeros_repeat z rest :
  match rest with [] => True | c :: _ => c <> 48%N end ->
  leading_zeros (repeat 48%N z ++ rest) = z.
Proof.
  intros H. induction z as [ | z IH]; cbn.
  - destruct rest as [ | c rest]; [ reflexivity | ]. cbn.
    destruct (N.eqb_spec c 48); [ contradiction | reflexivity ].
  - now rewrite IH.
Qed.

Lemma rev_repeat (A : Type) (x : A) n : rev (repeat x n) = repeat x n.
Proof.
  induction n as [ | n IH]; [ reflexivity | ].
  cbn. rewrite IH. clear IH. induction n as [ | n IH]; [ reflexivity | ].
  cbn. now rewrite IH.
Qed.

Lemma digits_val_zeros z d :
  digits_val (repeat 48%N z ++ d) = digits_val d.
Proof.
  induction z as [ | z IH]; [ reflexivity | ].
  unfold digits_val in *. cbn. exact IH.
Qed.

(** Normalising digits that end in a non-zero digit, between leading and
    trailing zeros. *)
Lemma decimal_padded neg pre d last z e :
  (last <> 48)%N ->
  digits_val (d ++ [last]) <> 0%Z ->
  decimal neg (repeat 48%N pre ++ (d ++ [last]) ++ repeat 48%N z) e =
  JNum (if neg then - digits_val (d ++ [last]) else digits_val (d ++ [last]))
       (e + Z.of_nat z).
Proof.
  intros Hl Hv.
  set (D := repeat 48%N pre ++ d ++ [last]).
  replace (repeat 48%N pre ++ (d ++ [last]) ++ repeat 48%N z)
    with (D ++ repeat 48%N z)
    by (unfold D; now rewrite <- !app_assoc).
  unfold decimal.
  assert (Hz : leading_zeros (rev (D ++ repeat 48%N z)) = z).
  { rewrite rev_app_distr, rev_repeat. unfold D.
    rewrite app_assoc, rev_app_distr. cbn [rev app].
    now apply leading_zeros_repeat. }
  rewrite Hz, length_app, repeat_length.
  replace (length D + z - z)%nat with (length D) by lia.
  rewrite firstn_app, firstn_all, Nat.sub_diag. cbn [firstn].
  rewrite app_nil_r. unfold D. rewrite digits_val_zeros.
  destruct (Z.eqb_spec (digits_val (d ++ [last])) 0); [ contradiction | ].
  reflexivity.
Qed.

Definition no_digit_next (rest : str) : Prop :=
  match rest with [] => True | c :: _ => is_digit c = false end.

Lemma number_end_no_digit rest : number_end rest -> no_digit_next rest.
Proof. destruct rest; cbn; tauto. Qed.

Lemma parse_int_digits c d rest :
  (49 <= c)%N -> (c <= 57)%N ->
  forallb is_digit (c :: d) = true ->
  no_digit_next rest ->
  parse_int ((c :: d) ++ rest) = Some (c :: d, rest).
Proof.
  intros H1 H2 Hd Hr. unfold parse_int. cbn [app].
  destruct (N.eqb_spec c 48); [ lia | ].
  cbn [forallb] in Hd. apply andb_true_iff in Hd as [Hc Hd]. rewrite Hc.
  change (c :: d ++ rest) with ((c :: d) ++ rest).
  rewrite span_digits_app; [ reflexivity | | exact Hr ].
  cbn [forallb]. now rewrite Hc.
Qed.

Lemma parse_frac_none rest :
  match rest with [] => True | c :: _ => c <> 46%N end ->
  parse_frac rest = Some ([], rest).
Proof.
  destruct rest as [ | c rest]; [ reflexivity | ]. intros H. cbn.
  destruct (N.eqb_spec c 46); [ contradiction | reflexivity ].
Qed.

Lemma parse_frac_some d rest :
  d <> [] ->
  forallb is_digit d = true ->
  no_digit_next rest ->
  parse_frac (46%N :: d ++ rest) = Some (d, rest).
Proof.
  intros Hne Hd Hr. unfold parse_frac. cbn [N.eqb Pos.eqb].
  rewrite span_digits_app by assumption.
  destruct d; [ contradiction | reflexivity ].
Qed.

Lemma parse_frac_some_app d rest :
  d <> [] ->
  forallb is_digit d = true ->
  no_digit_next rest ->
  parse_frac ([46%N] ++ d ++ rest) = Some (d, rest).
Proof. apply parse_frac_some. Qed.

Lemma parse_exp_none rest :
  match rest with [] => True | c :: _ => c <> 101%N /\ c <> 69%N end ->
  parse_exp rest = Some (0%Z, rest).
Proof.
  destruct rest as [ | c rest]; [ reflexivity | ]. intros [H1 H2]. cbn.
  destruct (N.eqb_spec c 101); [ contradiction | ].
  destruct (N.eqb_spec c 69); [ contradiction | reflexivity ].
Qed.

Lemma parse_exp_some x rest :
  no_digit_next rest ->
  parse_exp (101%N :: (if (x <? 0)%Z then lit "-" else lit "+")
                   ++ Str.digits (Z.to_N (Z.abs x)) ++ rest) = Some (x, rest).
Proof.
  intros Hr. unfold parse_exp. cbn [N.eqb Pos.eqb orb].
  change (lit "-") with [45%N]. change (lit "+") with [43%N].
  pose proof (digits_all_digits (Z.to_N (Z.abs x))) as Hall.
  pose proof (digits_val_digits (Z.to_N (Z.abs x))) as Hval.
  pose proof (digits_nonempty (Z.to_N (Z.abs x))) as Hne.
  destruct (Z.ltb_spec x 0) as [Hx | Hx]; cbn [app N.eqb Pos.eqb];
    rewrite span_digits_app by assumption;
    (destruct (Str.digits (Z.to_N (Z.abs x))); [ contradiction | ]);
    rewrite Hval; do 2 f_equal; lia.
Qed.

Lemma forallb_repeat_zero z : forallb is_digit (repeat 48%N z) = true.
Proof. induction z; [ reflexivity | cbn [repeat forallb]; now rewrite IHz ]. Qed.

Lemma number_end_frac rest :
  number_end rest -> match rest with [] => True | c :: _ => c <> 46%N end.
Proof. destruct rest; cbn; tauto. Qed.

Lemma number_end_exp rest :
  number_end rest ->
  match rest with [] => True | c :: _ => c <> 101%N /\ c <> 69%N end.
Proof. destruct rest; cbn; tauto. Qed.

Lemma parse_int_run ds rest :
  (exists c t, ds = c :: t /\ (49 <= c)%N /\ (c <= 57)%N) ->
  forallb is_digit ds = true ->
  no_digit_next rest ->
  parse_int (ds ++ rest) = Some (ds, rest).
Proof.
  intros (c & t & -> & H1 & H2) Hd Hr. now apply parse_int_digits.
Qed.

Section Body.
Variables (neg : bool) (a : N) (e : Z) (rest : str).
Hypothesis Hpos : (0 < a)%N.
Hypothesis Hmod : (a mod 10 <> 0)%N.
Hypothesis Hrest : number_end rest.

Let d := Str.digits a.
Let k := Z.of_nat (length d).
Let n := (k + e)%Z.
Let v := JNum (if neg then - Z.of_N a else Z.of_N a)%Z e.

Ltac digit_facts :=
  destruct (digits_head a Hpos) as (c & d' & Hd & Hc1 & Hc2);
  destruct (digits_last a) as (di & Hl);
  pose proof (digits_all_digits a) as Hall;
  pose proof (digits_val_digits a) as Hval;
  fold d in Hd, Hl, Hall, Hval;
  assert (Hlast : (48 + a mod 10 <> 48)%N) by lia;
  assert (Hnz : digits_val (di ++ [(48 + a mod 10)%N]) <> 0%Z)
    by (rewrite <- Hl, Hval; lia);
  pose proof (number_end_no_digit _ Hrest) as Hnd;
  pose proof (number_end_frac _ Hrest) as Hnf;
  pose proof (number_end_exp _ Hrest) as Hne;
  assert (Hk : (1 <= k)%Z) by (unfold k; rewrite Hd; cbn [length]; lia).

(** Digits followed by zeros. *)
Lemma parse_integer_form :
  (0 <= e)%Z ->
  parse_unsigned neg ((d ++ repeat 48%N (Z.to_nat e)) ++ rest) = POk v rest.
Proof.
  intros He. digit_facts. unfold parse_unsigned.
  rewrite parse_int_run; [ | | | exact Hnd ].
  - rewrite (parse_frac_none rest Hnf), (parse_exp_none rest Hne).
    rewrite app_nil_r, Hl.
    rewrite (decimal_padded neg 0 di _ (Z.to_nat e) _ Hlast Hnz).
    rewrite <- Hl, Hval. unfold v. do 2 f_equal. cbn [length]. lia.
  - rewrite Hd. cbn [app]. eauto.
  - rewrite forallb_app, Hall. apply forallb_repeat_zero.
Qed.

(** Digits with a decimal point among them. *)
Lemma parse_point_form :
  (0 < n)%Z -> (n < k)%Z ->
  parse_unsigned neg
    ((firstn (Z.to_nat n) d ++ lit "." ++ skipn (Z.to_nat n) d) ++ rest)
  = POk v rest.
Proof.
  intros Hn1 Hn2. digit_facts. unfold parse_unsigned.
  assert (Hsplit : d = firstn (Z.to_nat n) d ++ skipn (Z.to_nat n) d)
    by (now rewrite firstn_skipn).
  assert (Hlen1 : length (firstn (Z.to_nat n) d) = Z.to_nat n)
    by (apply firstn_length_le; unfold k in Hn2; lia).
  assert (Hlen2 : Z.of_nat (length (skipn (Z.to_nat n) d)) = (k - n)%Z)
    by (rewrite length_skipn; unfold k in *; lia).
  assert (Hall' := Hall). rewrite Hsplit, forallb_app in Hall'.
  apply andb_true_iff in Hall' as [Ha1 Ha2].
  rewrite <- app_assoc. change (lit ".") with [46%N]. cbn [app].
  rewrite parse_int_run; [ | | exact Ha1 | reflexivity ].
  - rewrite parse_frac_some; [ | | exact Ha2 | exact Hnd ].
    + rewrite (parse_exp_none rest Hne).
      rewrite <- Hsplit, Hl.
      pose proof (decimal_padded neg 0 di _ 0 (0 - (k - n))%Z Hlast Hnz)
        as Hdec.
      cbn [repeat app] in Hdec. rewrite app_nil_r in Hdec.
      rewrite <- Hl, Hlen2 in *. rewrite Hdec, Hval.
      unfold v. do 2 f_equal. unfold n. lia.
    + intros Hnil. rewrite Hnil in Hlen2. cbn in Hlen2. lia.
  - rewrite Hd. destruct (Z.to_nat n) eqn:Hz; [ lia | ].
    cbn [firstn]. eauto.
Qed.

(** [0.] followed by zeros and the digits. *)
Lemma parse_small_form :
  (n <= 0)%Z ->
  parse_unsigned neg
    ((lit "0." ++ repeat 48%N (Z.to_nat (- n)) ++ d) ++ rest)
  = POk v rest.
Proof.
  intros Hn. digit_facts. unfold parse_unsigned.
  change (lit "0.") with [48%N; 46%N]. cbn [app parse_int N.eqb Pos.eqb].
  rewrite parse_frac_some; [ | | | exact Hnd ].
  - rewrite (parse_exp_none rest Hne). rewrite Hl.
    pose proof (decimal_padded neg (S (Z.to_nat (- n))) di _ 0
                  (0 - Z.of_nat (length (repeat 48%N (Z.to_nat (- n))
                                           ++ di ++ [(48 + a mod 10)%N])))%Z
                  Hlast Hnz) as Hdec.
    cbn [repeat app] in Hdec. rewrite app_nil_r in Hdec.
    rewrite Hdec. rewrite <- Hl, Hval.
    unfold v. do 2 f_equal. rewrite length_app, repeat_length.
    unfold n, k in *. lia.
  - destruct (Z.to_nat (- n)); [ rewrite Hd | ]; discriminate.
  - rewrite forallb_app, Hall, forallb_repeat_zero. reflexivity.
Qed.

(** One digit, the others after a point, and an exponent. *)
Lemma parse_exponent_form :
  parse_unsigned neg
    (match d with
     | [c] =>
         [c] ++ lit "e" ++ (if (n - 1 <? 0)%Z then lit "-" else lit "+")
             ++ Str.digits (Z.to_N (Z.abs (n - 1)))
     | c :: d' =>
         [c] ++ lit "." ++ d' ++ lit "e"
             ++ (if (n - 1 <? 0)%Z then lit "-" else lit "+")
             ++ Str.digits (Z.to_N (Z.abs (n - 1)))
     | [] => []
     end ++ rest)
  = POk v rest.
Proof.
  digit_facts. unfold parse_unsigned. change (lit "e") with [101%N].
  change (lit ".") with [46%N].
  assert (Hdec : decimal neg d (n - 1 - Z.of_nat (length d')) = v).
  { pose proof (decimal_padded neg 0 di _ 0
                  (n - 1 - Z.of_nat (length d'))%Z Hlast Hnz) as Hdec.
    cbn [repeat app] in Hdec. rewrite app_nil_r in Hdec.
    rewrite <- Hl in Hdec. rewrite Hdec, Hval. unfold v.
    do 2 f_equal. unfold n, k. rewrite Hd. cbn [length]. lia. }
  rewrite Hd in *. cbn [forallb] in Hall.
  apply andb_true_iff in Hall as [Hcd Hall].
  assert (Hc48 : (c =? 48)%N = false) by (apply N.eqb_neq; lia).
  destruct d' as [ | c2 d2].
  - rewrite <- !app_assoc.
    rewrite (parse_int_run [c]); [ | eauto | cbn; now rewrite Hcd
                                   | reflexivity ].
    cbn [app]. rewrite parse_frac_none by discriminate.
    rewrite parse_exp_some by exact Hnd.
    cbn [app length] in *. now rewrite Hdec.
  - rewrite <- !app_assoc.
    rewrite (parse_int_run [c]); [ | eauto | cbn; now rewrite Hcd
                                   | reflexivity ].
    rewrite parse_frac_some_app;
      [ | discriminate | exact Hall | reflexivity ].
    cbn [app]. rewrite parse_exp_some by exact Hnd.
    now rewrite Hdec.
Qed.

Lemma parse_unsigned_body :
  parse_unsigned neg (number_body d e ++ rest) = POk v rest.
Proof.
  unfold number_body. fold k. fold n.
  destruct (Z.leb_spec k n) as [H1 | H1];
    destruct (Z.leb_spec n 21) as [H2 | H2];
    destruct (Z.ltb_spec 0 n) as [H3 | H3];
    destruct (Z.ltb_spec (-6) n) as [H4 | H4];
    destruct (Z.leb_spec n 0) as [H5 | H5];
    cbn [andb]; try lia;
    try apply parse_exponent_form;
    try (apply parse_point_form; lia);
    try (apply parse_small_form; lia).
  all: replace (n - k)%Z with e by (unfold n; lia);
    apply parse_integer_form; unfold n in *; lia.
Qed.
End Body.

(** A number is normalised when it is zero with exponent zero, or its
    mantissa is not a multiple of ten. *)
Definition normal (m e : Z) : Prop :=
  (m = 0 /\ e = 0)%Z \/ (m mod 10 <> 0)%Z.

Lemma number_body_head a e :
  (0 < a)%N ->
  exists c t, number_body (Str.digits a) e = c :: t /\ c <> 45%N.
Proof.
  intros Hpos. destruct (digits_head a Hpos) as (c & d' & Hd & Hc1 & Hc2).
  assert (Hc : c <> 45%N) by lia.
  unfold number_body. rewrite Hd.
  set (k := Z.of_nat (length (c :: d'))).
  destruct ((k <=? k + e) && (k + e <=? 21))%Z.
  { eexists _, _. split; [ reflexivity | exact Hc ]. }
  destruct ((0 <? k + e) && (k + e <=? 21))%Z.
  { destruct (Z.to_nat (k + e)) eqn:Hz; cbn; eexists _, _;
      (split; [ reflexivity | ]); [ discriminate | exact Hc ]. }
  destruct ((-6 <? k + e) && (k + e <=? 0))%Z.
  { cbn. eexists _, _. split; [ reflexivity | discriminate ]. }
  destruct d'; cbn; eexists _, _; (split; [ reflexivity | exact Hc ]).
Qed.

(** A number printed by [number_to_string] is read back by
    [parse_number]. *)
Lemma parse_number_to_string m e rest :
  normal m e ->
  number_end rest ->
  parse_number (number_to_string m e ++ rest) = POk (JNum m e) rest.
Proof.
  intros Hn Hrest. unfold number_to_string.
  destruct (Z.eqb_spec m 0) as [-> | Hm].
  - destruct Hn as [[_ ->] | Hn]; [ | now cbn in Hn ].
    change (lit "0") with [48%N]. cbn [app parse_number N.eqb Pos.eqb].
    unfold parse_unsigned. cbn [parse_int N.eqb Pos.eqb].
    rewrite (parse_frac_none rest (number_end_frac _ Hrest)).
    rewrite (parse_exp_none rest (number_end_exp _ Hrest)).
    reflexivity.
  - destruct Hn as [[-> _] | Hn]; [ contradiction | ].
    set (a := Z.to_N (Z.abs m)).
    assert (Hpos : (0 < a)%N) by (unfold a; lia).
    assert (Hmod : (a mod 10 <> 0)%N).
    { unfold a. intros H. apply Hn.
      assert (Hz : (Z.abs m mod 10 = 0)%Z).
      { rewrite <- (Z2N.id (Z.abs m)) by lia.
        change 10%Z with (Z.of_N 10). rewrite <- N2Z.inj_mod. now rewrite H. }
      destruct (Z.abs_spec m) as [[_ Ha] | [_ Ha]]; rewrite Ha in Hz.
      - exact Hz.
      - apply Z.mod_divide in Hz; [ | lia ]. apply Z.mod_divide; [ lia | ].
        destruct Hz as [q Hq]. exists (- q)%Z. lia. }
    destruct (Z.ltb_spec m 0) as [Hneg | Hnn].
    + change (lit "-") with [45%N]. rewrite <- app_assoc.
      cbn [app parse_number N.eqb Pos.eqb].
      rewrite (parse_unsigned_body true a e rest Hpos Hmod Hrest).
      do 2 f_equal. unfold a. lia.
    + destruct (number_body_head a e Hpos) as (c & t & Hb & Hc).
      rewrite Hb. cbn [app parse_number].
      destruct (N.eqb_spec c 45) as [-> | _]; [ contradiction | ].
      change (c :: t ++ rest) with ((c :: t) ++ rest). rewrite <- Hb.
      rewrite (parse_unsigned_body false a e rest Hpos Hmod Hrest).
      do 2 f_equal. unfold a. lia.
Qed.

(** ** Strings: [parse_chars] after [quote_chars] *)

Lemma hex_val_digit x : (x < 16)%N -> hex_val (hex_digit x) = Some x.
Proof.
  intros H. unfold hex_digit, hex_val.
  destruct (N.ltb_spec x 10) as [Hx | Hx].
  - destruct (N.leb_spec 48 (48 + x)); [ | lia ].
    destruct (N.leb_spec (48 + x) 57); [ | lia ].
    cbn [andb]. f_equal. lia.
  - destruct (N.leb_spec 48 (87 + x)); [ | lia ].
    destruct (N.leb_spec (87 + x) 57); [ lia | ].
    cbn [andb].
    destruct (N.leb_spec 97 (87 + x)); [ | lia ].
    destruct (N.leb_spec (87 + x) 102); [ | lia ].
    cbn [andb]. f_equal. lia.
Qed.

Lemma hex_recompose c :
  (c < 65536)%N ->
  (c / 4096 mod 16 * 4096 + c / 256 mod 16 * 256 + c / 16 mod 16 * 16
   + c mod 16 = c)%N.
Proof.
  intros H.
  pose proof (N.div_mod c 16). pose proof (N.div_mod (c / 16) 16).
  pose proof (N.div_mod (c / 16 / 16) 16).
  rewrite !N.Div0.div_div in *.
  change (16 * 16)%N with 256%N in *. change (256 * 16)%N with 4096%N in *.
  assert (c / 4096 < 16)%N by (apply N.Div0.div_lt_upper_bound; lia).
  rewrite (N.mod_small (c / 4096) 16) by assumption.
  lia.
Qed.

Lemma parse_chars_escape c rest acc :
  (c < 65536)%N ->
  parse_chars (unicode_escape c ++ rest) acc = parse_chars rest (c :: acc).
Proof.
  intros H. unfold unicode_escape. cbn [app parse_chars N.eqb N.ltb N.compare
    Pos.eqb Pos.compare Pos.compare_cont].
  rewrite !hex_val_digit by (apply N.mod_upper_bound; lia).
  now rewrite hex_recompose.
Qed.

(** One code unit, printed and read back. *)
Lemma parse_chars_unit c rest acc :
  parse_chars (quote_unit c ++ rest) acc = parse_chars rest (c :: acc).
Proof.
  unfold quote_unit.
  destruct (N.eqb_spec c 8) as [-> | H8]; [ reflexivity | ].
  destruct (N.eqb_spec c 9) as [-> | H9]; [ reflexivity | ].
  destruct (N.eqb_spec c 10) as [-> | H10]; [ reflexivity | ].
  destruct (N.eqb_spec c 12) as [-> | H12]; [ reflexivity | ].
  destruct (N.eqb_spec c 13) as [-> | H13]; [ reflexivity | ].
  destruct (N.eqb_spec c 34) as [-> | H34]; [ reflexivity | ].
  destruct (N.eqb_spec c 92) as [-> | H92]; [ reflexivity | ].
  destruct (N.ltb_spec c 32) as [H32 | H32].
  { apply parse_chars_escape. lia. }
  destruct (is_lead c || is_trail c) eqn:Hs.
  { apply parse_chars_escape. unfold is_lead, is_trail in Hs.
    apply orb_true_iff in Hs as [Hs | Hs];
      apply andb_true_iff in Hs as [_ Hs]; apply N.leb_le in Hs; lia. }
  cbn [app parse_chars].
  destruct (N.eqb_spec c 34); [ contradiction | ].
  destruct (N.ltb_spec c 32); [ lia | ].
  destruct (N.eqb_spec c 92); [ contradiction | ].
  reflexivity.
Qed.

Lemma parse_chars_raw c rest acc :
  (128 <= c)%N ->
  parse_chars (c :: rest) acc = parse_chars rest (c :: acc).
Proof.
  intros H. cbn [parse_chars].
  destruct (N.eqb_spec c 34); [ lia | ].
  destruct (N.ltb_spec c 32); [ lia | ].
  destruct (N.eqb_spec c 92); [ lia | ].
  reflexivity.
Qed.

Lemma parse_chars_quoted_len n : forall s rest acc,
  (length s <= n)%nat ->
  parse_chars (quote_chars s ++ 34%N :: rest) acc = POk (rev acc ++ s) rest.
Proof.
  induction n as [ | n IH]; intros s rest acc Hlen.
  - destruct s; [ | cbn in Hlen; lia ]. cbn. now rewrite app_nil_r.
  - destruct s as [ | c s]; [ cbn; now rewrite app_nil_r | ].
    cbn [length] in Hlen. cbn [quote_chars].
    destruct (is_lead c) eqn:Hlead.
    + destruct s as [ | d s].
      * rewrite parse_chars_unit. reflexivity.
      * destruct (is_trail d) eqn:Htrail.
        -- cbn [app]. unfold is_lead, is_trail in *.
           apply andb_true_iff in Hlead as [Hl1 _].
           apply andb_true_iff in Htrail as [Ht1 _].
           apply N.leb_le in Hl1, Ht1.
           rewrite !parse_chars_raw by lia.
           rewrite IH by (cbn [length] in Hlen; lia).
           cbn [rev]. now rewrite <- !app_assoc.
        -- rewrite <- app_assoc, parse_chars_unit.
           rewrite IH by lia. cbn [rev]. now rewrite <- app_assoc.
    + rewrite <- app_assoc, parse_chars_unit.
      rewrite IH by lia. cbn [rev]. now rewrite <- app_assoc.
Qed.

(** A string printed by [quote] is read back by [parse_chars]. *)
Lemma parse_chars_quoted s rest :
  parse_chars (quote_chars s ++ 34%N :: rest) [] = POk s rest.
Proof. exact (parse_chars_quoted_len (length s) s rest [] (le_n _)). Qed.

(** ** Values: [parse] after [stringify] *)

(** Well-formed values: numbers are normalised and no object has two
    properties of the same name. *)
Fixpoint wf (v : json) : Prop :=
  match v with
  | JNum m e => normal m e
  | JArr l => fold_right (fun x acc => wf x /\ acc) True l
  | JObj l =>
      NoDup (map fst l)
      /\ fold_right (fun kv acc => wf (snd kv) /\ acc) True l
  | _ => True
  end.

(** The number of nodes of a value, counting every element and member
    twice; the fuel [parse_value] needs is bounded by it. *)
Fixpoint weight (v : json) : nat :=
  match v with
  | JArr l => S (fold_right (fun x acc => S (weight x + acc)) 0 l)
  | JObj l => S (fold_right (fun kv acc => S (weight (snd kv) + acc)) 0 l)
  | _ => 1
  end.

Definition weight_elements (l : list json) : nat :=
  fold_right (fun x acc => S (weight x + acc)) 0 l.

Definition weight_members (l : list (str * json)) : nat :=
  fold_right (fun kv acc => S (weight (snd kv) + acc)) 0 l.

Definition all_ws (s : str) : Prop := forallb is_ws s = true.

(** What may follow a value in the output of [serialize]. *)
Definition delimited (rest : str) : Prop :=
  match rest with
  | [] => True
  | c :: _ => c = 44%N \/ c = 10%N \/ c = 93%N \/ c = 125%N
  end.

(** The line break and indentation [serialize] puts between the parts of
    an array or object when there is a gap. *)
Definition pad (gap indent : str) : str :=
  match gap with
  | [] => []
  | _ :: _ => nl ++ indent
  end.

Lemma wrap_pad open close gap indent part parts :
  wrap open close gap indent (part :: parts) =
  open ++ pad gap (indent ++ gap)
       ++ join (lit "," ++ pad gap (indent ++ gap)) (part :: parts)
       ++ pad gap indent ++ close.
Proof.
  unfold wrap, pad. destruct gap as [ | g gap].
  - cbn [app]. now rewrite !app_nil_r.
  - now rewrite <- !app_assoc.
Qed.

Lemma all_ws_app a b : all_ws a -> all_ws b -> all_ws (a ++ b).
Proof. unfold all_ws. intros Ha Hb. now rewrite forallb_app, Ha, Hb. Qed.

Lemma all_ws_pad gap indent : all_ws gap -> all_ws indent -> all_ws (pad gap indent).
Proof.
  intros Hg Hi. unfold pad. destruct gap; [ reflexivity | ].
  apply all_ws_app; [ reflexivity | assumption ].
Qed.

Lemma skip_ws_app ws s : all_ws ws -> skip_ws (ws ++ s) = skip_ws s.
Proof.
  unfold all_ws. induction ws as [ | c ws IH]; [ reflexivity | ].
  cbn [forallb app skip_ws]. intros H. apply andb_true_iff in H as [Hc H].
  rewrite Hc. now apply IH.
Qed.

Lemma skip_ws_head c s : is_ws c = false -> skip_ws (c :: s) = c :: s.
Proof. intros H. cbn [skip_ws]. now rewrite H. Qed.

Lemma delimited_number_end rest : delimited rest -> number_end rest.
Proof.
  destruct rest as [ | c rest]; [ easy | ]. cbn.
  intros [-> | [-> | [-> | ->]]]; repeat split; discriminate.
Qed.

Lemma delimited_pad gap indent c rest :
  (c = 93%N \/ c = 125%N) -> delimited (pad gap indent ++ c :: rest).
Proof.
  intros H. unfold pad. destruct gap; cbn; tauto.
Qed.

Lemma number_body_digit a e :
  (0 < a)%N ->
  exists c t, number_body (Str.digits a) e = c :: t /\ is_digit c = true.
Proof.
  intros Hpos. destruct (digits_head a Hpos) as (c & d' & Hd & Hc1 & Hc2).
  assert (Hc : is_digit c = true).
  { unfold is_digit. apply andb_true_iff. split; apply N.leb_le; lia. }
  unfold number_body. rewrite Hd.
  set (k := Z.of_nat (length (c :: d'))).
  destruct ((k <=? k + e) && (k + e <=? 21))%Z.
  { eexists _, _. split; [ reflexivity | exact Hc ]. }
  destruct (Z.ltb_spec 0 (k + e)) as [Hn | Hn]; cbn [andb].
  { destruct (k + e <=? 21)%Z.
    - destruct (Z.to_nat (k + e)) eqn:Hz; [ lia | ].
      cbn. eexists _, _. split; [ reflexivity | exact Hc ].
    - destruct ((-6 <? k + e) && (k + e <=? 0))%Z.
      + cbn. eexists _, _. split; reflexivity.
      + destruct d'; cbn; eexists _, _; (split; [ reflexivity | exact Hc ]). }
  destruct ((-6 <? k + e) && (k + e <=? 0))%Z.
  { cbn. eexists _, _. split; reflexivity. }
  destruct d'; cbn; eexists _, _; (split; [ reflexivity | exact Hc ]).
Qed.

(** The first character of a printed number is a digit or the sign. *)
Lemma number_to_string_head m e :
  exists c t,
    number_to_string m e = c :: t /\ (c = 45%N \/ is_digit c = true).
Proof.
  unfold number_to_string. destruct (Z.eqb_spec m 0) as [-> | Hm].
  - eexists _, _. split; [ reflexivity | right; reflexivity ].
  - destruct (m <? 0)%Z.
    + eexists _, _. split; [ reflexivity | left; reflexivity ].
    + destruct (number_body_digit (Z.to_N (Z.abs m)) e) as (c & t & -> & Hc);
        [ lia | ].
      eexists _, _. split; [ reflexivity | now right ].
Qed.

(** With a digit or a sign in front, [parse_value] reads a number. *)
Lemma parse_value_number fuel c r :
  (c = 45%N \/ is_digit c = true) ->
  parse_value (S fuel) (c :: r) = parse_number (c :: r).
Proof.
  intros Hc.
  assert (Hb : (45 <= c)%N /\ (c <= 57)%N).
  { destruct Hc as [-> | Hc]; [ lia | ]. unfold is_digit in Hc.
    apply andb_true_iff in Hc as [H1 H2]. apply N.leb_le in H1, H2. lia. }
  cbn [parse_value].
  assert (Hws : is_ws c = false).
  { unfold is_ws.
    destruct (N.eqb_spec c 32); [ lia | ]. destruct (N.eqb_spec c 9); [ lia | ].
    destruct (N.eqb_spec c 10); [ lia | ].
    destruct (N.eqb_spec c 13); [ lia | ]. reflexivity. }
  rewrite (skip_ws_head c r Hws).
  destruct (N.eqb_spec c 123); [ lia | ].
  destruct (N.eqb_spec c 91); [ lia | ].
  destruct (N.eqb_spec c 34); [ lia | ].
  change (lit "true") with [116; 114; 117; 101]%N.
  change (lit "false") with [102; 97; 108; 115; 101]%N.
  change (lit "null") with [110; 117; 108; 108]%N.
  cbn [strip_prefix].
  destruct (N.eqb_spec 116 c); [ lia | ].
  destruct (N.eqb_spec 102 c); [ lia | ].
  destruct (N.eqb_spec 110 c); [ lia | ].
  reflexivity.
Qed.

(** The first character of a printed value. *)
Lemma serialize_head gap indent v :
  exists c t,
    serialize gap indent v = c :: t
    /\ is_ws c = false /\ c <> 93%N /\ c <> 125%N.
Proof.
  destruct v as [ | [ | ] | m e | s | l | l]; cbn [serialize];
    try (eexists _, _; split; [ reflexivity | ];
         repeat split; discriminate).
  - destruct (number_to_string_head m e) as (c & t & -> & Hc).
    eexists _, _. split; [ reflexivity | ].
    assert (Hb : (45 <= c)%N /\ (c <= 57)%N).
    { destruct Hc as [-> | Hc]; [ lia | ]. unfold is_digit in Hc.
      apply andb_true_iff in Hc as [H1 H2]. apply N.leb_le in H1, H2. lia. }
    unfold is_ws.
    destruct (N.eqb_spec c 32); [ lia | ]. destruct (N.eqb_spec c 9); [ lia | ].
    destruct (N.eqb_spec c 10); [ lia | ].
    destruct (N.eqb_spec c 13); [ lia | ]. repeat split; lia.
  - destruct l as [ | x l].
    + eexists _, _; split; [ reflexivity | ]. repeat split; discriminate.
    + cbn [map]. rewrite wrap_pad.
      eexists _, _; split; [ reflexivity | ]. repeat split; discriminate.
  - destruct l as [ | x l].
    + eexists _, _; split; [ reflexivity | ]. repeat split; discriminate.
    + cbn [map]. rewrite wrap_pad.
      eexists _, _; split; [ reflexivity | ]. repeat split; discriminate.
Qed.

Lemma join_cons sep x y l :
  join sep (x :: y :: l) = x ++ sep ++ join sep (y :: l).
Proof. reflexivity. Qed.

Lemma set_prop_fresh k v acc :
  ~ In k (map fst acc) -> set_prop k v acc = acc ++ [(k, v)].
Proof.
  induction acc as [ | [k' v'] acc IH]; [ reflexivity | ].
  cbn [map fst In set_prop app]. intros H.
  destruct (Str.eqb k k') eqn:He.
  - apply str_eqb_eq in He. subst. tauto.
  - rewrite IH by tauto. reflexivity.
Qed.

(** What the round trip of a value says, for use as an induction
    hypothesis on the parts of arrays and objects. *)
Definition reads_back (gap : str) (v : json) : Prop :=
  forall indent ws rest fuel,
    all_ws indent -> all_ws ws -> delimited rest ->
    (weight v <= fuel)%nat ->
    parse_value fuel (ws ++ serialize gap indent v ++ rest) = POk v rest.

Section Parts.
Variables gap inner outer : str.
Hypothesis Hgap : all_ws gap.
Hypothesis Hinner : all_ws inner.
Hypothesis Houter : all_ws outer.

Let sep := lit "," ++ pad gap inner.

(** The elements of an array from some element on. *)
Lemma elements_read_back l : forall acc ws rest fuel,
  l <> [] ->
  Forall (reads_back gap) l ->
  all_ws ws ->
  (weight_elements l <= fuel)%nat ->
  parse_elements fuel
    (ws ++ join sep (map (serialize gap inner) l)
        ++ pad gap outer ++ 93%N :: rest) acc
  = POk (JArr (rev acc ++ l)) rest.
Proof.
  induction l as [ | x l IH]; intros acc ws rest fuel Hne Hall Hws Hfuel;
    [ contradiction | ].
  inversion Hall as [ | ? ? Hx Hl]; subst.
  cbn [weight_elements fold_right] in Hfuel.
  destruct fuel as [ | f]; [ lia | ].
  fold (weight_elements l) in Hfuel.
  cbn [parse_elements]. destruct l as [ | y l].
  - cbn [map join].
    rewrite (Hx inner ws _ f Hinner Hws
               (delimited_pad gap outer 93 rest (or_introl eq_refl)))
      by lia.
    rewrite skip_ws_app by (now apply all_ws_pad).
    cbn [skip_ws is_ws N.eqb Pos.eqb orb].
    cbn [rev]. reflexivity.
  - cbn [map]. rewrite join_cons. unfold sep at 1.
    change (lit ",") with [44%N]. rewrite <- !app_assoc. cbn [app].
    rewrite (Hx inner ws _ f Hinner Hws) by (cbn; tauto || lia).
    cbn [skip_ws is_ws N.eqb Pos.eqb orb].
    change (serialize gap inner y :: map (serialize gap inner) l) with
      (map (serialize gap inner) (y :: l)).
    rewrite (IH (x :: acc) (pad gap inner) rest f);
      [ | discriminate | assumption | now apply all_ws_pad | lia ].
    cbn [rev]. now rewrite <- app_assoc.
Qed.
End Parts.

(** The text of a member. *)
Definition member (gap inner : str) (kv : str * json) : str :=
  quote (fst kv) ++ colon gap ++ serialize gap inner (snd kv).

Lemma colon_split gap :
  exists sp, colon gap = 58%N :: sp /\ all_ws sp.
Proof.
  destruct gap; [ exists [] | exists [32%N] ]; split; reflexivity.
Qed.

(** Reading one member, up to the value. *)
Lemma member_step gap inner f ws k v tail acc :
  all_ws ws ->
  (forall sp, all_ws sp ->
     parse_value f (sp ++ serialize gap inner v ++ tail) = POk v tail) ->
  parse_members (S f) (ws ++ member gap inner (k, v) ++ tail) acc =
  match skip_ws tail with
  | d :: r =>
      if (d =? 44)%N then parse_members f r (set_prop k v acc)
      else if (d =? 125)%N then POk (JObj (set_prop k v acc)) r
      else PErr
  | [] => PErr
  end.
Proof.
  intros Hws Hv. destruct (colon_split gap) as (sp & Hc & Hsp).
  unfold member, quote. cbn [fst snd]. rewrite Hc.
  rewrite <- !app_assoc. cbn [app parse_members].
  rewrite skip_ws_app by assumption.
  cbn [skip_ws is_ws N.eqb Pos.eqb orb].
  rewrite parse_chars_quoted.
  cbn [skip_ws is_ws N.eqb Pos.eqb orb].
  rewrite (Hv sp Hsp). reflexivity.
Qed.

Section Members.
Variables gap inner outer : str.
Hypothesis Hgap : all_ws gap.
Hypothesis Hinner : all_ws inner.
Hypothesis Houter : all_ws outer.

Let sep := lit "," ++ pad gap inner.

(** The members of an object from some member on. *)
Lemma members_read_back l : forall acc ws rest fuel,
  l <> [] ->
  Forall (fun kv => reads_back gap (snd kv)) l ->
  NoDup (map fst (acc ++ l)) ->
  all_ws ws ->
  (weight_members l <= fuel)%nat ->
  parse_members fuel
    (ws ++ join sep (map (member gap inner) l)
        ++ pad gap outer ++ 125%N :: rest) acc
  = POk (JObj (acc ++ l)) rest.
Proof.
  induction l as [ | [k v] l IH];
    intros acc ws rest fuel Hne Hall Hnd Hws Hfuel; [ contradiction | ].
  inversion Hall as [ | ? ? Hx Hl]; subst. cbn [snd] in Hx.
  cbn [weight_members fold_right snd] in Hfuel.
  destruct fuel as [ | f]; [ lia | ].
  fold (weight_members l) in Hfuel.
  assert (Hfresh : ~ In k (map fst acc)).
  { rewrite map_app in Hnd. apply NoDup_remove_2 in Hnd.
    intros Hin. apply Hnd. apply in_or_app. now left. }
  destruct l as [ | y l].
  - cbn [map join].
    rewrite member_step; [ | assumption | ].
    + rewrite skip_ws_app by (now apply all_ws_pad).
      cbn [skip_ws is_ws N.eqb Pos.eqb orb].
      now rewrite (set_prop_fresh k v acc Hfresh).
    + intros sp Hsp. apply Hx; try assumption; [ | lia ].
      apply delimited_pad. now right.
  - cbn [map]. rewrite join_cons. unfold sep at 1.
    change (lit ",") with [44%N]. rewrite <- !app_assoc. cbn [app].
    rewrite member_step; [ | assumption | ].
    + cbn [skip_ws is_ws N.eqb Pos.eqb orb].
      change (member gap inner y :: map (member gap inner) l) with
        (map (member gap inner) (y :: l)).
      rewrite (IH (set_prop k v acc) (pad gap inner) rest f);
        [ | discriminate | assumption | | now apply all_ws_pad | lia ].
      * rewrite (set_prop_fresh k v acc Hfresh), <- app_assoc.
        reflexivity.
      * rewrite (set_prop_fresh k v acc Hfresh), <- app_assoc.
        exact Hnd.
    + intros sp Hsp. apply Hx; try assumption; [ | lia ].
      cbn. tauto.
Qed.
End Members.

Lemma weight_element x l :
  In x l -> (weight x < weight (JArr l))%nat.
Proof.
  cbn [weight]. induction l as [ | y l IH]; [ contradiction | ].
  cbn [fold_right In]. intros [-> | H]; [ lia | ].
  specialize (IH H). lia.
Qed.

Lemma weight_member kv l :
  In kv l -> (weight (snd kv) < weight (JObj l))%nat.
Proof.
  cbn [weight]. induction l as [ | y l IH]; [ contradiction | ].
  cbn [fold_right In]. intros [-> | H]; [ lia | ].
  specialize (IH H). lia.
Qed.

Lemma wf_element x l : wf (JArr l) -> In x l -> wf x.
Proof.
  cbn [wf]. induction l as [ | y l IH]; [ contradiction | ].
  cbn [fold_right In]. intros [Hy Hl] [-> | H]; [ assumption | ].
  now apply IH.
Qed.

Lemma wf_member kv l : wf (JObj l) -> In kv l -> wf (snd kv).
Proof.
  cbn [wf]. intros [_ Hl]. induction l as [ | y l IH]; [ contradiction | ].
  cbn [fold_right In] in *. destruct Hl as [Hy Hl].
  intros [-> | H]; [ assumption | ]. now apply IH.
Qed.

Lemma wf_nodup l : wf (JObj l) -> NoDup (map fst l).
Proof. cbn [wf]. tauto. Qed.

(** Every well-formed value is read back, whatever surrounds it. *)
Lemma value_reads_back gap :
  all_ws gap -> forall n v, (weight v <= n)%nat -> wf v -> reads_back gap v.
Proof.
  intros Hgap. induction n as [ | n IH]; intros v Hn Hwf.
  { destruct v; cbn in Hn; lia. }
  intros indent ws rest fuel Hind Hws Hrest Hfuel.
  destruct fuel as [ | f]; [ destruct v; cbn in Hfuel; lia | ].
  destruct v as [ | [ | ] | m e | s | l | l]; cbn [serialize].
  - cbn [parse_value]. rewrite skip_ws_app by assumption. reflexivity.
  - cbn [parse_value]. rewrite skip_ws_app by assumption. reflexivity.
  - cbn [parse_value]. rewrite skip_ws_app by assumption. reflexivity.
  - destruct (number_to_string_head m e) as (c & t & Hs & Hc).
    assert (Hskip : forall fuel' s,
               parse_value (S fuel') (ws ++ s) = parse_value (S fuel') s).
    { intros fuel' s. cbn [parse_value]. rewrite skip_ws_app by assumption.
      reflexivity. }
    rewrite Hskip, Hs. cbn [app]. rewrite parse_value_number by exact Hc.
    change (c :: t ++ rest) with ((c :: t) ++ rest). rewrite <- Hs.
    apply parse_number_to_string; [ exact Hwf | ].
    now apply delimited_number_end.
  - cbn [parse_value]. rewrite skip_ws_app by assumption.
    unfold quote. rewrite <- !app_assoc. cbn [app skip_ws is_ws N.eqb Pos.eqb orb].
    now rewrite parse_chars_quoted.
  - cbn [parse_value]. rewrite skip_ws_app by assumption.
    destruct l as [ | x l]; [ reflexivity | ].
    cbn [map]. rewrite wrap_pad. change (lit "[") with [91%N].
    change (lit "]") with [93%N].
    rewrite <- !app_assoc. cbn [app skip_ws is_ws N.eqb Pos.eqb orb].
    assert (Hpad : all_ws (pad gap (indent ++ gap)))
      by (apply all_ws_pad; [ | apply all_ws_app ]; assumption).
    rewrite skip_ws_app by exact Hpad.
    change (serialize gap (indent ++ gap) x
              :: map (serialize gap (indent ++ gap)) l)
      with (map (serialize gap (indent ++ gap)) (x :: l)).
    assert (Hall : Forall (reads_back gap) (x :: l)).
    { apply Forall_forall. intros y Hy. apply IH.
      - pose proof (weight_element y (x :: l) Hy). lia.
      - exact (wf_element y (x :: l) Hwf Hy). }
    pose proof (elements_read_back gap (indent ++ gap) indent Hgap
                  (all_ws_app _ _ Hind Hgap) Hind (x :: l) [] [] rest f)
      as Hel.
    cbn [app rev] in Hel.
    assert (Hw : (weight_elements (x :: l) <= f)%nat)
      by (cbn [weight] in Hfuel; unfold weight_elements; lia).
    specialize (Hel ltac:(discriminate) Hall eq_refl Hw).
    destruct (serialize_head gap (indent ++ gap) x)
      as (c & t & Hs & Hc1 & Hc2 & _).
    destruct l as [ | y l].
    + cbn [map join] in Hel |- *. rewrite Hs in Hel |- *.
      cbn [app] in Hel |- *. rewrite (skip_ws_head c _ Hc1).
      destruct (N.eqb_spec c 93); [ contradiction | ]. exact Hel.
    + cbn [map] in Hel |- *. rewrite join_cons in Hel |- *.
      rewrite Hs in Hel |- *. rewrite <- !app_assoc in Hel |- *.
      cbn [app] in Hel |- *. rewrite (skip_ws_head c _ Hc1).
      destruct (N.eqb_spec c 93); [ contradiction | ]. exact Hel.
  - cbn [parse_value]. rewrite skip_ws_app by assumption.
    destruct l as [ | [k x] l]; [ reflexivity | ].
    change (fun kv : str * json =>
              quote (fst kv) ++ colon gap
                    ++ serialize gap (indent ++ gap) (snd kv))
      with (member gap (indent ++ gap)).
    cbn [map]. rewrite wrap_pad. change (lit "{") with [123%N].
    change (lit "}") with [125%N].
    rewrite <- !app_assoc. cbn [app skip_ws is_ws N.eqb Pos.eqb orb].
    assert (Hpad : all_ws (pad gap (indent ++ gap)))
      by (apply all_ws_pad; [ | apply all_ws_app ]; assumption).
    rewrite skip_ws_app by exact Hpad.
    assert (Hall : Forall (fun kv => reads_back gap (snd kv)) ((k, x) :: l)).
    { apply Forall_forall. intros y Hy. apply IH.
      - pose proof (weight_member y ((k, x) :: l) Hy). lia.
      - exact (wf_member y ((k, x) :: l) Hwf Hy). }
    pose proof (members_read_back gap (indent ++ gap) indent Hgap
                  (all_ws_app _ _ Hind Hgap) Hind ((k, x) :: l) [] [] rest f)
      as Hel.
    cbn [app] in Hel.
    assert (Hw : (weight_members ((k, x) :: l) <= f)%nat)
      by (cbn [weight] in Hfuel; unfold weight_members; lia).
    specialize (Hel ltac:(discriminate) Hall (wf_nodup _ Hwf) eq_refl Hw).
    cbn [map] in Hel.
    assert (Hhead : exists t,
               member gap (indent ++ gap) (k, x) = 34%N :: t)
      by (eexists; reflexivity).
    destruct Hhead as (t & Hs).
    destruct l as [ | y l].
    + cbn [map join] in Hel |- *. rewrite Hs in Hel |- *.
      cbn [app skip_ws is_ws N.eqb Pos.eqb orb] in Hel |- *. exact Hel.
    + cbn [map] in Hel |- *. rewrite join_cons in Hel |- *.
      rewrite Hs in Hel |- *. rewrite <- !app_assoc in Hel |- *.
      cbn [app skip_ws is_ws N.eqb Pos.eqb orb] in Hel |- *. exact Hel.
Qed.

Lemma elements_length (A : Type) (w : A -> nat) (ser : A -> str) sep l :
  (1 <= length sep)%nat ->
  Forall (fun x => (w x <= length (ser x))%nat) l ->
  (fold_right (fun x acc => S (w x + acc)) 0 l
   <= length (join sep (map ser l)) + 1)%nat.
Proof.
  intros Hsep. induction l as [ | x l IH]; intros Hall; [ cbn; lia | ].
  inversion Hall as [ | ? ? Hx Hl]; subst. specialize (IH Hl).
  destruct l as [ | y l].
  - cbn. lia.
  - cbn [map] in *. rewrite join_cons, !length_app.
    cbn [fold_right] in *. lia.
Qed.

(** A value has at most as many nodes as its text has characters. *)
Lemma weight_length gap n : forall v indent,
  (weight v <= n)%nat -> (weight v <= length (serialize gap indent v))%nat.
Proof.
  induction n as [ | n IH]; intros v indent Hn.
  { destruct v; cbn in Hn; lia. }
  destruct v as [ | [ | ] | m e | s | l | l]; cbn [serialize weight];
    try (cbn; lia).
  - destruct (number_to_string_head m e) as (c & t & -> & _). cbn. lia.
  - destruct l as [ | x l]; [ cbn; lia | ].
    cbn [map]. rewrite wrap_pad, !length_app.
    change (serialize gap (indent ++ gap) x
              :: map (serialize gap (indent ++ gap)) l)
      with (map (serialize gap (indent ++ gap)) (x :: l)).
    pose proof (elements_length json weight (serialize gap (indent ++ gap))
                  (lit "," ++ pad gap (indent ++ gap)) (x :: l)) as H.
    cbn [length] in *. rewrite length_app in H.
    assert (Hall : Forall (fun x0 => (weight x0
                     <= length (serialize gap (indent ++ gap) x0))%nat)
                     (x :: l)).
    { apply Forall_forall. intros y Hy. apply IH.
      pose proof (weight_element y (x :: l) Hy). lia. }
    specialize (H ltac:(cbn; lia) Hall). cbn [length] in H.
    change (length (lit "[")) with 1%nat. change (length (lit "]")) with 1%nat.
    change (length (lit "{")) with 1%nat. change (length (lit "}")) with 1%nat.
    lia.
  - destruct l as [ | x l]; [ cbn; lia | ].
    change (fun kv : str * json =>
              quote (fst kv) ++ colon gap
                    ++ serialize gap (indent ++ gap) (snd kv))
      with (member gap (indent ++ gap)).
    cbn [map]. rewrite wrap_pad, !length_app.
    change (member gap (indent ++ gap) x
              :: map (member gap (indent ++ gap)) l)
      with (map (member gap (indent ++ gap)) (x :: l)).
    pose proof (elements_length (str * json) (fun kv => weight (snd kv))
                  (member gap (indent ++ gap))
                  (lit "," ++ pad gap (indent ++ gap)) (x :: l)) as H.
    cbn [length] in *. rewrite length_app in H.
    assert (Hall : Forall (fun kv => (weight (snd kv)
                     <= length (member gap (indent ++ gap) kv))%nat)
                     (x :: l)).
    { apply Forall_forall. intros y Hy. unfold member.
      rewrite !length_app.
      assert (weight (snd y)
              <= length (serialize gap (indent ++ gap) (snd y)))%nat.
      { apply IH. pose proof (weight_member y (x :: l) Hy). lia. }
      lia. }
    specialize (H ltac:(cbn; lia) Hall). cbn [length] in H.
    change (length (lit "[")) with 1%nat. change (length (lit "]")) with 1%nat.
    change (length (lit "{")) with 1%nat. change (length (lit "}")) with 1%nat.
    lia.
Qed.

(** [JSON.parse] reads back what [JSON.stringify] printed, at any
    indentation. *)
Theorem parse_serialize gap v :
  all_ws gap -> wf v -> parse (serialize gap [] v) = Some v.
Proof.
  intros Hgap Hwf. unfold parse.
  pose proof (value_reads_back gap Hgap (weight v) v (le_n _) Hwf
                [] [] [] (2 * length (serialize gap [] v) + 2)
                eq_refl eq_refl I) as H.
  cbn [app] in H. rewrite app_nil_r in H. rewrite H; [ reflexivity | ].
  pose proof (weight_length gap (weight v) v [] (le_n _)). lia.
Qed.

Lemma all_ws_spaces n : all_ws (repeat 32%N n).
Proof. induction n; [ reflexivity | exact IHn ]. Qed.

Corollary parse_stringify v : wf v -> parse (stringify v) = Some v.
Proof. apply (parse_serialize []). reflexivity. Qed.

Corollary parse_stringify_indent n v :
  wf v -> parse (stringify_indent n v) = Some v.
Proof. apply parse_serialize, all_ws_spaces. Qed.

(** ** Integers as JSON numbers *)

Lemma leading_zeros_split r :
  r = repeat 48%N (leading_zeros r) ++ skipn (leading_zeros r) r
  /\ match skipn (leading_zeros r) r with
     | [] => True
     | c :: _ => c <> 48%N
     end.
Proof.
  induction r as [ | c r [IH1 IH2]]; [ now split | ].
  cbn [leading_zeros]. destruct (N.eqb_spec c 48) as [-> | Hc].
  - cbn [repeat skipn app]. split; [ now rewrite <- IH1 | exact IH2 ].
  - cbn. now split.
Qed.

Lemma digits_val_snoc d c :
  digits_val (d ++ [c]) = (10 * digits_val d + (Z.of_N c - 48))%Z.
Proof. now rewrite digits_val_app. Qed.

Lemma digits_val_scaled d z :
  digits_val (d ++ repeat 48%N z) = (digits_val d * 10 ^ Z.of_nat z)%Z.
Proof.
  induction z as [ | z IH].
  - cbn [repeat]. rewrite app_nil_r. cbn. lia.
  - replace (repeat 48%N (S z)) with (repeat 48%N z ++ [48%N])
      by (now rewrite <- repeat_cons).
    rewrite app_assoc, digits_val_snoc, IH.
    rewrite Nat2Z.inj_succ, Z.pow_succ_r by lia. lia.
Qed.

(** What [decimal] makes of a run of digits. *)
Lemma decimal_spec neg d e :
  forallb is_digit d = true ->
  (decimal neg d e = JNum 0 0 /\ digits_val d = 0%Z)
  \/ exists m z,
       decimal neg d e = JNum (if neg then - m else m)%Z (e + Z.of_nat z)
       /\ (m mod 10 <> 0)%Z
       /\ digits_val d = (m * 10 ^ Z.of_nat z)%Z.
Proof.
  intros Hd. unfold decimal.
  destruct (leading_zeros_split (rev d)) as [Hsplit Hhead].
  set (z := leading_zeros (rev d)) in *.
  set (r := skipn z (rev d)) in *.
  assert (Hdd : d = rev r ++ repeat 48%N z).
  { rewrite <- (rev_involutive d), Hsplit, rev_app_distr, rev_repeat.
    reflexivity. }
  assert (Hfirst : firstn (length d - z) d = rev r).
  { rewrite Hdd at 2. rewrite Hdd at 1.
    rewrite length_app, repeat_length, Nat.add_sub.
    rewrite firstn_app, firstn_all, Nat.sub_diag. cbn [firstn].
    now rewrite app_nil_r. }
  rewrite Hfirst.
  destruct r as [ | c r'] eqn:Hr.
  - left. cbn. split; [ reflexivity | ].
    rewrite Hdd. cbn [rev app].
    rewrite <- (app_nil_l (repeat 48%N z)), digits_val_scaled. reflexivity.
  - right. cbn [rev]. rewrite digits_val_snoc.
    assert (Hc : is_digit c = true).
    { rewrite Hdd, forallb_app in Hd. apply andb_true_iff in Hd as [Hd _].
      cbn [rev] in Hd. rewrite forallb_app in Hd.
      apply andb_true_iff in Hd as [_ Hd]. cbn in Hd.
      now rewrite andb_true_r in Hd. }
    unfold is_digit in Hc. apply andb_true_iff in Hc as [Hc1 Hc2].
    apply N.leb_le in Hc1, Hc2.
    set (X := digits_val (rev r')).
    assert (Hmod : ((10 * X + (Z.of_N c - 48)) mod 10 <> 0)%Z).
    { rewrite Z.add_comm, Z.mul_comm, Z.mod_add by lia.
      rewrite Z.mod_small by lia. lia. }
    assert (Hnz : (10 * X + (Z.of_N c - 48) <> 0)%Z).
    { intros H0. rewrite H0 in Hmod. now cbn in Hmod. }
    destruct (Z.eqb_spec (10 * X + (Z.of_N c - 48)) 0); [ contradiction | ].
    exists (10 * X + (Z.of_N c - 48))%Z, z. repeat split; try assumption.
    rewrite Hdd. cbn [rev]. rewrite digits_val_scaled, digits_val_snoc.
    reflexivity.
Qed.

Lemma normal_opp m e : normal m e -> normal (- m) e.
Proof.
  intros [[-> ->] | H]; [ left; now split | right ].
  intros H0. apply H. apply Z.mod_divide in H0; [ | lia ].
  apply Z.mod_divide; [ lia | ]. destruct H0 as [q Hq]. exists (- q)%Z. lia.
Qed.

(** [JInt z] is a normalised number. *)
Lemma JInt_normal z : exists m e, JInt z = JNum m e /\ normal m e.
Proof.
  unfold JInt.
  destruct (decimal_spec (z <? 0)%Z (Str.digits (Z.to_N (Z.abs z))) 0
              (digits_all_digits _)) as [[-> _] | (m & k & -> & Hm & _)].
  - exists 0%Z, 0%Z. split; [ reflexivity | left; now split ].
  - eexists _, _. split; [ reflexivity | ].
    destruct (z <? 0)%Z; [ apply normal_opp | ]; now right.
Qed.

Lemma wf_JInt z : wf (JInt z).
Proof. destruct (JInt_normal z) as (m & e & -> & H). exact H. Qed.

(** [JInt z] has the integer value [z]. *)
Lemma int_value_JInt z : int_value (JInt z) = Some z.
Proof.
  unfold JInt.
  destruct (decimal_spec (z <? 0)%Z (Str.digits (Z.to_N (Z.abs z))) 0
              (digits_all_digits _)) as [[-> Hv] | (m & k & -> & Hm & Hv)];
    rewrite digits_val_digits in Hv.
  - cbn. f_equal. lia.
  - cbn [int_value]. destruct (Z.leb_spec 0 (0 + Z.of_nat k)); [ | lia ].
    f_equal. rewrite Z.add_0_l.
    destruct (Z.ltb_spec z 0); lia.
Qed.

(** ** The identity as a JSON object *)

Lemma wf_config_json cfg : wf (config_json cfg).
Proof.
  unfold config_json, obj. cbn [map fst snd wf fold_right].
  repeat split; try (destruct (ai_api_key cfg); exact I);
    try (destruct (api_key cfg); exact I); try apply wf_JInt.
  - repeat (constructor; [ cbn; intuition discriminate | ]). constructor.
  - repeat (constructor; [ cbn; intuition discriminate | ]). constructor.
Qed.

(** The text [saveConfig] writes is read back by [JSON.parse] as the
    object it was made from. *)
Lemma config_parses cfg :
  parse (stringify_indent 2 (config_json cfg)) = Some (config_json cfg).
Proof. apply parse_stringify_indent, wf_config_json. Qed.

(* ===================================================================== *)
(** * Computations that only add to the trace *)
(* ===================================================================== *)

(** The machine [m] after the events [evs]. *)
Definition add_events (m : machine) (evs : list event) : machine :=
  {| config := config m;
     consecutiveErrors := consecutiveErrors m;
     disk := disk m;
     trace := trace m ++ evs |}.

(** A computation is oblivious when it neither reads nor writes the
    machine, apart from adding events to the trace. *)
Definition oblivious {A : Type} (c : M A) : Prop :=
  exists (r : result A) (evs : list event),
    forall m, c m = (r, add_events m evs).

Definition is_http (e : event) : bool :=
  match e with Http _ _ _ _ => true | _ => false end.

Definition is_backoff (e : event) : bool :=
  match e with Sleep ms => (ms =? ERROR_BACKOFF_MS)%Z | _ => false end.

Definition is_write (e : event) : bool :=
  match e with WriteFile _ => true | _ => false end.

(** The calls the process has made to the network. *)
Definition http_calls (tr : list event) : list event := filter is_http tr.

(** How many times the loop has entered the extended backoff sleep. *)
Definition backoffs (tr : list event) : nat := length (filter is_backoff tr).

Lemma add_events_nil m : add_events m [] = m.
Proof.
  destruct m; unfold add_events; cbn. now rewrite app_nil_r.
Qed.

Lemma add_events_app m a b :
  add_events (add_events m a) b = add_events m (a ++ b).
Proof.
  unfold add_events; cbn. now rewrite app_assoc.
Qed.

Lemma oblivious_ret (A : Type) (a : A) : oblivious (ret a).
Proof.
  exists (Ok a), []. intros m. unfold ret. now rewrite add_events_nil.
Qed.

Lemma oblivious_throw (A : Type) (why : str) : oblivious (@throw A why).
Proof.
  exists (Throw why), []. intros m. unfold throw. now rewrite add_events_nil.
Qed.

Lemma oblivious_lift (A : Type) (r : result A) : oblivious (lift r).
Proof.
  exists r, []. intros m. unfold lift. now rewrite add_events_nil.
Qed.

Lemma oblivious_emit e : oblivious (emit e).
Proof.
  exists (Ok tt), [e]. intros m. reflexivity.
Qed.

Lemma oblivious_bind (A B : Type) (c : M A) (k : A -> M B) :
  oblivious c -> (forall a, oblivious (k a)) -> oblivious (bind c k).
Proof.
  intros (r & evs & Hc) Hk. destruct r as [a | why].
  - destruct (Hk a) as (r' & evs' & Hka).
    exists r', (evs ++ evs'). intros m. unfold bind.
    rewrite Hc, Hka. now rewrite add_events_app.
  - exists (Throw why), evs. intros m. unfold bind. now rewrite Hc.
Qed.

Lemma oblivious_try_catch (A : Type) (c : M A) (h : str -> M A) :
  oblivious c -> (forall why, oblivious (h why)) ->
  oblivious (try_catch c h).
Proof.
  intros (r & evs & Hc) Hh. destruct r as [a | why].
  - exists (Ok a), evs. intros m. unfold try_catch. now rewrite Hc.
  - destruct (Hh why) as (r' & evs' & Hw).
    exists r', (evs ++ evs'). intros m. unfold try_catch.
    rewrite Hc, Hw. now rewrite add_events_app.
Qed.

Ltac obl :=
  repeat first
    [ apply oblivious_ret | apply oblivious_throw | apply oblivious_lift
    | apply oblivious_emit
    | apply oblivious_bind; [ | intros ? ]
    | apply oblivious_try_catch; [ | intros ? ]
    | match goal with
      | |- oblivious (match ?x with _ => _ end) => destruct x
      | |- oblivious (if ?x then _ else _) => destruct x
      | |- oblivious (let (_, _) := ?x in _) => destruct x
      end ].

Lemma oblivious_fetch method url hdrs body reply :
  oblivious (fetch method url hdrs body reply).
Proof. unfold fetch. obl. Qed.

Lemma oblivious_apiRequest P endpoint method body hdrs reply :
  oblivious (apiRequest P endpoint method body hdrs reply).
Proof.
  unfold apiRequest. apply oblivious_bind; [ apply oblivious_fetch | ].
  intros [status text]. obl.
Qed.

Lemma oblivious_fetchWork P cfg reply : oblivious (fetchWork P cfg reply).
Proof.
  unfold fetchWork. apply oblivious_try_catch;
    [ apply oblivious_apiRequest | intros why; obl ].
Qed.

Lemma oblivious_submitResult P cfg taskId result reply :
  oblivious (submitResult P cfg taskId result reply).
Proof.
  unfold submitResult, logOk, logErr. apply oblivious_try_catch.
  - apply oblivious_bind; [ apply oblivious_apiRequest | intros a; obl ].
  - intros why. obl.
Qed.

Lemma oblivious_call_backend backend apiKey systemPrompt taskPrompt reply :
  oblivious (call_backend backend apiKey systemPrompt taskPrompt reply).
Proof.
  unfold call_backend, logWarn, logOk.
  apply oblivious_bind; [ apply oblivious_fetch | ].
  intros [status text]. obl.
Qed.

Lemma oblivious_processWithAI P cfg taskPrompt reply :
  oblivious (processWithAI P cfg taskPrompt reply).
Proof.
  unfold processWithAI, log, logWarn, logErr, sleep.
  destruct (ROLE_PROMPTS (role cfg)); [ | obl ].
  destruct (Str.eqb (model cfg) (lit "openclaw")); [ obl | ].
  destruct (if Str.eqb (model cfg) (lit "none") then None
            else AI_BACKENDS (model cfg)); [ | obl ].
  destruct (or_str (ai_api_key cfg) (nonempty (env P (envKey b)))); [ | obl ].
  apply oblivious_bind; [ obl | intros _ ].
  apply oblivious_try_catch; [ apply oblivious_call_backend | intros; obl ].
Qed.

(** What an oblivious computation returns and what it does, read off a
    run on a machine with an empty trace. *)
Definition blank : machine :=
  {| config :=
       {| name := []; owner := []; solana_wallet := []; role := [];
          model := []; model_info := []; ai_api_key := None;
          agent_id := []; api_key := None; server := []; created_at := [];
          stats := {| completed := 0; points := 0; errors := 0 |} |};
     consecutiveErrors := 0;
     disk := Absent;
     trace := [] |}.

Definition result_of {A : Type} (c : M A) : result A := fst (c blank).

Definition events_of {A : Type} (c : M A) : list event :=
  trace (snd (c blank)).

Lemma oblivious_run (A : Type) (c : M A) :
  oblivious c ->
  forall m, c m = (result_of c, add_events m (events_of c)).
Proof.
  intros (r & evs & H) m. unfold result_of, events_of.
  rewrite (H blank), (H m). reflexivity.
Qed.

Lemma fetchWork_run P cfg reply m :
  fetchWork P cfg reply m =
  (result_of (fetchWork P cfg reply),
   add_events m (events_of (fetchWork P cfg reply))).
Proof. apply oblivious_run, oblivious_fetchWork. Qed.

Lemma processWithAI_run P cfg prompt reply m :
  processWithAI P cfg prompt reply m =
  (result_of (processWithAI P cfg prompt reply),
   add_events m (events_of (processWithAI P cfg prompt reply))).
Proof. apply oblivious_run, oblivious_processWithAI. Qed.

Lemma submitResult_run P cfg taskId r reply m :
  submitResult P cfg taskId r reply m =
  (result_of (submitResult P cfg taskId r reply),
   add_events m (events_of (submitResult P cfg taskId r reply))).
Proof. apply oblivious_run, oblivious_submitResult. Qed.

(** [processWithAI] catches whatever the call of the backend throws; on
    a prompt that has a [slice] method it returns. *)
Lemma processWithAI_returns P cfg prompt reply :
  has_slice prompt = true ->
  exists v, result_of (processWithAI P cfg prompt reply) = Ok v.
Proof.
  intros Hs.
  unfold result_of, processWithAI, log, logWarn, logErr, sleep.
  destruct (ROLE_PROMPTS (role cfg)); [ | eexists; reflexivity ].
  destruct (Str.eqb (model cfg) (lit "openclaw")); [ eexists; reflexivity | ].
  destruct (if Str.eqb (model cfg) (lit "none") then None
            else AI_BACKENDS (model cfg));
    [ | rewrite Hs; eexists; reflexivity ].
  destruct (or_str (ai_api_key cfg) (nonempty (env P (envKey b))));
    [ | eexists; reflexivity ].
  unfold bind, emit, try_catch; cbn.
  destruct (call_backend b s0 s prompt reply _) as [[v | why] m'];
    eexists; reflexivity.
Qed.

(* ===================================================================== *)
(** * One cycle of the loop, path by path *)
(* ===================================================================== *)

Definition bump_errors (cfg : Config) : Config :=
  with_stats cfg
    {| completed := completed (stats cfg);
       points := points (stats cfg);
       errors := errors (stats cfg) + 1 |}.

Definition award (roleInfo : RoleInfo) (cfg : Config) : Config :=
  with_stats cfg
    {| completed := completed (stats cfg) + 1;
       points := points (stats cfg) + role_points roleInfo;
       errors := errors (stats cfg) |}.

(** The machine after the [catch] block and the poll sleep, entered at
    [m] with the error [why]. *)
Definition failed (why : str) (m : machine) : machine :=
  let n := (consecutiveErrors m + 1)%Z in
  let limit := (MAX_CONSECUTIVE_ERRORS <=? n)%Z in
  {| config := bump_errors (config m);
     consecutiveErrors := if limit then 0%Z else n;
     disk := disk m;
     trace :=
       trace m
         ++ [Print LErr (MWorkerError n why)]
         ++ (if limit
             then [Print LErr (MBackoff (ERROR_BACKOFF_MS / 1000));
                   Sleep ERROR_BACKOFF_MS]
             else [])
         ++ [Sleep POLL_INTERVAL_MS] |}.

Lemma step_unfold P roleInfo E m :
  step P roleInfo E m =
  match loop_try P roleInfo E m with
  | (Ok _, m1) => add_events m1 [Sleep POLL_INTERVAL_MS]
  | (Throw why, m1) => failed why m1
  end.
Proof.
  unfold step, cycle, bind, try_catch.
  destruct (loop_try P roleInfo E m) as [[[] | why] m1]; [ reflexivity | ].
  unfold loop_catch, modify_stats, bind, get_consecutive, set_consecutive,
    get_config, set_config, logErr, sleep, emit, failed; cbn.
  destruct (MAX_CONSECUTIVE_ERRORS <=? consecutiveErrors m1 + 1)%Z; cbn;
    unfold bump_errors; cbn; rewrite <- ?app_assoc; reflexivity.
Qed.

(** The machine when the loop has received a work item: the counter is
    reset before anything else happens. *)
Definition received (m : machine) (evs : list event) : machine :=
  {| config := config m;
     consecutiveErrors := 0;
     disk := disk m;
     trace := trace m ++ evs |}.

#[local] Arguments stringify_indent : simpl never.
#[local] Arguments stringify : simpl never.
#[local] Arguments config_json : simpl never.
#[local] Arguments extractJSON : simpl never.

Section Cycle.
Variable P : process.
Variable roleInfo : RoleInfo.
Variable E : cycle_env.
Variable m : machine.

Let fetched := fetchWork P (config m) (work_reply E).

(** [fetchWork] throws. *)
Lemma try_fetch_throws why :
  result_of fetched = Throw why ->
  loop_try P roleInfo E m =
  (Throw why, add_events m (events_of fetched)).
Proof.
  intros H. unfold loop_try, bind, get_config.
  fold fetched. unfold fetched at 1. rewrite fetchWork_run.
  fold fetched. rewrite H. reflexivity.
Qed.

(** [fetchWork] returns nothing with a task id. *)
Lemma try_no_work work :
  result_of fetched = Ok work ->
  task_of work = None ->
  loop_try P roleInfo E m =
  (Ok tt,
   received m
     (events_of fetched ++ [Print LPlain (MWaiting (stats (config m)))])).
Proof.
  intros H Ht. unfold loop_try, bind, get_config.
  rewrite fetchWork_run. fold fetched. rewrite H, Ht.
  unfold received, add_events, emit, set_consecutive; cbn.
  now rewrite <- !app_assoc.
Qed.

Section Work.
Variables (work taskId : json).
Hypothesis Hfetch : result_of fetched = Ok work.
Hypothesis Htask : task_of work = Some taskId.

(** The task prompt has no [slice] method. *)
Lemma try_no_slice :
  has_slice (prompt_of work) = false ->
  loop_try P roleInfo E m =
  (Throw (lit "taskPrompt.slice is not a function"),
   received m (events_of fetched)).
Proof.
  intros Hs. unfold loop_try, bind, get_config.
  rewrite fetchWork_run. fold fetched. rewrite Hfetch, Htask.
  unfold set_consecutive; cbn. rewrite Hs. reflexivity.
Qed.

Hypothesis Hslice : has_slice (prompt_of work) = true.

Let processed :=
  processWithAI P (config m) (prompt_of work) (ai_reply E).

Let upto_ai : list event :=
  events_of fetched
    ++ [Print LWork (MReceived taskId (prompt_of work))]
    ++ events_of processed.

(** [processWithAI] returns nothing truthy. *)
Lemma try_no_result r :
  result_of processed = Ok r ->
  truthy r = false ->
  loop_try P roleInfo E m =
  (Ok tt,
   received m
     (upto_ai
        ++ [Print LWarn
              (MNoResult taskId
                 (Str.eqb (model (config m)) (lit "none")))])).
Proof.
  intros Hr Ht. unfold loop_try, bind, get_config.
  rewrite fetchWork_run. fold fetched. rewrite Hfetch, Htask.
  unfold set_consecutive; cbn. rewrite Hslice.
  unfold ret, logWork, emit; cbn.
  rewrite processWithAI_run. fold processed. rewrite Hr, Ht.
  unfold logWarn, emit, received, add_events, upto_ai; cbn.
  now rewrite <- !app_assoc.
Qed.

Section Result.
Variable r : json.
Hypothesis Hr : result_of processed = Ok r.
Hypothesis Htruthy : truthy r = true.

Let submitted :=
  submitResult P (config m) taskId r (submit_reply E).

Let upto_submit : list event := upto_ai ++ events_of submitted.

(** [submitResult] throws. *)
Lemma try_submit_throws why :
  result_of submitted = Throw why ->
  loop_try P roleInfo E m = (Throw why, received m upto_submit).
Proof.
  intros Hs. unfold loop_try, bind, get_config.
  rewrite fetchWork_run. fold fetched. rewrite Hfetch, Htask.
  unfold set_consecutive; cbn. rewrite Hslice.
  unfold ret, logWork, emit; cbn.
  rewrite processWithAI_run. fold processed. rewrite Hr, Htruthy.
  rewrite submitResult_run. cbn. fold submitted. rewrite Hs.
  unfold received, add_events, upto_submit, upto_ai; cbn.
  now rewrite <- !app_assoc.
Qed.

Let data : str :=
  stringify_indent 2 (config_json (award roleInfo (config m))).

(** [submitResult] returns and the file is written. *)
Lemma try_saved ack :
  result_of submitted = Ok ack ->
  write_reply E = Written ->
  loop_try P roleInfo E m =
  (Ok tt,
   {| config := award roleInfo (config m);
      consecutiveErrors := 0;
      disk := Content data;
      trace :=
        trace m ++ upto_submit
          ++ [WriteFile data; Print LOk MConfigSaved] |}).
Proof.
  intros Hs Hw. unfold loop_try, bind, get_config.
  rewrite fetchWork_run. fold fetched. rewrite Hfetch, Htask.
  unfold set_consecutive; cbn. rewrite Hslice.
  unfold ret, logWork, emit; cbn.
  rewrite processWithAI_run. fold processed. rewrite Hr, Htruthy.
  rewrite submitResult_run. cbn. fold submitted. rewrite Hs.
  unfold modify_stats, saveConfig, logOk, bind, get_config, set_config,
    emit, set_disk; cbn.
  rewrite Hw. unfold add_events, upto_submit, upto_ai, data, award; cbn.
  now rewrite <- !app_assoc.
Qed.

(** [submitResult] returns and writing the file throws. *)
Lemma try_save_throws ack why remains :
  result_of submitted = Ok ack ->
  write_reply E = WriteFailed why remains ->
  loop_try P roleInfo E m =
  (Throw why,
   {| config := award roleInfo (config m);
      consecutiveErrors := 0;
      disk := remains;
      trace :=
        trace m ++ upto_submit
          ++ [WriteFile data; Print LErr (MSaveFailed why)] |}).
Proof.
  intros Hs Hw. unfold loop_try, bind, get_config.
  rewrite fetchWork_run. fold fetched. rewrite Hfetch, Htask.
  unfold set_consecutive; cbn. rewrite Hslice.
  unfold ret, logWork, emit; cbn.
  rewrite processWithAI_run. fold processed. rewrite Hr, Htruthy.
  rewrite submitResult_run. cbn. fold submitted. rewrite Hs.
  unfold modify_stats, saveConfig, logErr, bind, get_config, set_config,
    emit, set_disk, throw; cbn.
  rewrite Hw. cbn.
  unfold add_events, upto_submit, upto_ai, data, award; cbn.
  now rewrite <- !app_assoc.
Qed.
End Result.
End Work.
End Cycle.

(* ===================================================================== *)
(** * What the coordination calls do *)
(* ===================================================================== *)

Definition json_headers (hdrs : list (str * str)) : list (str * str) :=
  (lit "Content-Type", lit "application/json") :: hdrs.

(** The one request [fetchWork] sends. *)
Definition work_request (P : process) (cfg : Config) : event :=
  Http (lit "GET")
       (SERVER_URL P ++ lit "/api/agents/" ++ agent_id cfg ++ lit "/work")
       (json_headers (auth_headers cfg)) None.

(** The one request [submitResult] sends. *)
Definition submit_request (P : process) (cfg : Config) (taskId r : json)
  : event :=
  Http (lit "POST") (SERVER_URL P ++ lit "/api/agents/submit")
       (json_headers (auth_headers cfg))
       (Some (stringify (obj [ ("agent_id", JStr (agent_id cfg));
                               ("task_id", taskId);
                               ("result", r) ]%string))).

Lemma fetchWork_events P cfg reply :
  events_of (fetchWork P cfg reply) = [work_request P cfg].
Proof.
  unfold events_of, fetchWork, apiRequest, fetch, try_catch, bind, emit.
  destruct reply as [why | status text]; cbn.
  - match goal with
    | |- context [if ?b then _ else _] => destruct b
    end; reflexivity.
  - destruct (resp_ok status); cbn.
    + destruct text; [ reflexivity | ]. destruct (parse (n :: text));
        reflexivity.
    + match goal with
      | |- context [if ?b then _ else _] => destruct b
      end; reflexivity.
Qed.

(** The message of the error [apiRequest] throws on a status that is not
    a success. *)
Definition api_failure (method endpoint : str) (status : N) (body : str)
  : str :=
  lit "API " ++ method ++ lit " " ++ endpoint ++ lit " failed ("
      ++ Str.digits status ++ lit "): " ++ body.

Definition work_endpoint (cfg : Config) : str :=
  lit "/api/agents/" ++ agent_id cfg ++ lit "/work".

Definition no_content_marks (why : str) : bool :=
  includes why (lit "404") || includes why (lit "204").

(** What [fetchWork] returns, reply by reply. *)
Lemma fetchWork_result P cfg reply :
  result_of (fetchWork P cfg reply) =
  match reply with
  | NetFail why => if no_content_marks why then Ok JNull else Throw why
  | Response status text =>
      if resp_ok status then
        match text with
        | [] => Ok JNull
        | _ :: _ =>
            match parse text with
            | Some v => Ok v
            | None => Ok (JStr text)
            end
        end
      else
        let why := api_failure (lit "GET") (work_endpoint cfg) status text in
        if no_content_marks why then Ok JNull else Throw why
  end.
Proof.
  unfold result_of, fetchWork, apiRequest, fetch, try_catch, bind, emit,
    no_content_marks.
  destruct reply as [why | status text]; cbn.
  - match goal with
    | |- context [if ?b then _ else _] => destruct b
    end; reflexivity.
  - destruct (resp_ok status); cbn.
    + destruct text; [ reflexivity | ]. destruct (parse (n :: text));
        reflexivity.
    + unfold api_failure, work_endpoint.
      match goal with
      | |- context [if ?b then _ else _] => destruct b
      end; reflexivity.
Qed.

Lemma submitResult_ok P cfg taskId r status body :
  resp_ok status = true ->
  exists ack,
    result_of (submitResult P cfg taskId r (Response status body)) = Ok ack
    /\ events_of (submitResult P cfg taskId r (Response status body)) =
       [submit_request P cfg taskId r; Print LOk (MSubmitted taskId)].
Proof.
  intros Hok.
  unfold result_of, events_of, submitResult, apiRequest, fetch, try_catch,
    bind, emit, logOk; cbn. rewrite Hok; cbn.
  destruct body; [ eexists; split; reflexivity | ].
  destruct (parse (n :: body)); eexists; split; reflexivity.
Qed.

Lemma submitResult_events P cfg taskId r reply :
  exists e,
    events_of (submitResult P cfg taskId r reply) =
    [submit_request P cfg taskId r; e] /\ is_http e = false
    /\ is_write e = false /\ is_backoff e = false.
Proof.
  unfold events_of, submitResult, apiRequest, fetch, try_catch,
    bind, emit, logOk, logErr.
  destruct reply as [why | status body]; cbn.
  - eexists; repeat split.
  - destruct (resp_ok status); cbn.
    + destruct body; [ eexists; repeat split | ].
      destruct (parse (n :: body)); eexists; repeat split.
    + eexists; repeat split.
Qed.

(* ===================================================================== *)
(** * A concrete worker *)
(* ===================================================================== *)

(** The identity [cliSetup] builds for
    [--name TrendBot --role trend_researcher --model gemini --api-key KEY]
    once the server has answered the registration. *)
Definition trend_bot : Config :=
  {| name := lit "TrendBot";
     owner := lit "anonymous";
     solana_wallet := [];
     role := lit "trend_researcher";
     model := lit "gemini";
     model_info := lit "Google Gemini (free)";
     ai_api_key := Some (lit "KEY");
     agent_id := lit "agent-7";
     api_key := Some (lit "secret");
     server := DEFAULT_SERVER;
     created_at := lit "2026-01-01T00:00:00.000Z";
     stats := {| completed := 0; points := 0; errors := 0 |} |}.

Definition bare_process : process :=
  {| env := fun _ => None; SERVER_URL := DEFAULT_SERVER |}.

Definition trend_researcher_info : RoleInfo :=
  {| difficulty := lit "easy"; role_points := 10;
     role_label := lit "Trend Researcher" |}.

(** The machine at the first turn of the loop. *)
Definition fresh (cfg : Config) (d : file) : machine :=
  {| config := cfg; consecutiveErrors := 0; disk := d; trace := [] |}.

(** A reply of Gemini whose generated text is [t]. *)
Definition gemini_says (t : str) : http_outcome :=
  Response 200
    (stringify
       (obj [("candidates",
              JArr [obj [("content",
                          obj [("parts",
                                JArr [obj [("text", JStr t)]])])]])]%string)).

Definition a_task : http_outcome :=
  Response 200 (jlit "{'task_id':'t1','prompt':'dinosaur obby'}").

Definition accepted : http_outcome := Response 200 (jlit "{'ok':true}").

Definition server_error : http_outcome := Response 500 (lit "boom").

(** A cycle in which the coordinator is down. *)
Definition cycle_down : cycle_env :=
  {| work_reply := server_error; ai_reply := NetFail [];
     submit_reply := NetFail []; write_reply := Written |}.

(** A cycle in which there is no work. *)
Definition cycle_idle : cycle_env :=
  {| work_reply := Response 200 []; ai_reply := NetFail [];
     submit_reply := NetFail []; write_reply := Written |}.

(** A cycle in which work arrives, the model answers with a JSON object
    and the coordinator rejects the submission. *)
Definition cycle_rejected : cycle_env :=
  {| work_reply := a_task;
     ai_reply := gemini_says (jlit "{'trend_name':'dinos'}");
     submit_reply := server_error;
     write_reply := Written |}.

(** A cycle in which work arrives, the model answers with prose and the
    coordinator accepts what is submitted. *)
Definition cycle_prose : cycle_env :=
  {| work_reply := a_task;
     ai_reply := gemini_says (lit "not json at all");
     submit_reply := accepted;
     write_reply := Written |}.

(** A cycle in which everything succeeds. *)
Definition cycle_good : cycle_env :=
  {| work_reply := a_task;
     ai_reply := gemini_says (jlit "{'trend_name':'dinos'}");
     submit_reply := accepted;
     write_reply := Written |}.

(* ===================================================================== *)
(** * The idle cycle *)
(* ===================================================================== *)

(** C4, as amended: in a cycle in which [fetchWork] returns nothing that
    carries a task id, the only request is the one for work (no backend
    call, no submission), the identity and with it the statistics are
    unchanged, the file is untouched, and the consecutive-error counter is
    set to zero (unchanged only when it was zero already). *)
Theorem idle_cycle P roleInfo E m work :
  result_of (fetchWork P (config m) (work_reply E)) = Ok work ->
  task_of work = None ->
  let m' := step P roleInfo E m in
  trace m' =
    trace m ++ [ work_request P (config m);
                 Print LPlain (MWaiting (stats (config m)));
                 Sleep POLL_INTERVAL_MS ]
  /\ http_calls (trace m') = http_calls (trace m) ++ [work_request P (config m)]
  /\ config m' = config m
  /\ disk m' = disk m
  /\ consecutiveErrors m' = 0%Z.
Proof.
  intros Hw Ht m'. subst m'.
  rewrite step_unfold, (try_no_work P roleInfo E m _ Hw Ht), fetchWork_events.
  unfold received, add_events; cbn. rewrite <- !app_assoc. repeat split.
  unfold http_calls. rewrite filter_app. reflexivity.
Qed.

Lemma idle_cycle_witness :
  let m := fresh trend_bot Absent in
  consecutiveErrors (step bare_process trend_researcher_info cycle_idle m)
  = 0%Z.
Proof.
  intros m.
  apply (idle_cycle bare_process trend_researcher_info cycle_idle m JNull);
    reflexivity.
Defined.

(** C4 as stated fails: after three cycles with the coordinator down the
    counter is 3, and an idle cycle then changes it to 0. *)
Lemma idle_cycle_changes_counter :
  let m := run bare_process trend_researcher_info
               [cycle_down; cycle_down; cycle_down]
               (fresh trend_bot Absent) in
  result_of (fetchWork bare_process (config m) (work_reply cycle_idle))
    = Ok JNull
  /\ task_of JNull = None
  /\ consecutiveErrors m = 3%Z
  /\ consecutiveErrors (step bare_process trend_researcher_info cycle_idle m)
     <> consecutiveErrors m.
Proof.
  vm_compute. repeat split; discriminate.
Qed.

(* ===================================================================== *)
(** * No-content detection in [fetchWork] *)
(* ===================================================================== *)

(** C5: a reply with status 500 whose body mentions 404 is taken for
    "no work": [fetchWork] returns [null] where the claim has it throw. *)
Theorem fetchWork_swallows_server_error :
  resp_ok 500 = false
  /\ result_of (fetchWork bare_process trend_bot
                  (Response 500 (lit "upstream said 404")))
     = Ok JNull
  /\ result_of (fetchWork bare_process trend_bot (Response 500 (lit "boom")))
     = Throw (lit "API GET /api/agents/agent-7/work failed (500): boom").
Proof.
  vm_compute. repeat split.
Qed.

(* ===================================================================== *)
(** * The paths through a cycle *)
(* ===================================================================== *)

(** The cycle gets as far as a successful submission: work with a task id
    arrives, its prompt can be sliced, the model call yields a truthy
    result and [submitResult] returns. *)
Definition submits (P : process) (E : cycle_env) (m : machine) : Prop :=
  exists work taskId r ack,
    result_of (fetchWork P (config m) (work_reply E)) = Ok work
    /\ task_of work = Some taskId
    /\ has_slice (prompt_of work) = true
    /\ result_of (processWithAI P (config m) (prompt_of work) (ai_reply E))
       = Ok r
    /\ truthy r = true
    /\ result_of (submitResult P (config m) taskId r (submit_reply E))
       = Ok ack.

(** The seven ways the [try] block can go, each with its outcome and the
    machine it leaves. *)
Inductive try_path (P : process) (roleInfo : RoleInfo) (E : cycle_env)
          (m : machine) : result unit * machine -> Prop :=
| path_fetch_throws why :
    result_of (fetchWork P (config m) (work_reply E)) = Throw why ->
    try_path P roleInfo E m
      (Throw why, add_events m [work_request P (config m)])
| path_idle work :
    result_of (fetchWork P (config m) (work_reply E)) = Ok work ->
    task_of work = None ->
    try_path P roleInfo E m
      (Ok tt,
       received m [ work_request P (config m);
                    Print LPlain (MWaiting (stats (config m))) ])
| path_no_slice evs :
    ~ submits P E m ->
    filter is_write evs = [] -> filter is_backoff evs = [] ->
    try_path P roleInfo E m
      (Throw (lit "taskPrompt.slice is not a function"), received m evs)
| path_no_result evs :
    ~ submits P E m ->
    filter is_write evs = [] -> filter is_backoff evs = [] ->
    try_path P roleInfo E m (Ok tt, received m evs)
| path_submit_throws why evs :
    ~ submits P E m ->
    filter is_write evs = [] -> filter is_backoff evs = [] ->
    try_path P roleInfo E m (Throw why, received m evs)
| path_saved evs :
    submits P E m ->
    write_reply E = Written ->
    filter is_write evs = [] -> filter is_backoff evs = [] ->
    let data :=
      stringify_indent 2 (config_json (award roleInfo (config m))) in
    try_path P roleInfo E m
      (Ok tt,
       {| config := award roleInfo (config m);
          consecutiveErrors := 0;
          disk := Content data;
          trace := trace m ++ evs
                     ++ [WriteFile data; Print LOk MConfigSaved] |})
| path_save_throws why remains evs :
    submits P E m ->
    write_reply E = WriteFailed why remains ->
    filter is_write evs = [] -> filter is_backoff evs = [] ->
    let data :=
      stringify_indent 2 (config_json (award roleInfo (config m))) in
    try_path P roleInfo E m
      (Throw why,
       {| config := award roleInfo (config m);
          consecutiveErrors := 0;
          disk := remains;
          trace := trace m ++ evs
                     ++ [WriteFile data; Print LErr (MSaveFailed why)] |}).

(** [processWithAI] neither writes the file nor sleeps for the backoff
    period. *)
Lemma processWithAI_quiet P cfg prompt reply :
  filter is_write (events_of (processWithAI P cfg prompt reply)) = []
  /\ filter is_backoff (events_of (processWithAI P cfg prompt reply)) = [].
Proof.
  unfold events_of, processWithAI, log, logWarn, logErr, sleep.
  destruct (ROLE_PROMPTS (role cfg)); [ | split; reflexivity ].
  destruct (Str.eqb (model cfg) (lit "openclaw")); [ split; reflexivity | ].
  destruct (if Str.eqb (model cfg) (lit "none") then None
            else AI_BACKENDS (model cfg));
    [ | destruct (has_slice prompt); split; reflexivity ].
  destruct (or_str (ai_api_key cfg) (nonempty (env P (envKey b))));
    [ | split; reflexivity ].
  unfold bind, emit, try_catch, call_backend, fetch, bind, emit,
    logWarn, logOk, logErr, emit, ret, throw, lift; cbn.
  destruct reply as [why | status text]; cbn; [ split; reflexivity | ].
  destruct (resp_ok status); cbn; [ | split; reflexivity ].
  destruct (parse text) as [j | ]; cbn; [ | split; reflexivity ].
  destruct (truthy (extractText b j)); cbn; [ | split; reflexivity ].
  destruct (extractJSON_of (extractText b j)) as [v | why]; cbn;
    [ | split; reflexivity ].
  destruct (truthy v); cbn; split; reflexivity.
Qed.

Lemma filter_app_nil (A : Type) (f : A -> bool) (a b : list A) :
  filter f a = [] -> filter f b = [] -> filter f (a ++ b) = [].
Proof. intros Ha Hb. now rewrite filter_app, Ha, Hb. Qed.

(** The [try] block always follows one of the paths. *)
Lemma loop_try_path P roleInfo E m :
  try_path P roleInfo E m (loop_try P roleInfo E m).
Proof.
  destruct (result_of (fetchWork P (config m) (work_reply E)))
    as [work | why] eqn:Hf.
  2:{ rewrite (try_fetch_throws P roleInfo E m _ Hf), fetchWork_events.
      now apply path_fetch_throws. }
  destruct (task_of work) as [taskId | ] eqn:Ht.
  2:{ rewrite (try_no_work P roleInfo E m _ Hf Ht), fetchWork_events.
      now apply path_idle with (work := work). }
  destruct (has_slice (prompt_of work)) eqn:Hs.
  2:{ rewrite (try_no_slice P roleInfo E m _ _ Hf Ht Hs), fetchWork_events.
      apply path_no_slice; try reflexivity.
      intros (w & t & r & a & H1 & H2 & H3 & _).
      rewrite Hf in H1. injection H1 as <-. congruence. }
  destruct (processWithAI_returns P (config m) (prompt_of work) (ai_reply E)
              Hs) as [r Hr].
  destruct (processWithAI_quiet P (config m) (prompt_of work) (ai_reply E))
    as [Hqw Hqb].
  destruct (truthy r) eqn:Htr.
  2:{ rewrite (try_no_result P roleInfo E m _ _ Hf Ht Hs _ Hr Htr), fetchWork_events.
      apply path_no_result.
      - intros (w & t & r' & a & H1 & H2 & H3 & H4 & H5 & _).
        rewrite Hf in H1. injection H1 as <-. rewrite Hr in H4.
        injection H4 as <-. congruence.
      - repeat apply filter_app_nil; try reflexivity; assumption.
      - repeat apply filter_app_nil; try reflexivity; assumption. }
  destruct (submitResult_events P (config m) taskId r (submit_reply E))
    as (e & He & He1 & He2 & He3).
  assert (Hw : filter is_write
                 (([work_request P (config m)]
                     ++ [Print LWork (MReceived taskId (prompt_of work))]
                     ++ events_of (processWithAI P (config m) (prompt_of work)
                                     (ai_reply E)))
                    ++ [submit_request P (config m) taskId r; e]) = []).
  { repeat apply filter_app_nil; try reflexivity; try assumption.
    cbn. now rewrite He2. }
  assert (Hb : filter is_backoff
                 (([work_request P (config m)]
                     ++ [Print LWork (MReceived taskId (prompt_of work))]
                     ++ events_of (processWithAI P (config m) (prompt_of work)
                                     (ai_reply E)))
                    ++ [submit_request P (config m) taskId r; e]) = []).
  { repeat apply filter_app_nil; try reflexivity; try assumption.
    cbn. now rewrite He3. }
  destruct (result_of (submitResult P (config m) taskId r (submit_reply E)))
    as [ack | why] eqn:Hsub.
  2:{ rewrite (try_submit_throws P roleInfo E m _ _ Hf Ht Hs _ Hr Htr _ Hsub).
      rewrite fetchWork_events, He.
      apply path_submit_throws; try assumption.
      intros (w & t & r' & a & H1 & H2 & H3 & H4 & H5 & H6).
      rewrite Hf in H1. injection H1 as <-. rewrite Ht in H2.
      injection H2 as <-. rewrite Hr in H4. injection H4 as <-.
      congruence. }
  assert (Hsubmits : submits P E m).
  { exists work, taskId, r, ack. repeat split; assumption. }
  destruct (write_reply E) as [ | why remains] eqn:Hwr.
  - rewrite (try_saved P roleInfo E m _ _ Hf Ht Hs _ Hr Htr _ Hsub Hwr).
    rewrite fetchWork_events, He.
    now apply path_saved.
  - rewrite (try_save_throws P roleInfo E m _ _ Hf Ht Hs _ Hr Htr _ _ _ Hsub Hwr).
    rewrite fetchWork_events, He.
    now apply path_save_throws.
Qed.

(* ===================================================================== *)
(** * Error counting and backoff *)
(* ===================================================================== *)

(** The cycle fails: its [try] block throws. *)
Definition cycle_fails (P : process) (roleInfo : RoleInfo) (E : cycle_env)
           (m : machine) : bool :=
  match fst (loop_try P roleInfo E m) with
  | Throw _ => true
  | Ok _ => false
  end.

(** The cycle fails in [fetchWork]. *)
Definition fetch_fails (P : process) (E : cycle_env) (m : machine) : bool :=
  match result_of (fetchWork P (config m) (work_reply E)) with
  | Throw _ => true
  | Ok _ => false
  end.

(** [test] holds of every cycle of [Es], run one after the other. *)
Fixpoint throughout (test : cycle_env -> machine -> bool) (P : process)
         (roleInfo : RoleInfo) (Es : list cycle_env) (m : machine) : bool :=
  match Es with
  | [] => true
  | E :: Es' =>
      test E m && throughout test P roleInfo Es' (step P roleInfo E m)
  end.

Definition errors_of (m : machine) : Z := errors (stats (config m)).

Lemma backoffs_app a b : backoffs (a ++ b) = (backoffs a + backoffs b)%nat.
Proof. unfold backoffs. now rewrite filter_app, length_app. Qed.

(** The [catch] block: the cumulative count grows by one; the consecutive
    count grows by one, or is reset after a backoff when it reaches ten. *)
Lemma failed_counts why m :
  errors_of (failed why m) = (errors_of m + 1)%Z
  /\ disk (failed why m) = disk m
  /\ ((consecutiveErrors m + 1 < 10)%Z ->
      consecutiveErrors (failed why m) = (consecutiveErrors m + 1)%Z
      /\ backoffs (trace (failed why m)) = backoffs (trace m))
  /\ ((10 <= consecutiveErrors m + 1)%Z ->
      consecutiveErrors (failed why m) = 0%Z
      /\ backoffs (trace (failed why m)) = S (backoffs (trace m))).
Proof.
  unfold failed, errors_of, MAX_CONSECUTIVE_ERRORS.
  cbn [config consecutiveErrors disk trace bump_errors with_stats stats
       errors].
  rewrite !backoffs_app.
  destruct (Z.leb_spec 10 (consecutiveErrors m + 1)); cbn;
    repeat split; intros; try lia.
Qed.

Lemma fetch_failure_counts P roleInfo E m :
  fetch_fails P E m = true ->
  let m' := step P roleInfo E m in
  errors_of m' = (errors_of m + 1)%Z
  /\ disk m' = disk m
  /\ ((consecutiveErrors m + 1 < 10)%Z ->
      consecutiveErrors m' = (consecutiveErrors m + 1)%Z
      /\ backoffs (trace m') = backoffs (trace m))
  /\ ((10 <= consecutiveErrors m + 1)%Z ->
      consecutiveErrors m' = 0%Z
      /\ backoffs (trace m') = S (backoffs (trace m))).
Proof.
  unfold fetch_fails.
  destruct (result_of (fetchWork P (config m) (work_reply E)))
    as [ | why] eqn:Hf; [ discriminate | intros _ ].
  cbn zeta.
  rewrite step_unfold, (try_fetch_throws P roleInfo E m _ Hf), fetchWork_events.
  destruct (failed_counts why (add_events m [work_request P (config m)]))
    as (H1 & H2 & H3 & H4).
  cbn [add_events consecutiveErrors disk trace] in *.
  rewrite backoffs_app in *. cbn in H3, H4.
  rewrite Nat.add_0_r in *. repeat split; try assumption.
  - now apply H3.
  - now apply H3.
  - now apply H4.
  - now apply H4.
Qed.

Lemma fetch_failures_upto_ten P roleInfo Es :
  forall m,
    Es <> [] ->
    (0 <= consecutiveErrors m)%Z ->
    (consecutiveErrors m + Z.of_nat (length Es) = 10)%Z ->
    throughout (fetch_fails P) P roleInfo Es m = true ->
    let m' := run P roleInfo Es m in
    backoffs (trace m') = S (backoffs (trace m))
    /\ consecutiveErrors m' = 0%Z
    /\ errors_of m' = (errors_of m + Z.of_nat (length Es))%Z.
Proof.
  induction Es as [ | E Es IH]; intros m Hne Hpos Hsum Hall; [ easy | ].
  cbn in Hall. apply andb_prop in Hall as [HE Hall].
  destruct (fetch_failure_counts P roleInfo E m HE) as (He & _ & Hlt & Hge).
  destruct Es as [ | E2 Es].
  - cbn in Hsum. cbn.
    assert (Hten : (10 <= consecutiveErrors m + 1)%Z) by lia.
    destruct (Hge Hten) as [Hc Hb].
    repeat split; assumption.
  - cbn [length] in Hsum.
    assert (Hbelow : (consecutiveErrors m + 1 < 10)%Z) by lia.
    destruct (Hlt Hbelow) as [Hc Hb].
    change (run P roleInfo (E :: E2 :: Es) m)
      with (run P roleInfo (E2 :: Es) (step P roleInfo E m)).
    assert (Hne' : E2 :: Es <> []) by discriminate.
    assert (Hpos' : (0 <= consecutiveErrors (step P roleInfo E m))%Z)
      by (rewrite Hc; lia).
    assert (Hsum' : (consecutiveErrors (step P roleInfo E m)
                     + Z.of_nat (length (E2 :: Es)) = 10)%Z)
      by (rewrite Hc; cbn [length]; lia).
    destruct (IH (step P roleInfo E m) Hne' Hpos' Hsum' Hall)
      as (Ib & Ic & Ie).
    cbn zeta. rewrite Ib, Ic, Ie, Hb, He. repeat split.
    cbn [length]. lia.
Qed.

(** The [try] block leaves the cumulative error count alone. *)
Lemma loop_try_errors P roleInfo E m :
  errors_of (snd (loop_try P roleInfo E m)) = errors_of m.
Proof.
  destruct (loop_try_path P roleInfo E m); reflexivity.
Qed.

(** The cumulative count grows by one in a failing cycle, and is
    unchanged otherwise. *)
Lemma step_errors P roleInfo E m :
  errors_of (step P roleInfo E m) =
  (errors_of m + (if cycle_fails P roleInfo E m then 1 else 0))%Z.
Proof.
  rewrite step_unfold. unfold cycle_fails.
  pose proof (loop_try_errors P roleInfo E m) as H.
  destruct (loop_try P roleInfo E m) as [[[] | why] m1]; cbn [fst snd] in *.
  - unfold errors_of in *. cbn. lia.
  - destruct (failed_counts why m1) as (H1 & _). rewrite H1. lia.
Qed.

(** No cycle lowers the cumulative error count. *)
Lemma errors_never_reset P roleInfo E m :
  (errors_of m <= errors_of (step P roleInfo E m))%Z.
Proof.
  rewrite step_errors. destruct (cycle_fails P roleInfo E m); lia.
Qed.

(** Fewer than ten failures in [fetchWork] in a row: no backoff yet, and
    both counts have grown by their number. *)
Lemma fetch_failures_below_ten P roleInfo Es :
  forall m,
    (0 <= consecutiveErrors m)%Z ->
    (consecutiveErrors m + Z.of_nat (length Es) < 10)%Z ->
    throughout (fetch_fails P) P roleInfo Es m = true ->
    let m' := run P roleInfo Es m in
    backoffs (trace m') = backoffs (trace m)
    /\ consecutiveErrors m' = (consecutiveErrors m + Z.of_nat (length Es))%Z
    /\ errors_of m' = (errors_of m + Z.of_nat (length Es))%Z.
Proof.
  induction Es as [ | E Es IH]; intros m Hpos Hsum Hall.
  - cbn. repeat split; lia.
  - cbn in Hall. apply andb_prop in Hall as [HE Hall].
    destruct (fetch_failure_counts P roleInfo E m HE) as (He & _ & Hlt & _).
    cbn [length] in Hsum.
    destruct Hlt as [Hc Hb]; [ lia | ].
    change (run P roleInfo (E :: Es) m)
      with (run P roleInfo Es (step P roleInfo E m)).
    destruct (IH (step P roleInfo E m)) as (Ib & Ic & Ie);
      [ rewrite Hc; lia | rewrite Hc; lia | exact Hall | ].
    cbn zeta. rewrite Ib, Ic, Ie, Hb, Hc, He. cbn [length].
    repeat split; lia.
Qed.

Lemma throughout_firstn test P roleInfo Es :
  forall k m,
    throughout test P roleInfo Es m = true ->
    throughout test P roleInfo (firstn k Es) m = true.
Proof.
  induction Es as [ | E Es IH]; intros [ | k] m H; try reflexivity.
  cbn in H |- *. apply andb_prop in H as [H1 H2].
  rewrite H1. cbn [andb]. now apply IH.
Qed.

(** A cycle that fails after a work item has arrived: the counter was
    reset when the work arrived, so the [catch] block leaves it at one
    and never backs off. *)
Lemma failure_after_work P roleInfo E m work taskId :
  result_of (fetchWork P (config m) (work_reply E)) = Ok work ->
  task_of work = Some taskId ->
  cycle_fails P roleInfo E m = true ->
  let m' := step P roleInfo E m in
  consecutiveErrors m' = 1%Z
  /\ backoffs (trace m') = backoffs (trace m)
  /\ errors_of m' = (errors_of m + 1)%Z.
Proof.
  intros Hf Ht Hfail. cbn zeta. rewrite step_unfold.
  unfold cycle_fails in Hfail. revert Hfail.
  destruct (loop_try_path P roleInfo E m)
    as [why Hw | work' Hw Hn | evs _ _ Hb | evs _ _ Hb | why evs _ _ Hb
        | evs _ _ _ Hb data | why remains evs _ _ _ Hb data];
    cbn [fst]; intros Hfail; try discriminate; try congruence;
    match goal with
    | |- context [failed ?w ?x] =>
        destruct (failed_counts w x) as (He & _ & Hlt & _);
        destruct Hlt as [Hc Hk]; [ cbn; lia | ];
        rewrite He, Hc, Hk
    end;
    unfold received, backoffs, errors_of;
    cbn [consecutiveErrors trace config award with_stats stats errors];
    rewrite ?filter_app, ?Hb, ?length_app; cbn;
    repeat split; lia.
Qed.

(** C2, as amended: ten consecutive cycles that fail in [fetchWork],
    starting with the consecutive-error counter at zero, make the loop
    enter the backoff sleep exactly once, in the tenth cycle (after
    fewer cycles there is no backoff and the counter is their number),
    and leave the counter at zero; the cumulative error count grows by
    ten (to ten with fresh statistics), and no cycle ever lowers it.  A
    cycle that fails after a work item was received leaves the counter
    at one, without backoff, whatever the counter was before. *)
Theorem ten_fetch_failures P roleInfo Es m :
  consecutiveErrors m = 0%Z ->
  length Es = 10%nat ->
  throughout (fetch_fails P) P roleInfo Es m = true ->
  let m' := run P roleInfo Es m in
  backoffs (trace m') = S (backoffs (trace m))
  /\ consecutiveErrors m' = 0%Z
  /\ errors_of m' = (errors_of m + 10)%Z
  /\ (forall E0 m0, (errors_of m0 <= errors_of (step P roleInfo E0 m0))%Z)
  /\ (forall k,
        (k < 10)%nat ->
        let mk := run P roleInfo (firstn k Es) m in
        backoffs (trace mk) = backoffs (trace m)
        /\ consecutiveErrors mk = Z.of_nat k
        /\ errors_of mk = (errors_of m + Z.of_nat k)%Z)
  /\ (forall E0 m0 work taskId,
        result_of (fetchWork P (config m0) (work_reply E0)) = Ok work ->
        task_of work = Some taskId ->
        cycle_fails P roleInfo E0 m0 = true ->
        let m1 := step P roleInfo E0 m0 in
        consecutiveErrors m1 = 1%Z
        /\ backoffs (trace m1) = backoffs (trace m0)
        /\ errors_of m1 = (errors_of m0 + 1)%Z).
Proof.
  intros Hc Hlen Hall.
  destruct (fetch_failures_upto_ten P roleInfo Es m) as (Hb & Hz & He);
    try assumption; try lia.
  - intros ->. discriminate.
  - rewrite Hlen in He. cbn zeta.
    repeat (split; [ assumption | ]).
    split; [ apply errors_never_reset | ].
    split.
    + intros k Hk.
      assert (Hfirst : length (firstn k Es) = k)
        by (rewrite length_firstn; lia).
      destruct (fetch_failures_below_ten P roleInfo (firstn k Es) m)
        as (Kb & Kc & Ke);
        [ lia | rewrite Hfirst; lia | now apply throughout_firstn | ].
      rewrite Hfirst, Hc in *. repeat split; try assumption; lia.
    + intros E0 m0 work taskId Hf Ht Hfail.
      exact (failure_after_work P roleInfo E0 m0 work taskId Hf Ht Hfail).
Qed.

Lemma ten_fetch_failures_witness :
  let m := fresh trend_bot Absent in
  let m' := run bare_process trend_researcher_info (repeat cycle_down 10) m in
  backoffs (trace m') = 1%nat
  /\ consecutiveErrors m' = 0%Z
  /\ errors_of m' = 10%Z.
Proof.
  intros m m'.
  destruct (ten_fetch_failures bare_process trend_researcher_info
              (repeat cycle_down 10) m) as (H1 & H2 & H3 & _);
    [ reflexivity | reflexivity | vm_compute; reflexivity | ].
  repeat split; assumption.
Defined.

(** C2 as stated fails: ten consecutive cycles that each fail when the
    coordinator rejects the submission never enter the backoff sleep, and
    leave the counter at one; the cumulative count is ten. *)
Lemma ten_rejections_no_backoff :
  let m := fresh trend_bot Absent in
  let Es := repeat cycle_rejected 10 in
  let m' := run bare_process trend_researcher_info Es m in
  throughout (cycle_fails bare_process trend_researcher_info)
             bare_process trend_researcher_info Es m = true
  /\ backoffs (trace m') = 0%nat
  /\ consecutiveErrors m' = 1%Z
  /\ errors_of m' = 10%Z.
Proof.
  vm_compute. repeat split.
Qed.

(* ===================================================================== *)
(** * The model call *)
(* ===================================================================== *)

(** A model that names a backend is neither [openclaw] nor [none]. *)
Lemma backend_model x backend :
  AI_BACKENDS x = Some backend ->
  Str.eqb x (lit "openclaw") = false
  /\ (if Str.eqb x (lit "none") then None else AI_BACKENDS x) = Some backend.
Proof.
  intros H. split.
  - destruct (Str.eqb x (lit "openclaw")) eqn:Hx; [ | reflexivity ].
    apply str_eqb_eq in Hx. subst x. vm_compute in H. discriminate.
  - destruct (Str.eqb x (lit "none")) eqn:Hx; [ | assumption ].
    apply str_eqb_eq in Hx. subst x. vm_compute in H. discriminate.
Qed.

Lemma supported_backend x :
  In x AI_BACKEND_KEYS -> exists backend, AI_BACKENDS x = Some backend.
Proof.
  intros H. cbn in H.
  destruct H as [<- | [<- | [<- | [<- | []]]]]; eexists; vm_compute;
    reflexivity.
Qed.

Lemma or_str_none a b :
  nonempty a = None -> or_str a b = b.
Proof.
  destruct a as [[ | c r] | ]; cbn; intros H; congruence.
Qed.

(** C6: for every supported backend identifier, when neither
    [config.ai_api_key] nor the environment variable of the backend holds a
    credential, [processWithAI] returns [null] after printing one error and
    sends nothing to the network; when the role has a system prompt, the
    error is the one that reports the missing API key. *)
Theorem missing_credential P cfg prompt reply :
  In (model cfg) AI_BACKEND_KEYS ->
  exists backend,
    AI_BACKENDS (model cfg) = Some backend
    /\ (nonempty (ai_api_key cfg) = None ->
        nonempty (env P (envKey backend)) = None ->
        exists what,
          result_of (processWithAI P cfg prompt reply) = Ok JNull
          /\ events_of (processWithAI P cfg prompt reply) = [Print LErr what]
          /\ http_calls (events_of (processWithAI P cfg prompt reply)) = []
          /\ (ROLE_PROMPTS (role cfg) <> None ->
              what = MNoApiKey (label backend) (envKey backend))).
Proof.
  intros Hin. destruct (supported_backend _ Hin) as [backend Hb].
  exists backend. split; [ assumption | ]. intros Hkey Henv.
  destruct (backend_model _ _ Hb) as [Hoc Hnone].
  unfold result_of, events_of, processWithAI.
  destruct (ROLE_PROMPTS (role cfg)) as [sys | ].
  - rewrite Hoc, Hnone, (or_str_none _ _ Hkey), Henv.
    eexists. repeat split.
  - eexists. repeat split. intros H. now destruct H.
Qed.

Lemma missing_credential_witness :
  let cfg := {| name := name trend_bot; owner := owner trend_bot;
                solana_wallet := []; role := role trend_bot;
                model := lit "claude"; model_info := lit "Anthropic Claude";
                ai_api_key := None; agent_id := agent_id trend_bot;
                api_key := api_key trend_bot; server := server trend_bot;
                created_at := created_at trend_bot;
                stats := stats trend_bot |} in
  http_calls (events_of (processWithAI bare_process cfg
                           (JStr (lit "dinosaur obby")) (NetFail []))) = [].
Proof.
  intros cfg.
  destruct (missing_credential bare_process cfg (JStr (lit "dinosaur obby"))
              (NetFail [])) as (backend & Hb & H).
  - cbn. right. left. reflexivity.
  - assert (Hc : AI_BACKENDS (model cfg) = Some claude) by reflexivity.
    rewrite Hc in Hb. injection Hb as <-.
    destruct H as (what & _ & _ & Hnone & _); [ reflexivity | reflexivity | ].
    exact Hnone.
Defined.

(** What [processWithAI] does when the backend answers with text from
    which no value can be extracted: it warns and returns the text in a
    [_raw_text] wrapper. *)
Lemma processWithAI_raw_fallback P cfg prompt sys backend key status body j
      text :
  ROLE_PROMPTS (role cfg) = Some sys ->
  AI_BACKENDS (model cfg) = Some backend ->
  or_str (ai_api_key cfg) (nonempty (env P (envKey backend))) = Some key ->
  resp_ok status = true ->
  parse body = Some j ->
  extractText backend j = JStr text ->
  text <> [] ->
  truthy (extractJSON text) = false ->
  let c := processWithAI P cfg prompt (Response status body) in
  result_of c = Ok (obj [("_raw_text", JStr text)]%string)
  /\ exists call,
       is_http call = true
       /\ events_of c =
          [Print LInfo (MSending (label backend)); call;
           Print LWarn MRawFallback].
Proof.
  intros Hsys Hb Hkey Hok Hparse Htext Hne Hfalsy c. subst c.
  destruct (backend_model _ _ Hb) as [Hoc Hnone].
  unfold result_of, events_of, processWithAI.
  rewrite Hsys, Hoc, Hnone, Hkey.
  unfold log, bind, emit, try_catch, call_backend, fetch, bind, emit; cbn.
  rewrite Hok; cbn. rewrite Hparse, Htext.
  assert (Htt : truthy (JStr text) = true)
    by (destruct text; [ now destruct Hne | reflexivity ]).
  rewrite Htt. cbn. unfold lift, bind; cbn.
  rewrite Hfalsy. cbn. split; [ reflexivity | ].
  eexists. split; [ | reflexivity ]. reflexivity.
Qed.

Ltac in_trace :=
  repeat (rewrite in_app_iff || cbn [In trace failed received add_events]);
  auto 20.

(** C3, as amended: in a cycle in which the backend answers with a
    non-empty text from which no value can be extracted, [processWithAI]
    prints a warning and returns the text in a [_raw_text] wrapper, and the
    loop submits that wrapper to the coordinator; when the submission is
    accepted and the file is written, the cycle counts as completed, the
    error counters are untouched and the consecutive counter is zero. *)
Theorem raw_text_is_submitted
        P roleInfo E m work taskId sys backend key status body j text :
  result_of (fetchWork P (config m) (work_reply E)) = Ok work ->
  task_of work = Some taskId ->
  has_slice (prompt_of work) = true ->
  ROLE_PROMPTS (role (config m)) = Some sys ->
  AI_BACKENDS (model (config m)) = Some backend ->
  or_str (ai_api_key (config m)) (nonempty (env P (envKey backend)))
    = Some key ->
  ai_reply E = Response status body ->
  resp_ok status = true ->
  parse body = Some j ->
  extractText backend j = JStr text ->
  text <> [] ->
  truthy (extractJSON text) = false ->
  let wrapper := obj [("_raw_text", JStr text)]%string in
  let m' := step P roleInfo E m in
  result_of (processWithAI P (config m) (prompt_of work) (ai_reply E))
    = Ok wrapper
  /\ In (Print LWarn MRawFallback) (trace m')
  /\ In (submit_request P (config m) taskId wrapper) (trace m')
  /\ (forall ack,
         result_of (submitResult P (config m) taskId wrapper (submit_reply E))
           = Ok ack ->
         write_reply E = Written ->
         config m' = award roleInfo (config m)
         /\ consecutiveErrors m' = 0%Z
         /\ errors_of m' = errors_of m).
Proof.
  intros Hf Ht Hs Hsys Hb Hkey Hai Hok Hparse Htext Hne Hfalsy wrapper m'.
  destruct (processWithAI_raw_fallback P (config m) (prompt_of work) sys
              backend key status body j text
              Hsys Hb Hkey Hok Hparse Htext Hne Hfalsy)
    as (Hr & call & Hcall & Hev).
  rewrite <- Hai in Hr, Hev. fold wrapper in Hr.
  assert (Htr : truthy wrapper = true) by reflexivity.
  destruct (submitResult_events P (config m) taskId wrapper (submit_reply E))
    as (e & He & _).
  split; [ exact Hr | ]. subst m'. rewrite step_unfold.
  destruct (result_of (submitResult P (config m) taskId wrapper
                         (submit_reply E))) as [ack | why] eqn:Hsub.
  - destruct (write_reply E) as [ | why remains] eqn:Hw.
    + rewrite (try_saved P roleInfo E m _ _ Hf Ht Hs _ Hr Htr _ Hsub Hw).
      rewrite Hev, He. repeat split; try (now in_trace).
    + rewrite (try_save_throws P roleInfo E m _ _ Hf Ht Hs _ Hr Htr _ _ _
                 Hsub Hw).
      rewrite Hev, He. repeat split; try (now in_trace).
  - rewrite (try_submit_throws P roleInfo E m _ _ Hf Ht Hs _ Hr Htr _ Hsub).
    rewrite Hev, He. repeat split; try (now in_trace).
Qed.

Lemma raw_text_is_submitted_witness :
  let m := fresh trend_bot Absent in
  let m' := step bare_process trend_researcher_info cycle_prose m in
  In (submit_request bare_process trend_bot (JStr (lit "t1"))
        (obj [("_raw_text", JStr (lit "not json at all"))]%string))
     (trace m').
Proof.
  intros m m'.
  refine (proj1 (proj2 (proj2
    (raw_text_is_submitted bare_process trend_researcher_info cycle_prose m
       (obj [("task_id", JStr (lit "t1"));
             ("prompt", JStr (lit "dinosaur obby"))]%string)
       (JStr (lit "t1"))
       (lit prompt_trend_researcher) gemini (lit "KEY") 200%N
       (stringify
          (obj [("candidates",
                 JArr [obj [("content",
                             obj [("parts",
                                   JArr [obj [("text",
                                     JStr (lit "not json at all"))]])])]])
               ]%string))
       (obj [("candidates",
              JArr [obj [("content",
                          obj [("parts",
                                JArr [obj [("text",
                                  JStr (lit "not json at all"))]])])]])
            ]%string)
       (lit "not json at all")
       _ _ _ _ _ _ _ _ _ _ _ _))));
    try (vm_compute; reflexivity).
  discriminate.
Defined.

(** C3 as stated fails: the model answers a task with prose, extraction
    yields nothing, and yet the cycle submits a result to the coordinator
    and counts the task as completed. *)
Lemma prose_is_submitted :
  let m := fresh trend_bot Absent in
  let m' := step bare_process trend_researcher_info cycle_prose m in
  extractJSON (lit "not json at all") = JNull
  /\ In (submit_request bare_process trend_bot (JStr (lit "t1"))
           (obj [("_raw_text", JStr (lit "not json at all"))]%string))
        (http_calls (trace m'))
  /\ completed (stats (config m')) = 1%Z
  /\ points (stats (config m')) = 10%Z.
Proof.
  vm_compute. repeat split. right. right. left. reflexivity.
Qed.

(* ===================================================================== *)
(** * The identity store *)
(* ===================================================================== *)

Lemma identity_of_config_json cfg : identity_of (config_json cfg) = Some cfg.
Proof.
  destruct cfg as [n o w r mo mi key id api srv cr [c p e]].
  unfold identity_of, stats_of, field_str, field_opt, field_int, and_then,
    config_json, obj, get, nullable.
  destruct key, api; cbn; rewrite !int_value_JInt; reflexivity.
Qed.

Lemma saveConfig_written cfg m :
  saveConfig cfg Written m =
  (Ok tt,
   {| config := config m;
      consecutiveErrors := consecutiveErrors m;
      disk := Content (stringify_indent 2 (config_json cfg));
      trace := trace m ++ [WriteFile (stringify_indent 2 (config_json cfg));
                           Print LOk MConfigSaved] |}).
Proof.
  unfold saveConfig, bind, emit, set_disk, logOk, emit. cbn.
  now rewrite <- app_assoc.
Qed.

Lemma loadConfig_saved cfg m :
  disk m = Content (stringify_indent 2 (config_json cfg)) ->
  loadConfig m = (Ok (config_json cfg), m).
Proof.
  intros H. unfold loadConfig, bind, get_disk. rewrite H, config_parses.
  reflexivity.
Qed.

(** C9: for every worker identity, when [saveConfig] writes the file,
    [loadConfig] then returns the object that was saved, and the identity
    read off that object is the saved one, field for field, including the
    nested statistics. *)
Theorem save_then_load cfg m :
  let saved := saveConfig cfg Written m in
  fst saved = Ok tt
  /\ fst (loadConfig (snd saved)) = Ok (config_json cfg)
  /\ identity_of (config_json cfg) = Some cfg.
Proof.
  cbn zeta. rewrite saveConfig_written. cbn [fst snd].
  rewrite (loadConfig_saved cfg) by reflexivity.
  repeat split. apply identity_of_config_json.
Qed.

(* ===================================================================== *)
(** * Successful submissions *)
(* ===================================================================== *)

(** C8: in every cycle in which a processed work item is submitted
    successfully, the completed count grows by one and the points by the
    point value of the configured role, the identity with these counts is
    written to the file, and the loop goes on to the poll sleep; when the
    write succeeds the file holds exactly that identity, which a later
    [loadConfig] returns, and the error counters are untouched. *)
Theorem successful_submission P roleInfo E m :
  ROLES (role (config m)) = Some roleInfo ->
  submits P E m ->
  let m' := step P roleInfo E m in
  let saved := award roleInfo (config m) in
  let data := stringify_indent 2 (config_json saved) in
  completed (stats (config m')) = (completed (stats (config m)) + 1)%Z
  /\ points (stats (config m'))
     = (points (stats (config m)) + role_points roleInfo)%Z
  /\ In (WriteFile data) (trace m')
  /\ (exists evs, trace m' = trace m ++ evs ++ [Sleep POLL_INTERVAL_MS])
  /\ (write_reply E = Written ->
      config m' = saved
      /\ disk m' = Content data
      /\ fst (loadConfig m') = Ok (config_json saved)
      /\ identity_of (config_json saved) = Some saved
      /\ consecutiveErrors m' = 0%Z
      /\ errors_of m' = errors_of m).
Proof.
  intros _ (work & taskId & r & ack & Hf & Ht & Hs & Hr & Htr & Hsub).
  cbn zeta. rewrite step_unfold.
  destruct (write_reply E) as [ | why remains] eqn:Hw.
  - rewrite (try_saved P roleInfo E m _ _ Hf Ht Hs _ Hr Htr _ Hsub Hw).
    split; [ reflexivity | ]. split; [ reflexivity | ].
    split; [ in_trace | ].
    split.
    { match goal with
      | |- exists _, trace (add_events {| trace := trace m ++ ?a ++ ?b |} _)
                     = _ =>
          exists (a ++ b)
      end.
      cbn [add_events trace]. now rewrite <- !app_assoc. }
    intros _. split; [ reflexivity | ]. split; [ reflexivity | ].
    split.
    { rewrite (loadConfig_saved (award roleInfo (config m)));
        reflexivity. }
    split; [ apply identity_of_config_json | ].
    split; reflexivity.
  - rewrite (try_save_throws P roleInfo E m _ _ Hf Ht Hs _ Hr Htr _ _ _
               Hsub Hw).
    split; [ reflexivity | ]. split; [ reflexivity | ].
    split; [ in_trace | ].
    split; [ | discriminate ].
    match goal with
    | |- exists _, trace (failed ?w {| trace := trace m ++ ?a ++ ?b |}) = _ =>
        exists (a ++ b ++ [Print LErr (MWorkerError 1 w)])
    end.
    unfold failed. cbn [trace consecutiveErrors Z.add Z.leb Z.compare
      Pos.compare Pos.compare_cont MAX_CONSECUTIVE_ERRORS].
    now rewrite <- !app_assoc.
Qed.

Lemma submits_cycle_good :
  submits bare_process cycle_good (fresh trend_bot Absent).
Proof.
  exists (obj [("task_id", JStr (lit "t1"));
               ("prompt", JStr (lit "dinosaur obby"))]%string),
    (JStr (lit "t1")),
    (obj [("trend_name", JStr (lit "dinos"))]%string),
    (obj [("ok", JBool true)]%string).
  repeat split; vm_compute; reflexivity.
Qed.

Lemma successful_submission_witness :
  let m := fresh trend_bot Absent in
  let m' := step bare_process trend_researcher_info cycle_good m in
  completed (stats (config m')) = 1%Z /\ points (stats (config m')) = 10%Z.
Proof.
  intros m m'.
  destruct (successful_submission bare_process trend_researcher_info
              cycle_good m eq_refl submits_cycle_good) as (H1 & H2 & _).
  split; [ exact H1 | exact H2 ].
Defined.

(* ===================================================================== *)
(** * What the file knows of the errors *)
(* ===================================================================== *)

(** No cycle of [Es], run one after the other, gets as far as a
    successful submission. *)
Fixpoint never_submits (P : process) (roleInfo : RoleInfo)
         (Es : list cycle_env) (m : machine) : Prop :=
  match Es with
  | [] => True
  | E :: Es' =>
      ~ submits P E m /\ never_submits P roleInfo Es' (step P roleInfo E m)
  end.

(** The number of failing cycles among [Es]. *)
Fixpoint failures (P : process) (roleInfo : RoleInfo)
         (Es : list cycle_env) (m : machine) : nat :=
  match Es with
  | [] => 0
  | E :: Es' =>
      (if cycle_fails P roleInfo E m then 1 else 0)
      + failures P roleInfo Es' (step P roleInfo E m)
  end.

(** The writes of the identity file in a trace. *)
Definition writes (tr : list event) : list event := filter is_write tr.

Lemma writes_app a b : writes (a ++ b) = writes a ++ writes b.
Proof. apply filter_app. Qed.

Lemma failed_quiet why m :
  disk (failed why m) = disk m
  /\ writes (trace (failed why m)) = writes (trace m).
Proof.
  unfold failed. cbn [disk trace]. split; [ reflexivity | ].
  rewrite !writes_app.
  destruct (MAX_CONSECUTIVE_ERRORS <=? consecutiveErrors m + 1)%Z; cbn;
    now rewrite app_nil_r.
Qed.

(** A cycle without a successful submission leaves the file alone. *)
Lemma quiet_cycle P roleInfo E m :
  ~ submits P E m ->
  disk (step P roleInfo E m) = disk m
  /\ writes (trace (step P roleInfo E m)) = writes (trace m).
Proof.
  intros Hno. rewrite step_unfold.
  destruct (loop_try_path P roleInfo E m);
    try contradiction;
    repeat match goal with
           | |- context [failed ?w ?x] =>
               let H1 := fresh in
               let H2 := fresh in
               destruct (failed_quiet w x) as [H1 H2]; rewrite H1, H2;
               clear H1 H2
           end;
    unfold received, add_events; cbn [disk trace];
    rewrite ?writes_app; unfold writes at 2 3;
    repeat match goal with
           | H : filter is_write _ = [] |- _ => rewrite H; clear H
           end;
    cbn; rewrite ?app_nil_r; split; reflexivity.
Qed.

(** C10: over any run of cycles none of which submits successfully, the
    identity file is neither written nor changed, while every failing
    cycle adds one to the cumulative error count of the in-memory
    identity; so what a restart loads is the identity saved before the
    run, whose error count knows nothing of these failures. *)
Theorem errors_lost_on_restart P roleInfo Es m saved :
  never_submits P roleInfo Es m ->
  disk m = Content (stringify_indent 2 (config_json saved)) ->
  let m' := run P roleInfo Es m in
  disk m' = disk m
  /\ writes (trace m') = writes (trace m)
  /\ errors_of m' = (errors_of m + Z.of_nat (failures P roleInfo Es m))%Z
  /\ fst (loadConfig m') = Ok (config_json saved)
  /\ option_map (fun c => errors (stats c))
                (identity_of (config_json saved))
     = Some (errors (stats saved)).
Proof.
  intros Hnever Hdisk.
  assert (Hrun : disk (run P roleInfo Es m) = disk m
                 /\ writes (trace (run P roleInfo Es m)) = writes (trace m)
                 /\ errors_of (run P roleInfo Es m)
                    = (errors_of m + Z.of_nat (failures P roleInfo Es m))%Z).
  { clear Hdisk. revert m Hnever.
    induction Es as [ | E Es IH]; intros m Hnever.
    - cbn. repeat split. lia.
    - destruct Hnever as [Hno Hnever].
      destruct (quiet_cycle P roleInfo E m Hno) as [Hd Hw].
      destruct (IH (step P roleInfo E m) Hnever) as (Id & Iw & Ie).
      change (run P roleInfo (E :: Es) m)
        with (run P roleInfo Es (step P roleInfo E m)).
      rewrite Id, Iw, Ie, Hd, Hw, step_errors. cbn [failures].
      repeat split. destruct (cycle_fails P roleInfo E m); lia. }
  destruct Hrun as (Hd & Hw & He). cbn zeta.
  split; [ exact Hd | ]. split; [ exact Hw | ]. split; [ exact He | ].
  split.
  - rewrite (loadConfig_saved saved); [ reflexivity | ].
    now rewrite Hd.
  - now rewrite identity_of_config_json.
Qed.

Lemma errors_lost_on_restart_witness :
  let m := step bare_process trend_researcher_info cycle_good
                (fresh trend_bot Absent) in
  let m' := run bare_process trend_researcher_info
                [cycle_down; cycle_down; cycle_down] m in
  errors_of m' = (errors_of m + 3)%Z
  /\ fst (loadConfig m') = Ok (config_json (config m)).
Proof.
  intros m m'.
  assert (Hnever : never_submits bare_process trend_researcher_info
                     [cycle_down; cycle_down; cycle_down] m).
  { repeat split;
      intros (work & taskId & r & ack & Hf & _);
      vm_compute in Hf; discriminate. }
  assert (Hdisk : disk m
                  = Content (stringify_indent 2 (config_json (config m))))
    by (vm_compute; reflexivity).
  destruct (errors_lost_on_restart bare_process trend_researcher_info
              [cycle_down; cycle_down; cycle_down] m (config m)
              Hnever Hdisk) as (_ & _ & He & Hl & _).
  split; [ | exact Hl ].
  unfold m'. rewrite He. f_equal.
Defined.


(* ===================================================================== *)
(** * The strategies of the extractor, in the words of the specification *)
(* ===================================================================== *)

(** The part of [s] from the first [c] on. *)
Fixpoint from_first (c : N) (s : str) : option str :=
  match s with
  | [] => None
  | x :: s' => if (x =? c)%N then Some s else from_first c s'
  end.

(** The part of [s] up to the last [c]. *)
Fixpoint upto_last (c : N) (s : str) : option str :=
  match s with
  | [] => None
  | x :: s' =>
      match upto_last c s' with
      | Some p => Some (x :: p)
      | None => if (x =? c)%N then Some [x] else None
      end
  end.

(** The span from the first [o] to the last [c] after it. *)
Definition greedy_span (o c : N) (s : str) : option str :=
  match from_first o s with
  | Some (x :: rest) => option_map (cons x) (upto_last c rest)
  | _ => None
  end.

(** The text after the first occurrence of [p]. *)
Fixpoint after_first (p s : str) : option str :=
  match strip_prefix p s with
  | Some r => Some r
  | None =>
      match s with
      | [] => None
      | _ :: s' => after_first p s'
      end
  end.

(** The text before the first occurrence of [p]. *)
Fixpoint before_first (p s : str) : option str :=
  match strip_prefix p s with
  | Some _ => Some []
  | None =>
      match s with
      | [] => None
      | c :: s' => option_map (cons c) (before_first p s')
      end
  end.

Definition fence : str := lit "```".

(** The interior of the first fenced block: what lies between the first
    fence, with its tag [json] if there is one, and the next fence,
    trimmed. *)
Definition fence_interior (s : str) : option str :=
  match after_first fence s with
  | None => None
  | Some rest =>
      let rest' :=
        match strip_prefix (lit "json") rest with
        | Some r => r
        | None => rest
        end in
      option_map trim (before_first fence rest')
  end.

(** The first of the attempts that parses. *)
Fixpoint first_parse (attempts : list (option str)) : json :=
  match attempts with
  | [] => JNull
  | Some t :: rest =>
      match parse t with
      | Some v => v
      | None => first_parse rest
      end
  | None :: rest => first_parse rest
  end.

(** The extractor as the specification describes it. *)
Definition extract_in_order (text : str) : json :=
  first_parse [ Some text;
                fence_interior text;
                greedy_span 123 125 text;
                greedy_span 91 93 text ].

(* ===================================================================== *)
(** * What the patterns of [extractJSON] match *)
(* ===================================================================== *)

(** ** [{...}] and [[...]] *)

Definition span_re (o c : N) : regex :=
  Group (Cat (Lit [o]) (Cat (Star any) (Lit [c]))).

(** The greedy repetition followed by [c]: the last [c] wins. *)
Lemma star_any_last c whole : forall s pre,
  whole = pre ++ s ->
  star_greedy any s
    (fun s' =>
       match strip_prefix [c] s' with
       | Some s'' => Some (firstn (length whole - length s'') whole)
       | None => None
       end)
  = option_map (app pre) (upto_last c s).
Proof.
  induction s as [ | x s IH]; intros pre Hw; [ reflexivity | ].
  cbn [star_greedy any upto_last].
  rewrite (IH (pre ++ [x])) by (now rewrite <- app_assoc).
  destruct (upto_last c s) as [p | ]; cbn [option_map or_else].
  - now rewrite <- app_assoc.
  - cbn [strip_prefix]. rewrite N.eqb_sym.
    destruct (x =? c)%N; [ | reflexivity ]. cbn [option_map].
    subst whole. rewrite length_app. cbn [length].
    replace (length pre + S (length s) - length s)%nat
      with (length (pre ++ [x]) + 0)%nat
      by (rewrite length_app; cbn; lia).
    change (pre ++ x :: s) with (pre ++ [x] ++ s). rewrite app_assoc.
    rewrite firstn_app_2. cbn [firstn]. now rewrite app_nil_r.
Qed.

Lemma match_here_span o c s :
  match_here (span_re o c) s =
  match s with
  | x :: rest =>
      if (x =? o)%N then option_map (cons x) (upto_last c rest) else None
  | [] => None
  end.
Proof.
  unfold match_here, span_re. cbn [rmatch strip_prefix].
  destruct s as [ | x rest]; [ reflexivity | ].
  rewrite N.eqb_sym. destruct (N.eqb_spec x o) as [-> | Hx]; [ | reflexivity ].
  exact (star_any_last c (o :: rest) rest [o] eq_refl).
Qed.

Lemma upto_last_none c s : upto_last c s = None -> ~ In c s.
Proof.
  induction s as [ | x s IH]; cbn [upto_last In]; [ tauto | ].
  destruct (upto_last c s); [ discriminate | ].
  destruct (N.eqb_spec x c); [ discriminate | ]. intros _ [H | H];
    [ contradiction | now apply IH ].
Qed.

Lemma upto_last_absent c s : ~ In c s -> upto_last c s = None.
Proof.
  induction s as [ | x s IH]; cbn [upto_last In]; [ reflexivity | ].
  intros H. rewrite IH by tauto.
  destruct (N.eqb_spec x c); [ subst; tauto | reflexivity ].
Qed.

Lemma greedy_span_absent o c s : ~ In c s -> greedy_span o c s = None.
Proof.
  unfold greedy_span. induction s as [ | x s IH]; [ reflexivity | ].
  cbn [from_first In]. intros H.
  destruct (x =? o)%N.
  - rewrite upto_last_absent by tauto. reflexivity.
  - apply IH. tauto.
Qed.

(** The leftmost match of [o...c] is the span from the first [o] to the
    last [c]. *)
Lemma match_group1_span o c s :
  match_group1 (span_re o c) s = greedy_span o c s.
Proof.
  induction s as [ | x s IH]; [ reflexivity | ].
  cbn [match_group1]. rewrite match_here_span, IH.
  unfold greedy_span at 2. cbn [from_first].
  destruct (x =? o)%N; [ | reflexivity ].
  destruct (upto_last c s) eqn:Hu; [ reflexivity | ]. cbn [option_map].
  apply greedy_span_absent. now apply upto_last_none.
Qed.


(** ** The fenced block *)

Definition suffix (t s : str) : Prop := exists pre, s = pre ++ t.

Lemma suffix_refl s : suffix s s.
Proof. now exists []. Qed.

Lemma suffix_cons c t s : suffix t s -> suffix t (c :: s).
Proof. intros [pre ->]. now exists (c :: pre). Qed.

Lemma suffix_tail c t s : suffix (c :: t) s -> suffix t s.
Proof.
  intros [pre ->]. exists (pre ++ [c]). now rewrite <- app_assoc.
Qed.

Lemma suffix_trans a b c : suffix a b -> suffix b c -> suffix a c.
Proof.
  intros [p ->] [q ->]. exists (q ++ p). now rewrite app_assoc.
Qed.

Lemma suffix_length t s : suffix t s -> (length t <= length s)%nat.
Proof. intros [pre ->]. rewrite length_app. lia. Qed.

(** Of two suffixes of a string, the shorter is a suffix of the longer. *)
Lemma suffix_total a b s :
  suffix a s -> suffix b s -> (length a <= length b)%nat -> suffix a b.
Proof.
  intros [p Hp] [q Hq] Hlen. subst s.
  assert (Hl : (length q <= length p)%nat).
  { apply (f_equal (@length N)) in Hq. rewrite !length_app in Hq. lia. }
  revert p Hq Hl. induction q as [ | x q IH]; intros p Hq Hl.
  - cbn in Hq. subst b. now exists p.
  - destruct p as [ | y p]; [ cbn in Hl; lia | ].
    cbn in Hq. injection Hq as _ Hq. apply (IH p Hq). cbn in Hl. lia.
Qed.

Lemma strip_prefix_app p r : strip_prefix p (p ++ r) = Some r.
Proof.
  induction p as [ | x p IH]; [ reflexivity | ].
  cbn. now rewrite N.eqb_refl.
Qed.

Lemma strip_prefix_some p s r : strip_prefix p s = Some r -> s = p ++ r.
Proof.
  revert s. induction p as [ | x p IH]; intros s; cbn.
  - intros H. now injection H as ->.
  - destruct s as [ | y s]; [ discriminate | ].
    destruct (N.eqb_spec x y) as [-> | ]; [ | discriminate ].
    intros H. now rewrite (IH s H).
Qed.

Lemma includes_suffix p t s :
  suffix t s -> includes t p = true -> includes s p = true.
Proof.
  intros [pre ->] H. induction pre as [ | c pre IH]; [ exact H | ].
  cbn [app includes]. rewrite IH. apply orb_true_r.
Qed.

Lemma includes_occurrence p a b : includes (a ++ p ++ b) p = true.
Proof.
  apply (includes_suffix p (p ++ b)); [ now exists a | ].
  destruct p as [ | x p]; [ destruct b; reflexivity | ].
  cbn [app includes]. unfold starts_with.
  change (x :: p ++ b) with ((x :: p) ++ b). now rewrite strip_prefix_app.
Qed.

Lemma includes_starts p s :
  includes s p = false -> forall t, suffix t s -> starts_with p t = false.
Proof.
  intros H t Ht. destruct (starts_with p t) eqn:Hs; [ | reflexivity ].
  assert (includes t p = true) by (destruct t; cbn; now rewrite Hs).
  now rewrite (includes_suffix p t s Ht) in H.
Qed.

(** The capture of the lazy repetition ends where the closing fence, or
    a line break and the closing fence, begins. *)
Definition closes_at (q : str) : bool :=
  starts_with (nl ++ fence) q || starts_with fence q.

Fixpoint before_close (s : str) : option str :=
  if closes_at s then Some []
  else
    match s with
    | [] => None
    | c :: s' => option_map (cons c) (before_close s')
    end.

Definition closing : regex := Cat (Opt (Lit nl)) (Lit fence).

Lemma closing_match q cap :
  rmatch closing q cap (fun _ cap' => Some cap')
  = if closes_at q then Some cap else None.
Proof.
  unfold closing, closes_at, starts_with, nl. cbn [rmatch app strip_prefix].
  destruct q as [ | c q]; [ reflexivity | ].
  destruct (N.eqb_spec 10 c) as [<- | Hc].
  - change (strip_prefix fence (10%N :: q)) with (@None str).
    destruct (strip_prefix fence q); reflexivity.
  - cbn [or_else orb]. destruct (strip_prefix fence (c :: q)); reflexivity.
Qed.

Lemma lazy_capture whole : forall s pre,
  whole = pre ++ s ->
  star_lazy any s
    (fun s' =>
       if closes_at s' then Some (firstn (length whole - length s') whole)
       else None)
  = option_map (app pre) (before_close s).
Proof.
  induction s as [ | x s IH]; intros pre Hw; subst whole.
  - cbn [star_lazy before_close]. destruct (closes_at []); [ | reflexivity ].
    cbn [or_else option_map]. rewrite app_nil_r, Nat.sub_0_r.
    now rewrite firstn_all.
  - cbn [star_lazy before_close any]. destruct (closes_at (x :: s)).
    + cbn [or_else option_map]. rewrite length_app.
      replace (length pre + length (x :: s) - length (x :: s))%nat
        with (length pre + 0)%nat by lia.
      rewrite firstn_app_2. cbn [firstn]. reflexivity.
    + cbn [or_else].
      rewrite (IH (pre ++ [x])) by (now rewrite <- app_assoc).
      destruct (before_close s); cbn [option_map]; [ | reflexivity ].
      now rewrite <- app_assoc.
Qed.

(** The greedy repetition: the continuation is tried first after the
    longest run. *)
Fixpoint skip_while (p : N -> bool) (s : str) : str :=
  match s with
  | c :: s' => if p c then skip_while p s' else s
  | [] => []
  end.

Lemma skip_while_space s : skip_while is_space s = trim_start s.
Proof. induction s as [ | c s IH]; cbn; [ | rewrite IH ]; reflexivity. Qed.

Lemma star_greedy_first (A : Type) p (k : str -> option A) x : forall s,
  k (skip_while p s) = Some x -> star_greedy p s k = Some x.
Proof.
  induction s as [ | c s IH]; cbn [skip_while star_greedy]; [ easy | ].
  destruct (p c); [ | easy ]. intros H. now rewrite (IH H).
Qed.

Lemma star_greedy_none (A : Type) p (k : str -> option A) : forall s,
  (forall t, suffix t s -> k t = None) -> star_greedy p s k = None.
Proof.
  induction s as [ | c s IH]; intros H; cbn [star_greedy].
  - apply H, suffix_refl.
  - rewrite IH by (intros t Ht; apply H; now apply suffix_cons).
    cbn [or_else]. rewrite (H (c :: s) (suffix_refl _)).
    now destruct (p c).
Qed.

Lemma skip_while_suffix p s : suffix (skip_while p s) s.
Proof.
  induction s as [ | c s IH]; cbn [skip_while]; [ apply suffix_refl | ].
  destruct (p c); [ now apply suffix_cons | apply suffix_refl ].
Qed.

Lemma skip_while_head p s :
  match skip_while p s with
  | c :: _ => p c = false
  | [] => True
  end.
Proof.
  induction s as [ | c s IH]; cbn [skip_while]; [ exact I | ].
  destruct (p c) eqn:Hc; [ exact IH | exact Hc ].
Qed.

(** A closing fence ahead means the text includes a fence. *)
Lemma before_close_includes s c :
  before_close s = Some c -> includes s fence = true.
Proof.
  revert c. induction s as [ | x s IH]; intros c; cbn [before_close].
  - unfold closes_at. cbn. discriminate.
  - destruct (closes_at (x :: s)) eqn:Hc.
    + intros _. unfold closes_at in Hc. apply orb_true_iff in Hc as [Hc | Hc].
      * unfold starts_with in Hc.
        destruct (strip_prefix (nl ++ fence) (x :: s)) as [r | ] eqn:Hs;
          [ | discriminate ].
        apply strip_prefix_some in Hs. rewrite Hs.
        rewrite <- app_assoc. apply includes_occurrence.
      * cbn [includes]. now rewrite Hc.
    + destruct (before_close s) as [c' | ] eqn:Hb; [ | discriminate ].
      intros _. cbn [includes]. rewrite (IH c' eq_refl). apply orb_true_r.
Qed.

Lemma no_fence_no_close s t :
  includes s fence = false -> suffix t s -> before_close t = None.
Proof.
  intros H Ht. destruct (before_close t) as [c | ] eqn:Hb; [ | reflexivity ].
  apply before_close_includes in Hb.
  now rewrite (includes_suffix fence t s Ht Hb) in H.
Qed.

(** After the opening fence and its tag: white space, an optional line
    break, the captured interior and the closing fence. *)
Definition after_tag : regex :=
  Cat (Star is_space)
    (Cat (Opt (Lit nl)) (Cat (Group (StarLazy any)) closing)).

Definition interior_re : regex :=
  Cat (Opt (Lit nl)) (Cat (Group (StarLazy any)) closing).

Lemma star_lazy_ext (A : Type) p (k1 k2 : str -> option A) : forall s,
  (forall t, k1 t = k2 t) -> star_lazy p s k1 = star_lazy p s k2.
Proof.
  induction s as [ | c s IH]; intros H; cbn [star_lazy]; rewrite H.
  - reflexivity.
  - now rewrite (IH H).
Qed.

Lemma star_greedy_ext (A : Type) p (k1 k2 : str -> option A) : forall s,
  (forall t, k1 t = k2 t) -> star_greedy p s k1 = star_greedy p s k2.
Proof.
  induction s as [ | c s IH]; intros H; cbn [star_greedy]; rewrite H.
  - reflexivity.
  - now rewrite (IH H).
Qed.

(** The captured interior and the closing fence. *)
Lemma capture_match s :
  rmatch (Cat (Group (StarLazy any)) closing) s []
         (fun _ cap => Some cap)
  = before_close s.
Proof.
  cbn [rmatch].
  rewrite (star_lazy_ext _ any _
             (fun s' =>
                if closes_at s'
                then Some (firstn (length s - length s') s) else None))
    by (intros t; apply closing_match).
  rewrite (lazy_capture s s [] eq_refl).
  now destruct (before_close s).
Qed.

Lemma interior_match r :
  rmatch interior_re r [] (fun _ cap => Some cap)
  = or_else
      match strip_prefix nl r with
      | Some r' => before_close r'
      | None => None
      end
      (fun _ => before_close r).
Proof.
  unfold interior_re.
  change (rmatch (Cat (Opt (Lit nl)) (Cat (Group (StarLazy any)) closing))
                 r [] (fun _ cap => Some cap))
    with (or_else
            match strip_prefix nl r with
            | Some r' =>
                rmatch (Cat (Group (StarLazy any)) closing) r' []
                       (fun _ cap => Some cap)
            | None => None
            end
            (fun _ =>
               rmatch (Cat (Group (StarLazy any)) closing) r []
                      (fun _ cap => Some cap))).
  rewrite capture_match. destruct (strip_prefix nl r);
    [ now rewrite capture_match | reflexivity ].
Qed.

Lemma includes_before_close s :
  includes s fence = true -> exists c, before_close s = Some c.
Proof.
  induction s as [ | x s IH]; [ discriminate | ].
  cbn [includes before_close]. intros H.
  destruct (closes_at (x :: s)) eqn:Hc; [ eauto | ].
  unfold closes_at in Hc. apply orb_false_iff in Hc as [_ Hc].
  rewrite Hc in H. cbn [orb] in H.
  destruct (IH H) as [c ->]. cbn. eauto.
Qed.

Lemma space_is_no_fence x s :
  is_space x = true -> starts_with fence (x :: s) = false.
Proof.
  intros Hx. unfold starts_with. change fence with [96; 96; 96]%N.
  cbn [strip_prefix].
  destruct (N.eqb_spec 96 x) as [<- | ]; [ | reflexivity ].
  vm_compute in Hx. discriminate.
Qed.

Lemma includes_skip_space s :
  includes s fence = true ->
  includes (skip_while is_space s) fence = true.
Proof.
  induction s as [ | x s IH]; [ easy | ].
  cbn [skip_while]. destruct (is_space x) eqn:Hx; [ | easy ].
  intros H. apply IH. cbn [includes] in H.
  now rewrite (space_is_no_fence x s Hx) in H.
Qed.

(** After the tag, the match is decided where the white space ends. *)
Lemma after_tag_match r :
  rmatch after_tag r [] (fun _ cap => Some cap)
  = before_close (trim_start r).
Proof.
  unfold after_tag.
  transitivity
    (star_greedy is_space r
       (fun r' =>
          or_else
            match strip_prefix nl r' with
            | Some r'' => before_close r''
            | None => None
            end
            (fun _ => before_close r'))).
  { apply (star_greedy_ext _ is_space
             (fun r' => rmatch interior_re r' [] (fun _ cap => Some cap))).
    intros t. apply interior_match. }
  rewrite <- skip_while_space.
  pose proof (skip_while_head is_space r) as Hhead.
  set (r2 := skip_while is_space r) in *.
  assert (Hnl : strip_prefix nl r2 = None).
  { destruct r2 as [ | c r2]; [ reflexivity | ]. unfold nl.
    cbn [strip_prefix].
    destruct (N.eqb_spec 10 c) as [<- | ]; [ | reflexivity ].
    vm_compute in Hhead. discriminate. }
  destruct (before_close r2) as [c | ] eqn:Hb.
  - apply star_greedy_first. fold r2. now rewrite Hnl, Hb.
  - apply star_greedy_none. intros t Ht.
    assert (Hnone : includes r fence = false).
    { destruct (includes r fence) eqn:Hi; [ | reflexivity ].
      apply includes_skip_space in Hi. fold r2 in Hi.
      destruct (includes_before_close r2 Hi) as [c Hc]. congruence. }
    rewrite (no_fence_no_close r t Hnone Ht).
    destruct (strip_prefix nl t) as [t' | ] eqn:Hs; [ | reflexivity ].
    cbn [or_else]. apply strip_prefix_some in Hs.
    rewrite (no_fence_no_close r t' Hnone); [ reflexivity | ].
    apply suffix_trans with (b := t); [ | exact Ht ].
    exists nl. exact Hs.
Qed.

Definition untag (rest : str) : str :=
  match strip_prefix (lit "json") rest with
  | Some r => r
  | None => rest
  end.

Lemma no_close_no_fence r :
  before_close (trim_start r) = None -> includes r fence = false.
Proof.
  intros H. destruct (includes r fence) eqn:Hi; [ | reflexivity ].
  apply includes_skip_space in Hi. rewrite skip_while_space in Hi.
  destruct (includes_before_close _ Hi) as [c Hc]. congruence.
Qed.

Lemma trim_start_suffix r : suffix (trim_start r) r.
Proof. rewrite <- skip_while_space. apply skip_while_suffix. Qed.

Lemma includes_tagged r :
  includes (lit "json" ++ r) fence = includes r fence.
Proof. reflexivity. Qed.

Lemma untag_no_fence rest :
  includes (untag rest) fence = false -> includes rest fence = false.
Proof.
  unfold untag. destruct (strip_prefix (lit "json") rest) as [r | ] eqn:Hs;
    [ | easy ].
  apply strip_prefix_some in Hs. subst rest. now rewrite includes_tagged.
Qed.

(** After the opening fence: the optional tag, then the rest. *)
Lemma tagged_match rest :
  rmatch (Cat (Opt (Lit (lit "json"))) after_tag) rest []
         (fun _ cap => Some cap)
  = before_close (trim_start (untag rest)).
Proof.
  change (rmatch (Cat (Opt (Lit (lit "json"))) after_tag) rest []
                 (fun _ cap => Some cap))
    with (or_else
            match strip_prefix (lit "json") rest with
            | Some r => rmatch after_tag r [] (fun _ cap => Some cap)
            | None => None
            end
            (fun _ => rmatch after_tag rest [] (fun _ cap => Some cap))).
  unfold untag. rewrite after_tag_match.
  destruct (strip_prefix (lit "json") rest) as [r | ] eqn:Hs;
    [ | reflexivity ].
  rewrite after_tag_match.
  destruct (before_close (trim_start r)) as [c | ] eqn:Hb; [ reflexivity | ].
  cbn [or_else]. apply no_close_no_fence in Hb.
  apply (no_fence_no_close rest); [ | apply trim_start_suffix ].
  apply untag_no_fence. unfold untag. now rewrite Hs.
Qed.

Lemma match_here_fence s :
  match_here fence_re s =
  match strip_prefix fence s with
  | Some rest => before_close (trim_start (untag rest))
  | None => None
  end.
Proof.
  unfold match_here.
  change (rmatch fence_re s [] (fun _ cap => Some cap))
    with (match strip_prefix fence s with
          | Some rest =>
              rmatch (Cat (Opt (Lit (lit "json"))) after_tag) rest []
                     (fun _ cap => Some cap)
          | None => None
          end).
  destruct (strip_prefix fence s); [ apply tagged_match | reflexivity ].
Qed.

(** What the fence pattern captures: the text after the first fence and
    its tag, from the end of the white space to the closing fence. *)
Definition fence_capture (s : str) : option str :=
  match after_first fence s with
  | Some rest => before_close (trim_start (untag rest))
  | None => None
  end.

Lemma after_first_suffix p s r : after_first p s = Some r -> suffix r s.
Proof.
  revert r. induction s as [ | c s IH]; intros r; cbn [after_first].
  - destruct (strip_prefix p []) eqn:Hs; [ | discriminate ].
    intros H. injection H as ->. apply strip_prefix_some in Hs.
    now exists p.
  - destruct (strip_prefix p (c :: s)) eqn:Hs.
    + intros H. injection H as ->. apply strip_prefix_some in Hs.
      now exists p.
    + intros H. apply suffix_cons. now apply IH.
Qed.

Lemma after_first_shorter p s r :
  after_first p s = Some r -> (length r + length p <= length s)%nat.
Proof.
  revert r. induction s as [ | c s IH]; intros r; cbn [after_first].
  - destruct (strip_prefix p []) eqn:Hs; [ | discriminate ].
    intros H. injection H as ->. apply strip_prefix_some in Hs.
    apply (f_equal (@length N)) in Hs. rewrite length_app in Hs. lia.
  - destruct (strip_prefix p (c :: s)) eqn:Hs.
    + intros H. injection H as ->. apply strip_prefix_some in Hs.
      rewrite Hs, length_app. lia.
    + intros H. specialize (IH r H). cbn [length]. lia.
Qed.

Lemma untag_suffix r : suffix (untag r) r.
Proof.
  unfold untag. destruct (strip_prefix (lit "json") r) eqn:Hs;
    [ | apply suffix_refl ].
  apply strip_prefix_some in Hs. now exists (lit "json").
Qed.

(** With no fence after the first one, no later position matches. *)
Lemma fence_capture_none rest s :
  includes rest fence = false ->
  (forall r, after_first fence s = Some r -> suffix r rest) ->
  fence_capture s = None.
Proof.
  intros Hno Hs. unfold fence_capture.
  destruct (after_first fence s) as [r | ] eqn:Ha; [ | reflexivity ].
  apply (no_fence_no_close rest); [ exact Hno | ].
  apply suffix_trans with (b := untag r); [ apply trim_start_suffix | ].
  apply suffix_trans with (b := r); [ apply untag_suffix | ].
  now apply Hs.
Qed.

(** The leftmost match of the fence pattern. *)
Lemma match_group1_fence s : match_group1 fence_re s = fence_capture s.
Proof.
  induction s as [ | c s IH].
  - reflexivity.
  - cbn [match_group1]. rewrite match_here_fence, IH.
    unfold fence_capture at 2. cbn [after_first].
    destruct (strip_prefix fence (c :: s)) as [rest | ] eqn:Hs;
      [ | reflexivity ].
    destruct (before_close (trim_start (untag rest))) as [g | ] eqn:Hb;
      [ reflexivity | ].
    apply no_close_no_fence, untag_no_fence in Hb.
    apply (fence_capture_none rest); [ exact Hb | ].
    intros r Hr. apply strip_prefix_some in Hs.
    apply (suffix_total r rest (c :: s)).
    + apply suffix_cons. now apply (after_first_suffix fence).
    + exists fence. exact Hs.
    + pose proof (after_first_shorter fence s r Hr).
      apply (f_equal (@length N)) in Hs. rewrite length_app in Hs.
      cbn [length] in Hs. change (length fence) with 3%nat in *. lia.
Qed.

(** ** Trimming the capture *)

Lemma trim_space x s : is_space x = true -> trim (x :: s) = trim s.
Proof. intros H. unfold trim. cbn [trim_start]. now rewrite H. Qed.

Lemma trim_start_app a b :
  trim_start a <> [] -> trim_start (a ++ b) = trim_start a ++ b.
Proof.
  induction a as [ | x a IH]; cbn [trim_start app]; [ easy | ].
  destruct (is_space x); [ exact IH | reflexivity ].
Qed.

Lemma trim_start_spaces a b :
  trim_start a = [] -> trim_start (a ++ b) = trim_start b.
Proof.
  induction a as [ | x a IH]; cbn [trim_start app]; [ easy | ].
  destruct (is_space x); [ exact IH | discriminate ].
Qed.

(** A line break at the end is trimmed away. *)
Lemma trim_line_break a : trim (a ++ nl) = trim a.
Proof.
  unfold trim, trim_end.
  destruct (trim_start a) as [ | x t] eqn:Ha.
  - rewrite (trim_start_spaces a nl Ha). reflexivity.
  - rewrite trim_start_app by (rewrite Ha; discriminate).
    rewrite Ha, rev_app_distr. reflexivity.
Qed.

Lemma before_first_here p r : before_first p (p ++ r) = Some [].
Proof.
  destruct (p ++ r) as [ | c t] eqn:Hs; cbn [before_first];
    rewrite <- Hs, strip_prefix_app; reflexivity.
Qed.

(** The capture is the text before the next fence, but for a line break
    at its end. *)
Lemma before_close_first s :
  match before_close s, before_first fence s with
  | Some a, Some b => b = a \/ b = a ++ nl
  | None, None => True
  | _, _ => False
  end.
Proof.
  induction s as [ | c s IH]; [ exact I | ].
  cbn [before_close before_first].
  destruct (closes_at (c :: s)) eqn:Hc.
  - unfold closes_at in Hc.
    destruct (strip_prefix fence (c :: s)) as [r | ] eqn:Hf;
      [ now left | ].
    unfold starts_with at 2 in Hc. rewrite Hf, orb_false_r in Hc.
    unfold starts_with in Hc.
    destruct (strip_prefix (nl ++ fence) (c :: s)) as [r | ] eqn:Hn;
      [ | discriminate ].
    apply strip_prefix_some in Hn. injection Hn as -> ->.
    change (96%N :: 96%N :: 96%N :: r) with (fence ++ r).
    rewrite before_first_here. now right.
  - unfold closes_at in Hc. apply orb_false_iff in Hc as [_ Hc].
    unfold starts_with in Hc.
    destruct (strip_prefix fence (c :: s)); [ discriminate | ].
    destruct (before_close s), (before_first fence s); cbn [option_map];
      try exact IH.
    destruct IH as [-> | ->]; [ now left | now right ].
Qed.

Lemma trim_before_close s :
  option_map trim (before_close s) = option_map trim (before_first fence s).
Proof.
  pose proof (before_close_first s) as H.
  destruct (before_close s), (before_first fence s); try easy.
  cbn [option_map]. destruct H as [-> | ->]; [ reflexivity | ].
  now rewrite trim_line_break.
Qed.

Lemma trim_before_first s :
  option_map trim (before_first fence (trim_start s))
  = option_map trim (before_first fence s).
Proof.
  induction s as [ | x s IH]; [ reflexivity | ].
  cbn [trim_start]. destruct (is_space x) eqn:Hx; [ | reflexivity ].
  rewrite IH. cbn [before_first].
  pose proof (space_is_no_fence x s Hx) as Hf. unfold starts_with in Hf.
  destruct (strip_prefix fence (x :: s)); [ discriminate | ].
  destruct (before_first fence s); cbn [option_map]; [ | reflexivity ].
  now rewrite trim_space.
Qed.

(** The trimmed capture of the fence pattern is the interior of the
    first fenced block. *)
Lemma fence_match_interior s :
  option_map trim (match_group1 fence_re s) = fence_interior s.
Proof.
  rewrite match_group1_fence. unfold fence_capture, fence_interior.
  destruct (after_first fence s) as [rest | ]; [ | reflexivity ].
  rewrite trim_before_close, trim_before_first. reflexivity.
Qed.

(** * The order of the strategies *)

Lemma extractJSON_in_order text : extractJSON text = extract_in_order text.
Proof.
  unfold extractJSON, extract_in_order, attempt, first_parse.
  rewrite fence_match_interior.
  change brace_re with (span_re 123 125).
  change bracket_re with (span_re 91 93).
  rewrite !match_group1_span.
  reflexivity.
Qed.


(* ===================================================================== *)
(** * The extractor *)
(* ===================================================================== *)

(** C1: for every input string [extractJSON] applies its strategies in
    the order of the specification and returns the first value parsed: the
    whole text, the trimmed interior of the first fenced block (with or
    without the tag json), the span from the first opening brace to the
    last closing brace, the span from the first opening bracket to the
    last closing bracket, and otherwise [null]; a text that parses as a
    whole is returned as parsed.  [not json at all] gives [null], and
    [{"a": [1,2,3]}] gives the object with the array [1, 2, 3] under
    [a]. *)
Theorem strategies_in_order :
  (forall text, extractJSON text = extract_in_order text)
  /\ (forall text v, parse text = Some v -> extractJSON text = v)
  /\ extractJSON (lit "not json at all") = JNull
  /\ parse (jlit "{'a': [1,2,3]}")
     = Some (obj [("a", JArr [JInt 1; JInt 2; JInt 3])]%string)
  /\ extractJSON (jlit "{'a': [1,2,3]}")
     = obj [("a", JArr [JInt 1; JInt 2; JInt 3])]%string.
Proof.
  split; [ exact extractJSON_in_order | ].
  split.
  { intros text v H. unfold extractJSON, attempt. now rewrite H. }
  repeat split; vm_compute; reflexivity.
Qed.

Lemma strategies_in_order_witness :
  extractJSON (jlit "[true, null]") = JArr [JBool true; JNull].
Proof.
  apply (proj1 (proj2 strategies_in_order)). vm_compute. reflexivity.
Defined.

(** ** Texts that wrap a JSON value *)

Lemma after_first_here p r : after_first p (p ++ r) = Some r.
Proof.
  destruct (p ++ r) as [ | c t] eqn:Hs; cbn [after_first];
    rewrite <- Hs, strip_prefix_app; reflexivity.
Qed.

Lemma not_fence_head x s : x <> 96%N -> strip_prefix fence (x :: s) = None.
Proof.
  intros H. change fence with [96; 96; 96]%N. cbn [strip_prefix].
  destruct (N.eqb_spec 96 x); [ now subst | reflexivity ].
Qed.

Lemma after_first_skip pre s :
  ~ In 96%N pre -> after_first fence (pre ++ s) = after_first fence s.
Proof.
  induction pre as [ | x pre IH]; [ reflexivity | ].
  cbn [In app after_first]. intros H.
  rewrite not_fence_head by (intros ->; tauto). apply IH. tauto.
Qed.

Lemma before_first_skip a s :
  ~ In 96%N a ->
  before_first fence (a ++ s) = option_map (app a) (before_first fence s).
Proof.
  induction a as [ | x a IH]; cbn [In app]; intros H.
  - now destruct (before_first fence s).
  - cbn [before_first]. rewrite not_fence_head by (intros ->; tauto).
    rewrite IH by tauto. now destruct (before_first fence s).
Qed.

Lemma includes_after_first p s :
  includes s p = false -> after_first p s = None.
Proof.
  induction s as [ | c s IH]; cbn [includes after_first]; intros H;
    apply orb_false_iff in H as [H1 H2]; unfold starts_with in H1.
  - now destruct (strip_prefix p []).
  - destruct (strip_prefix p (c :: s)); [ discriminate | ]. now apply IH.
Qed.

Lemma from_first_skip c pre s :
  ~ In c pre -> from_first c (pre ++ c :: s) = Some (c :: s).
Proof.
  induction pre as [ | x pre IH]; cbn [In app from_first]; intros H.
  - now rewrite N.eqb_refl.
  - destruct (N.eqb_spec x c); [ subst; tauto | ]. apply IH. tauto.
Qed.

Lemma upto_last_app c a post :
  ~ In c post -> upto_last c (a ++ c :: post) = Some (a ++ [c]).
Proof.
  intros H. induction a as [ | x a IH]; cbn [app upto_last].
  - rewrite (upto_last_absent c post H). now rewrite N.eqb_refl.
  - now rewrite IH.
Qed.

Lemma greedy_span_found o c pre mid post :
  ~ In o pre -> ~ In c post ->
  greedy_span o c (pre ++ [o] ++ mid ++ [c] ++ post)
  = Some ([o] ++ mid ++ [c]).
Proof.
  intros Hpre Hpost. unfold greedy_span. cbn [app].
  rewrite from_first_skip by exact Hpre.
  now rewrite upto_last_app.
Qed.

(** The ways a text can wrap a JSON value that the extractor recovers:
    in a fenced block, where neither the prose before the fence nor the
    interior holds a backtick; or, in a text without fences, as a
    [{...}] span between prose without an opening brace before it and
    without a closing brace after it; or likewise as a [[...]] span, when
    the text has no [{...}] span that parses. *)
Inductive wraps (v : json) : str -> Prop :=
| wraps_fenced pre tag inner post :
    ~ In 96%N pre ->
    ~ In 96%N inner ->
    (tag = lit "json"
     \/ (tag = []
         /\ strip_prefix (lit "json") (inner ++ fence ++ post) = None)) ->
    parse (trim inner) = Some v ->
    wraps v (pre ++ fence ++ tag ++ inner ++ fence ++ post)
| wraps_braces pre mid post :
    ~ In 123%N pre ->
    ~ In 125%N post ->
    includes (pre ++ [123%N] ++ mid ++ [125%N] ++ post) fence = false ->
    parse ([123%N] ++ mid ++ [125%N]) = Some v ->
    wraps v (pre ++ [123%N] ++ mid ++ [125%N] ++ post)
| wraps_brackets pre mid post :
    ~ In 91%N pre ->
    ~ In 93%N post ->
    includes (pre ++ [91%N] ++ mid ++ [93%N] ++ post) fence = false ->
    match greedy_span 123 125 (pre ++ [91%N] ++ mid ++ [93%N] ++ post) with
    | Some b => parse b = None
    | None => True
    end ->
    parse ([91%N] ++ mid ++ [93%N]) = Some v ->
    wraps v (pre ++ [91%N] ++ mid ++ [93%N] ++ post).

(** C7, as amended: for every raw text that is not valid JSON as a whole
    and wraps a JSON value in one of the ways of [wraps], [extractJSON]
    returns that value; in particular the text [Sure!] followed by a
    fenced block tagged json that holds [{"a":1}] gives the object with
    [1] under [a]. *)
Theorem extract_wrapped :
  (forall text v,
      parse text = None -> wraps v text -> extractJSON text = v)
  /\ extractJSON (lit "Sure! ```json" ++ nl ++ jlit "{'a':1}" ++ nl
                      ++ lit "```")
     = obj [("a", JInt 1)]%string.
Proof.
  split; [ | vm_compute; reflexivity ].
  intros text v Hwhole Hwraps. rewrite extractJSON_in_order.
  unfold extract_in_order. cbn [first_parse].
  destruct Hwraps as [pre tag inner post Hpre Hinner Htag Hv
                     | pre mid post Hpre Hpost Hfence Hv
                     | pre mid post Hpre Hpost Hfence Hbrace Hv].
  - rewrite Hwhole.
    assert (Hint : fence_interior
                     (pre ++ fence ++ tag ++ inner ++ fence ++ post)
                   = Some (trim inner)).
    { unfold fence_interior.
      rewrite after_first_skip by exact Hpre. rewrite after_first_here.
      assert (Hun : match strip_prefix (lit "json")
                            (tag ++ inner ++ fence ++ post) with
                    | Some r => r
                    | None => tag ++ inner ++ fence ++ post
                    end = inner ++ fence ++ post).
      { destruct Htag as [-> | [-> Hn]].
        - now rewrite strip_prefix_app.
        - cbn [app]. now rewrite Hn. }
      cbn zeta. rewrite Hun, before_first_skip by exact Hinner.
      rewrite before_first_here. cbn [option_map]. now rewrite app_nil_r. }
    rewrite Hint, Hv. reflexivity.
  - rewrite Hwhole. unfold fence_interior.
    rewrite (includes_after_first _ _ Hfence).
    rewrite greedy_span_found by assumption. now rewrite Hv.
  - rewrite Hwhole. unfold fence_interior.
    rewrite (includes_after_first _ _ Hfence).
    rewrite (greedy_span_found 91 93) by assumption. rewrite Hv.
    destruct (greedy_span 123 125 _); [ now rewrite Hbrace | reflexivity ].
Qed.

Lemma extract_wrapped_witness :
  extractJSON (lit "Here you go: " ++ jlit "[1, 2]" ++ lit " (done)")
  = JArr [JInt 1; JInt 2].
Proof.
  apply (proj1 extract_wrapped).
  - vm_compute. reflexivity.
  - apply (wraps_brackets (JArr [JInt 1; JInt 2])
             (lit "Here you go: ") (lit "1, 2") (lit " (done)")).
    + vm_compute. intuition discriminate.
    + vm_compute. intuition discriminate.
    + vm_compute. reflexivity.
    + vm_compute. exact I.
    + vm_compute. reflexivity.
Defined.

(** Every span of a text. *)
Fixpoint prefixes (s : str) : list str :=
  match s with
  | [] => [[]]
  | c :: s' => [] :: map (cons c) (prefixes s')
  end.

Fixpoint spans (s : str) : list str :=
  match s with
  | [] => [[]]
  | _ :: s' => prefixes s ++ spans s'
  end.

Definition parses_to_null (s : str) : bool :=
  match parse s with
  | Some JNull => true
  | _ => false
  end.

(** C7 as stated fails: the object [{"a":1}] follows prose that holds a
    pair of braces; the span from the first opening brace to the last
    closing brace does not parse and the extractor returns [null], which
    is the value of no span of the text at all. *)
Lemma braces_in_prose_defeat_extract :
  let text := lit "Note {x}: " ++ jlit "{'a':1}" in
  parse (jlit "{'a':1}") = Some (obj [("a", JInt 1)]%string)
  /\ extractJSON text = JNull
  /\ extractJSON text <> obj [("a", JInt 1)]%string
  /\ existsb parses_to_null (spans text) = false.
Proof.
  vm_compute. repeat split. discriminate.
Qed.

(* ===================================================================== *)
(** * More on the extractor *)
(* ===================================================================== *)

(** [s] occurs in [text] as a contiguous part. *)
Definition part_of (s text : str) : Prop :=
  exists pre post, text = pre ++ s ++ post.

Lemma part_of_refl s : part_of s s.
Proof. exists [], []. now rewrite app_nil_r. Qed.

Lemma part_of_trans a b c : part_of a b -> part_of b c -> part_of a c.
Proof.
  intros (p & q & ->) (p' & q' & ->). exists (p' ++ p), (q ++ q').
  now rewrite <- !app_assoc.
Qed.

Lemma suffix_part t s : suffix t s -> part_of t s.
Proof. intros [pre ->]. exists pre, []. now rewrite app_nil_r. Qed.

Lemma prefix_part a b : part_of a (a ++ b).
Proof. now exists [], b. Qed.

Lemma from_first_suffix c s r : from_first c s = Some r -> suffix r s.
Proof.
  induction s as [ | x s IH]; cbn [from_first]; [ discriminate | ].
  destruct (x =? c)%N.
  - intros H. injection H as <-. apply suffix_refl.
  - intros H. apply suffix_cons. now apply IH.
Qed.

Lemma upto_last_prefix c s p :
  upto_last c s = Some p -> exists post, s = p ++ post.
Proof.
  revert p. induction s as [ | x s IH]; intros p; cbn [upto_last];
    [ discriminate | ].
  destruct (upto_last c s) as [q | ].
  - intros H. injection H as <-. destruct (IH q eq_refl) as [post ->].
    now exists post.
  - destruct (x =? c)%N; [ | discriminate ].
    intros H. injection H as <-. now exists s.
Qed.

Lemma greedy_span_part o c s p : greedy_span o c s = Some p -> part_of p s.
Proof.
  unfold greedy_span. destruct (from_first o s) as [[ | x rest] | ] eqn:Hf;
    try discriminate.
  destruct (upto_last c rest) as [q | ] eqn:Hu; [ | discriminate ].
  cbn [option_map]. intros H. injection H as <-.
  apply from_first_suffix in Hf. destruct (upto_last_prefix _ _ _ Hu) as [post ->].
  apply part_of_trans with (b := x :: q ++ post); [ | now apply suffix_part ].
  exists [], post. reflexivity.
Qed.

Lemma before_first_prefix p s a :
  before_first p s = Some a -> exists post, s = a ++ post.
Proof.
  revert a. induction s as [ | c s IH]; intros a; cbn [before_first].
  - destruct (strip_prefix p []); [ | discriminate ].
    intros H. injection H as <-. now exists [].
  - destruct (strip_prefix p (c :: s)).
    + intros H. injection H as <-. now exists (c :: s).
    + destruct (before_first p s) as [b | ]; [ | discriminate ].
      cbn [option_map]. intros H. injection H as <-.
      destruct (IH b eq_refl) as [post ->]. now exists post.
Qed.

Lemma trim_part s : part_of (trim s) s.
Proof.
  unfold trim, trim_end.
  apply part_of_trans with (b := trim_start s);
    [ | apply suffix_part, trim_start_suffix ].
  destruct (trim_start_suffix (rev (trim_start s))) as [pre H].
  apply (f_equal (@rev N)) in H. rewrite rev_involutive, rev_app_distr in H.
  rewrite H at 2. apply prefix_part.
Qed.

Lemma fence_interior_part s t : fence_interior s = Some t -> part_of t s.
Proof.
  unfold fence_interior.
  destruct (after_first fence s) as [rest | ] eqn:Ha; [ | discriminate ].
  cbn zeta.
  set (rest' := match strip_prefix (lit "json") rest with
                | Some r => r
                | None => rest
                end).
  assert (Hr : suffix rest' rest).
  { unfold rest'. destruct (strip_prefix (lit "json") rest) as [r | ] eqn:Hs;
      [ | apply suffix_refl ].
    apply strip_prefix_some in Hs. now exists (lit "json"). }
  destruct (before_first fence rest') as [a | ] eqn:Hb; [ | discriminate ].
  cbn [option_map]. intros H. injection H as <-.
  apply part_of_trans with (b := a); [ apply trim_part | ].
  destruct (before_first_prefix _ _ _ Hb) as [post Hp].
  apply part_of_trans with (b := rest'); [ rewrite Hp; apply prefix_part | ].
  apply suffix_part, (suffix_trans _ rest); [ exact Hr | ].
  now apply after_first_suffix in Ha.
Qed.

(** X1: whatever [extractJSON] returns, other than [null], is what
    [JSON.parse] makes of a contiguous part of the text: the extractor
    never returns a value that is not written in the text. *)
Theorem extracted_is_written text v :
  extractJSON text = v ->
  v <> JNull ->
  exists s, part_of s text /\ parse s = Some v.
Proof.
  rewrite extractJSON_in_order. unfold extract_in_order. cbn [first_parse].
  intros H Hv.
  destruct (parse text) as [w | ] eqn:H0.
  { subst w. exists text. split; [ apply part_of_refl | exact H0 ]. }
  destruct (fence_interior text) as [t | ] eqn:H1.
  - destruct (parse t) as [w | ] eqn:P1.
    { subst w. exists t. split; [ now apply fence_interior_part | exact P1 ]. }
    destruct (greedy_span 123 125 text) as [b | ] eqn:H2.
    + destruct (parse b) as [w | ] eqn:P2.
      { subst w. exists b. split; [ now apply greedy_span_part in H2 | exact P2 ]. }
      destruct (greedy_span 91 93 text) as [k | ] eqn:H3; [ | congruence ].
      destruct (parse k) as [w | ] eqn:P3; [ | congruence ].
      subst w. exists k. split; [ now apply greedy_span_part in H3 | exact P3 ].
    + destruct (greedy_span 91 93 text) as [k | ] eqn:H3; [ | congruence ].
      destruct (parse k) as [w | ] eqn:P3; [ | congruence ].
      subst w. exists k. split; [ now apply greedy_span_part in H3 | exact P3 ].
  - destruct (greedy_span 123 125 text) as [b | ] eqn:H2.
    + destruct (parse b) as [w | ] eqn:P2.
      { subst w. exists b. split; [ now apply greedy_span_part in H2 | exact P2 ]. }
      destruct (greedy_span 91 93 text) as [k | ] eqn:H3; [ | congruence ].
      destruct (parse k) as [w | ] eqn:P3; [ | congruence ].
      subst w. exists k. split; [ now apply greedy_span_part in H3 | exact P3 ].
    + destruct (greedy_span 91 93 text) as [k | ] eqn:H3; [ | congruence ].
      destruct (parse k) as [w | ] eqn:P3; [ | congruence ].
      subst w. exists k. split; [ now apply greedy_span_part in H3 | exact P3 ].
Qed.

Lemma extracted_is_written_witness :
  exists s,
    part_of s (lit "The answer: " ++ jlit "{'n': 42}" ++ lit ". Bye")
    /\ parse s = Some (obj [("n", JInt 42)]%string).
Proof.
  apply (extracted_is_written
           (lit "The answer: " ++ jlit "{'n': 42}" ++ lit ". Bye")).
  - vm_compute. reflexivity.
  - vm_compute. discriminate.
Defined.

Lemma no_backtick_no_fence s : ~ In 96%N s -> after_first fence s = None.
Proof.
  induction s as [ | x s IH]; [ reflexivity | ].
  cbn [In after_first]. intros H.
  change fence with [96; 96; 96]%N. cbn [strip_prefix].
  destruct (N.eqb_spec 96 x); [ subst; tauto | ].
  apply IH. tauto.
Qed.

(** X2: a text that is not JSON as a whole and holds no backtick, no
    closing brace and no closing bracket gives [null]: there is no fenced
    block and no span to try. *)
Theorem nothing_to_extract text :
  parse text = None ->
  ~ In 96%N text -> ~ In 125%N text -> ~ In 93%N text ->
  extractJSON text = JNull.
Proof.
  intros Hp Hf Hb Hk. rewrite extractJSON_in_order.
  unfold extract_in_order, fence_interior. cbn [first_parse].
  rewrite Hp, (no_backtick_no_fence _ Hf).
  now rewrite !greedy_span_absent by assumption.
Qed.

Lemma nothing_to_extract_witness :
  extractJSON (lit "I could not come up with anything {yet") = JNull.
Proof.
  apply nothing_to_extract.
  - vm_compute. reflexivity.
  - vm_compute. intuition discriminate.
  - vm_compute. intuition discriminate.
  - vm_compute. intuition discriminate.
Defined.

(** X3: the extractor returns every well-formed value from the text
    [JSON.stringify] prints for it, compact or indented: that text takes
    the direct-parse path. *)
Theorem extract_of_stringify v :
  wf v ->
  extractJSON (stringify v) = v
  /\ forall n, extractJSON (stringify_indent n v) = v.
Proof.
  intros Hwf. unfold extractJSON, attempt. split.
  - now rewrite parse_stringify.
  - intros n. now rewrite parse_stringify_indent.
Qed.

Lemma extract_of_stringify_witness :
  extractJSON (stringify_indent 2 (config_json trend_bot))
  = config_json trend_bot.
Proof.
  apply (extract_of_stringify (config_json trend_bot)).
  apply wf_config_json.
Defined.

(* ===================================================================== *)
(** * More on the coordination calls *)
(* ===================================================================== *)

Lemma strip_prefix_grow p s r b :
  strip_prefix p s = Some r -> strip_prefix p (s ++ b) = Some (r ++ b).
Proof.
  revert s. induction p as [ | x p IH]; intros s; cbn [strip_prefix].
  - intros H. now injection H as ->.
  - destruct s as [ | y s]; [ discriminate | ]. cbn [app].
    destruct (x =? y)%N; [ apply IH | discriminate ].
Qed.

Lemma includes_grow s p b : includes s p = true -> includes (s ++ b) p = true.
Proof.
  induction s as [ | c s IH]; cbn [includes app]; unfold starts_with.
  - destruct p as [ | x p]; [ | discriminate ].
    intros _. destruct b; reflexivity.
  - destruct (strip_prefix p (c :: s)) as [r | ] eqn:Hs.
    + intros _. change (c :: s ++ b) with ((c :: s) ++ b).
      now rewrite (strip_prefix_grow _ _ _ b Hs).
    + cbn [orb]. intros H. rewrite (IH H). apply orb_true_r.
Qed.

(** A mark inside a part of the message is a mark of the message. *)
Lemma includes_part s text p :
  part_of s text -> includes s p = true -> includes text p = true.
Proof.
  intros (pre & post & ->) H.
  apply (includes_suffix p (s ++ post)); [ now exists pre | ].
  now apply includes_grow.
Qed.

Lemma no_content_marks_part s why :
  part_of s why -> no_content_marks s = true -> no_content_marks why = true.
Proof.
  unfold no_content_marks. intros Hp H. apply orb_true_iff in H.
  apply orb_true_iff. destruct H as [H | H]; [ left | right ];
    now apply (includes_part s).
Qed.

Lemma status_part method endpoint status body :
  part_of (Str.digits status) (api_failure method endpoint status body).
Proof.
  unfold api_failure.
  exists (lit "API " ++ method ++ lit " " ++ endpoint ++ lit " failed ("),
    (lit "): " ++ body).
  now rewrite <- !app_assoc.
Qed.

Lemma agent_id_part cfg status body :
  part_of (agent_id cfg)
    (api_failure (lit "GET") (work_endpoint cfg) status body).
Proof.
  unfold api_failure, work_endpoint.
  exists (lit "API " ++ lit "GET" ++ lit " " ++ lit "/api/agents/"),
    (lit "/work" ++ lit " failed (" ++ Str.digits status ++ lit "): " ++ body).
  now rewrite <- !app_assoc.
Qed.

(** X4: a reply with status 404 always means "no work": whatever the
    body, the agent and the server, [fetchWork] returns [null] and does
    not throw. *)
Theorem fetchWork_not_found P cfg body :
  result_of (fetchWork P cfg (Response 404 body)) = Ok JNull.
Proof.
  rewrite fetchWork_result.
  change (resp_ok 404) with false. cbn match. cbn zeta.
  rewrite (no_content_marks_part (Str.digits 404)); [ reflexivity | | ].
  - apply status_part.
  - reflexivity.
Qed.

(** X5: when the agent id itself contains [404] or [204], no reply with
    a failure status is ever reported: the message of the error carries
    the id, so [fetchWork] takes every such failure for "no work". *)
Theorem fetchWork_id_hides_failures P cfg status body :
  no_content_marks (agent_id cfg) = true ->
  resp_ok status = false ->
  result_of (fetchWork P cfg (Response status body)) = Ok JNull.
Proof.
  intros Hid Hs. rewrite fetchWork_result, Hs. cbn zeta.
  rewrite (no_content_marks_part (agent_id cfg)); [ reflexivity | | exact Hid ].
  apply agent_id_part.
Qed.

Lemma fetchWork_id_hides_failures_witness :
  result_of
    (fetchWork bare_process
       {| name := name trend_bot; owner := owner trend_bot;
          solana_wallet := []; role := role trend_bot;
          model := model trend_bot; model_info := model_info trend_bot;
          ai_api_key := ai_api_key trend_bot; agent_id := lit "agent-2048";
          api_key := api_key trend_bot; server := server trend_bot;
          created_at := created_at trend_bot; stats := stats trend_bot |}
       (Response 500 (lit "boom")))
  = Ok JNull.
Proof.
  apply fetchWork_id_hides_failures; vm_compute; reflexivity.
Defined.

(** X6: what [fetchWork] throws is always the error of the request
    itself, unchanged, and its message contains neither [404] nor [204];
    a reply with a success status never makes it throw. *)
Theorem fetchWork_throws_only P cfg reply why :
  result_of (fetchWork P cfg reply) = Throw why ->
  no_content_marks why = false
  /\ (reply = NetFail why
      \/ exists status body,
           reply = Response status body
           /\ resp_ok status = false
           /\ why = api_failure (lit "GET") (work_endpoint cfg) status body).
Proof.
  rewrite fetchWork_result. destruct reply as [w | status body].
  - destruct (no_content_marks w) eqn:Hm; [ discriminate | ].
    intros H. injection H as <-. split; [ exact Hm | now left ].
  - destruct (resp_ok status) eqn:Hs.
    + destruct body as [ | c body]; [ discriminate | ].
      destruct (parse (c :: body)); discriminate.
    + cbn zeta.
      destruct (no_content_marks
                  (api_failure (lit "GET") (work_endpoint cfg) status body))
        eqn:Hm; [ discriminate | ].
      intros H. injection H as <-. split; [ exact Hm | ].
      right. exists status, body. now repeat split.
Qed.

Lemma fetchWork_throws_only_witness :
  no_content_marks (lit "API GET /api/agents/agent-7/work failed (500): boom")
  = false.
Proof.
  apply (fetchWork_throws_only bare_process trend_bot
           (Response 500 (lit "boom"))).
  vm_compute. reflexivity.
Defined.

(* ===================================================================== *)
(** * More on the model call *)
(* ===================================================================== *)

(** The request [processWithAI] sends to [backend] with the key [key]. *)
Definition model_request (backend : Backend) (key sys : str) (prompt : json)
  : event :=
  Http (lit "POST") (url backend key)
       (match headers backend with
        | Some h => h key
        | None => [(lit "Content-Type", lit "application/json")]
        end)
       (Some (stringify (buildBody backend sys prompt))).

(** What [processWithAI] may do: print, wait the two seconds of the
    OpenClaw mode, and send a POST request. *)
Definition model_event (e : event) : Prop :=
  match e with
  | Print _ _ => True
  | Sleep ms => ms = 2000%Z
  | Http method _ _ _ => method = lit "POST"
  | WriteFile _ => False
  end.

Lemma call_backend_events backend key sys prompt reply :
  exists evs,
    events_of (call_backend backend key sys prompt reply)
    = model_request backend key sys prompt :: evs
    /\ (length evs <= 1)%nat
    /\ Forall (fun e => exists lvl what, e = Print lvl what) evs.
Proof.
  unfold events_of, call_backend, fetch, bind, emit, logWarn, logOk, emit,
    ret, throw, lift, model_request.
  destruct reply as [why | status text]; cbn.
  { exists []. repeat split; [ cbn; lia | constructor ]. }
  destruct (resp_ok status); cbn.
  2:{ exists []. repeat split; [ cbn; lia | constructor ]. }
  destruct (parse text) as [j | ]; cbn.
  2:{ exists []. repeat split; [ cbn; lia | constructor ]. }
  destruct (truthy (extractText backend j)); cbn.
  2:{ eexists. repeat split; [ cbn; lia | ].
      constructor; [ now eexists _, _ | constructor ]. }
  destruct (extractJSON_of (extractText backend j)) as [v | why]; cbn.
  2:{ exists []. repeat split; [ cbn; lia | constructor ]. }
  destruct (truthy v); cbn; eexists; repeat split; try (cbn; lia);
    (constructor; [ now eexists _, _ | constructor ]).
Qed.

(** The request of the model call, when one is made, and what else the
    call does. *)
Lemma processWithAI_events P cfg prompt reply :
  let evs := events_of (processWithAI P cfg prompt reply) in
  Forall model_event evs
  /\ match ROLE_PROMPTS (role cfg),
           (if Str.eqb (model cfg) (lit "openclaw") then None
            else if Str.eqb (model cfg) (lit "none") then None
            else AI_BACKENDS (model cfg)) with
     | Some sys, Some backend =>
         match or_str (ai_api_key cfg) (nonempty (env P (envKey backend))) with
         | Some key => http_calls evs = [model_request backend key sys prompt]
         | None => http_calls evs = []
         end
     | _, _ => http_calls evs = []
     end.
Proof.
  cbn zeta. unfold events_of at 1 2 3 4 5, processWithAI, log, logWarn, logErr, sleep.
  destruct (ROLE_PROMPTS (role cfg)) as [sys | ];
    [ | split; [ repeat constructor | reflexivity ] ].
  destruct (Str.eqb (model cfg) (lit "openclaw"));
    [ split; [ repeat constructor | reflexivity ] | ].
  destruct (Str.eqb (model cfg) (lit "none"));
    [ destruct (has_slice prompt); cbn;
      (split; [ repeat (constructor; try exact I) | reflexivity ]) | ].
  destruct (AI_BACKENDS (model cfg)) as [backend | ];
    [ | destruct (has_slice prompt); cbn;
        (split; [ repeat (constructor; try exact I) | reflexivity ]) ].
  destruct (or_str (ai_api_key cfg) (nonempty (env P (envKey backend))))
    as [key | ]; [ | split; [ repeat constructor | reflexivity ] ].
  destruct (call_backend_events backend key sys prompt reply)
    as (evs & Hev & Hlen & Hall).
  pose proof (oblivious_run _ _ (oblivious_call_backend backend key sys prompt
                                   reply)) as Hrun.
  unfold bind, emit, try_catch. cbn [blank trace app].
  rewrite Hrun, Hev.
  assert (Hq : forall l, Forall (fun e => exists lvl what, e = Print lvl what) l
               -> http_calls l = [] /\ Forall model_event l).
  { induction 1 as [ | e l (lvl & what & ->) _ [IH1 IH2]];
      [ split; [ reflexivity | constructor ] | ].
    split; [ exact IH1 | constructor; [ exact I | exact IH2 ] ]. }
  destruct (Hq evs Hall) as [Hh Hm].
  destruct (result_of (call_backend backend key sys prompt reply))
    as [v | why]; cbn [add_events trace fst snd app emit ret bind].
  - split.
    + constructor; [ exact I | ]. constructor; [ reflexivity | exact Hm ].
    + unfold http_calls in *. cbn [filter is_http model_request]. now rewrite Hh.
  - split.
    + constructor; [ exact I | ]. constructor; [ reflexivity | ].
      apply Forall_app. split; [ exact Hm | repeat constructor ].
    + unfold http_calls in *. cbn [filter is_http model_request app].
      rewrite filter_app, Hh. reflexivity.
Qed.

Lemma model_cases x backend :
  AI_BACKENDS x = Some backend ->
  (if Str.eqb x (lit "openclaw") then None
   else if Str.eqb x (lit "none") then None
   else AI_BACKENDS x) = Some backend.
Proof.
  intros H. destruct (backend_model _ _ H) as [-> H']. exact H'.
Qed.

(** X8: the key stored in the identity takes precedence over the
    environment: with a non-empty [ai_api_key] the one request of the
    model call carries that key whatever the environment holds, and the
    variable of the backend is used only when the identity has no key. *)
Theorem stored_key_first P cfg prompt reply sys backend :
  ROLE_PROMPTS (role cfg) = Some sys ->
  AI_BACKENDS (model cfg) = Some backend ->
  let sent := http_calls (events_of (processWithAI P cfg prompt reply)) in
  (forall key, nonempty (ai_api_key cfg) = Some key ->
               sent = [model_request backend key sys prompt])
  /\ (forall key, nonempty (ai_api_key cfg) = None ->
                  nonempty (env P (envKey backend)) = Some key ->
                  sent = [model_request backend key sys prompt]).
Proof.
  intros Hsys Hb. cbn zeta.
  destruct (processWithAI_events P cfg prompt reply) as [_ H].
  cbn zeta in H. rewrite Hsys, (model_cases _ _ Hb) in H.
  split.
  - intros key Hk.
    assert (Hor : or_str (ai_api_key cfg) (nonempty (env P (envKey backend)))
                  = Some key).
    { destruct (ai_api_key cfg) as [[ | c r] | ]; cbn in Hk |- *;
        congruence. }
    now rewrite Hor in H.
  - intros key Hk He. rewrite (or_str_none _ _ Hk), He in H. exact H.
Qed.

Lemma stored_key_first_witness :
  http_calls
    (events_of
       (processWithAI
          {| env := fun _ => Some (lit "ENVKEY"); SERVER_URL := DEFAULT_SERVER |}
          trend_bot (JStr (lit "dinosaur obby")) (NetFail (lit "down"))))
  = [model_request gemini (lit "KEY") (lit prompt_trend_researcher)
       (JStr (lit "dinosaur obby"))].
Proof.
  refine (proj1 (stored_key_first _ trend_bot _ _
                   (lit prompt_trend_researcher) gemini _ _) (lit "KEY") _);
    reflexivity.
Defined.

(* ===================================================================== *)
(** * The cycle, event by event *)
(* ===================================================================== *)

Lemma submitResult_prints P cfg taskId r reply :
  exists lvl what,
    events_of (submitResult P cfg taskId r reply) =
    [submit_request P cfg taskId r; Print lvl what].
Proof.
  unfold events_of, submitResult, apiRequest, fetch, try_catch,
    bind, emit, logOk, logErr.
  destruct reply as [why | status body]; cbn.
  - eexists _, _; reflexivity.
  - destruct (resp_ok status); cbn.
    + destruct body; [ eexists _, _; reflexivity | ].
      destruct (parse (n :: body)); eexists _, _; reflexivity.
    + eexists _, _; reflexivity.
Qed.

(** The machine a cycle leaves, with everything the cycle did, for each
    of the seven ways it can go. *)
Inductive cycle_path (P : process) (roleInfo : RoleInfo) (E : cycle_env)
          (m : machine) : machine -> Prop :=
| cycle_fetch_throws why :
    result_of (fetchWork P (config m) (work_reply E)) = Throw why ->
    cycle_path P roleInfo E m
      (failed why (add_events m [work_request P (config m)]))
| cycle_no_work work :
    result_of (fetchWork P (config m) (work_reply E)) = Ok work ->
    task_of work = None ->
    cycle_path P roleInfo E m
      (add_events
         (received m [ work_request P (config m);
                       Print LPlain (MWaiting (stats (config m))) ])
         [Sleep POLL_INTERVAL_MS])
| cycle_no_slice work taskId :
    result_of (fetchWork P (config m) (work_reply E)) = Ok work ->
    task_of work = Some taskId ->
    has_slice (prompt_of work) = false ->
    cycle_path P roleInfo E m
      (failed (lit "taskPrompt.slice is not a function")
              (received m [work_request P (config m)]))
| cycle_no_result work taskId r :
    result_of (fetchWork P (config m) (work_reply E)) = Ok work ->
    task_of work = Some taskId ->
    has_slice (prompt_of work) = true ->
    result_of (processWithAI P (config m) (prompt_of work) (ai_reply E))
      = Ok r ->
    truthy r = false ->
    cycle_path P roleInfo E m
      (add_events
         (received m
            ((work_request P (config m)
                :: Print LWork (MReceived taskId (prompt_of work))
                :: events_of (processWithAI P (config m) (prompt_of work)
                                (ai_reply E)))
               ++ [Print LWarn
                     (MNoResult taskId
                        (Str.eqb (model (config m)) (lit "none")))]))
         [Sleep POLL_INTERVAL_MS])
| cycle_submit_throws work taskId r why lvl what :
    result_of (fetchWork P (config m) (work_reply E)) = Ok work ->
    task_of work = Some taskId ->
    has_slice (prompt_of work) = true ->
    result_of (processWithAI P (config m) (prompt_of work) (ai_reply E))
      = Ok r ->
    truthy r = true ->
    result_of (submitResult P (config m) taskId r (submit_reply E))
      = Throw why ->
    cycle_path P roleInfo E m
      (failed why
         (received m
            ((work_request P (config m)
                :: Print LWork (MReceived taskId (prompt_of work))
                :: events_of (processWithAI P (config m) (prompt_of work)
                                (ai_reply E)))
               ++ [submit_request P (config m) taskId r; Print lvl what])))
| cycle_saved work taskId r ack lvl what :
    result_of (fetchWork P (config m) (work_reply E)) = Ok work ->
    task_of work = Some taskId ->
    has_slice (prompt_of work) = true ->
    result_of (processWithAI P (config m) (prompt_of work) (ai_reply E))
      = Ok r ->
    truthy r = true ->
    result_of (submitResult P (config m) taskId r (submit_reply E))
      = Ok ack ->
    write_reply E = Written ->
    let data :=
      stringify_indent 2 (config_json (award roleInfo (config m))) in
    cycle_path P roleInfo E m
      (add_events
         {| config := award roleInfo (config m);
            consecutiveErrors := 0;
            disk := Content data;
            trace :=
              trace m
                ++ ((work_request P (config m)
                       :: Print LWork (MReceived taskId (prompt_of work))
                       :: events_of (processWithAI P (config m)
                                       (prompt_of work) (ai_reply E)))
                      ++ [submit_request P (config m) taskId r;
                          Print lvl what])
                ++ [WriteFile data; Print LOk MConfigSaved] |}
         [Sleep POLL_INTERVAL_MS])
| cycle_save_throws work taskId r ack lvl what why remains :
    result_of (fetchWork P (config m) (work_reply E)) = Ok work ->
    task_of work = Some taskId ->
    has_slice (prompt_of work) = true ->
    result_of (processWithAI P (config m) (prompt_of work) (ai_reply E))
      = Ok r ->
    truthy r = true ->
    result_of (submitResult P (config m) taskId r (submit_reply E))
      = Ok ack ->
    write_reply E = WriteFailed why remains ->
    let data :=
      stringify_indent 2 (config_json (award roleInfo (config m))) in
    cycle_path P roleInfo E m
      (failed why
         {| config := award roleInfo (config m);
            consecutiveErrors := 0;
            disk := remains;
            trace :=
              trace m
                ++ ((work_request P (config m)
                       :: Print LWork (MReceived taskId (prompt_of work))
                       :: events_of (processWithAI P (config m)
                                       (prompt_of work) (ai_reply E)))
                      ++ [submit_request P (config m) taskId r;
                          Print lvl what])
                ++ [WriteFile data; Print LErr (MSaveFailed why)] |}).

(** Every cycle follows one of the paths. *)
Lemma step_path P roleInfo E m :
  cycle_path P roleInfo E m (step P roleInfo E m).
Proof.
  rewrite step_unfold.
  destruct (result_of (fetchWork P (config m) (work_reply E)))
    as [work | why] eqn:Hf.
  2:{ rewrite (try_fetch_throws P roleInfo E m _ Hf), fetchWork_events.
      now apply cycle_fetch_throws. }
  destruct (task_of work) as [taskId | ] eqn:Ht.
  2:{ rewrite (try_no_work P roleInfo E m _ Hf Ht), fetchWork_events.
      now apply cycle_no_work with (work := work). }
  destruct (has_slice (prompt_of work)) eqn:Hs.
  2:{ rewrite (try_no_slice P roleInfo E m _ _ Hf Ht Hs), fetchWork_events.
      now apply cycle_no_slice with (work := work) (taskId := taskId). }
  destruct (processWithAI_returns P (config m) (prompt_of work) (ai_reply E)
              Hs) as [r Hr].
  destruct (truthy r) eqn:Htr.
  2:{ rewrite (try_no_result P roleInfo E m _ _ Hf Ht Hs _ Hr Htr),
        fetchWork_events.
      now apply cycle_no_result with (r := r). }
  destruct (submitResult_prints P (config m) taskId r (submit_reply E))
    as (lvl & what & He).
  destruct (result_of (submitResult P (config m) taskId r (submit_reply E)))
    as [ack | why] eqn:Hsub.
  2:{ rewrite (try_submit_throws P roleInfo E m _ _ Hf Ht Hs _ Hr Htr _ Hsub).
      rewrite fetchWork_events, He.
      now apply cycle_submit_throws with (r := r). }
  destruct (write_reply E) as [ | why remains] eqn:Hwr.
  - rewrite (try_saved P roleInfo E m _ _ Hf Ht Hs _ Hr Htr _ Hsub Hwr).
    rewrite fetchWork_events, He.
    now apply cycle_saved with (r := r) (ack := ack).
  - rewrite (try_save_throws P roleInfo E m _ _ Hf Ht Hs _ Hr Htr _ _ _
               Hsub Hwr).
    rewrite fetchWork_events, He.
    now apply cycle_save_throws with (r := r) (ack := ack).
Qed.

(* ===================================================================== *)
(** * What every run of the loop keeps *)
(* ===================================================================== *)

Lemma run_cons P roleInfo E Es m :
  run P roleInfo (E :: Es) m = run P roleInfo Es (step P roleInfo E m).
Proof. reflexivity. Qed.

(** The machine [workerLoop] starts its first cycle on. *)
Lemma workerLoop_run P cfg d Es m' :
  workerLoop P cfg d Es = Some m' ->
  exists roleInfo m0,
    ROLES (role cfg) = Some roleInfo
    /\ config m0 = cfg /\ consecutiveErrors m0 = 0%Z /\ disk m0 = d
    /\ m' = run P roleInfo Es m0.
Proof.
  unfold workerLoop. destruct (ROLES (role cfg)) as [roleInfo | ];
    [ | discriminate ].
  intros H. injection H as <-.
  exists roleInfo,
    {| config := cfg; consecutiveErrors := 0; disk := d;
       trace := [Print LPlain
                   (MWorkerActive (role_label roleInfo) (name cfg)
                      (agent_id cfg))] |}.
  repeat split.
Qed.

Lemma failed_counter why m :
  (0 <= consecutiveErrors m < 10)%Z ->
  (0 <= consecutiveErrors (failed why m) < 10)%Z.
Proof.
  unfold failed, MAX_CONSECUTIVE_ERRORS. cbn [consecutiveErrors].
  destruct (Z.leb_spec 10 (consecutiveErrors m + 1)); lia.
Qed.

Lemma step_counter P roleInfo E m :
  (0 <= consecutiveErrors m < 10)%Z ->
  (0 <= consecutiveErrors (step P roleInfo E m) < 10)%Z.
Proof.
  intros H. destruct (step_path P roleInfo E m);
    try (apply failed_counter); cbn [consecutiveErrors add_events received];
    lia.
Qed.

(** X9: the consecutive-error counter of [workerLoop] is between 0 and 9
    at the end of every cycle, whatever the coordinator, the backend and
    the file system do. *)
Theorem counter_bounded P cfg d Es m' :
  workerLoop P cfg d Es = Some m' ->
  (0 <= consecutiveErrors m' < 10)%Z.
Proof.
  intros H.
  destruct (workerLoop_run _ _ _ _ _ H) as (roleInfo & m0 & _ & _ & Hc & _ & ->).
  assert (H0 : (0 <= consecutiveErrors m0 < 10)%Z) by lia.
  clear Hc H. revert m0 H0.
  induction Es as [ | E Es IH]; intros m0 H0; [ exact H0 | ].
  rewrite run_cons. apply IH. now apply step_counter.
Qed.

Lemma counter_bounded_witness :
  (0 <= consecutiveErrors
          (run bare_process trend_researcher_info (repeat cycle_down 25)
               {| config := trend_bot; consecutiveErrors := 0; disk := Absent;
                  trace := [Print LPlain
                              (MWorkerActive (lit "Trend Researcher")
                                 (lit "TrendBot") (lit "agent-7"))] |})
   < 10)%Z.
Proof.
  apply (counter_bounded bare_process trend_bot Absent
           (repeat cycle_down 25)).
  reflexivity.
Defined.

(** The counts a cycle changes. *)
Lemma step_stats P roleInfo E m :
  let st := stats (config m) in
  let m' := step P roleInfo E m in
  exists dc de : Z,
    (dc = 0 \/ dc = 1)%Z /\ (de = 0 \/ de = 1)%Z
    /\ config m' =
       with_stats (config m)
         {| completed := completed st + dc;
            points := points st + dc * role_points roleInfo;
            errors := errors st + de |}.
Proof.
  cbn zeta. destruct (config m) as [n o w r mo mi key id api srv cr [c p e]] eqn:Hcfg.
  destruct (step_path P roleInfo E m);
    unfold failed, received, add_events, bump_errors, award, with_stats;
    cbn [config stats completed points errors name owner solana_wallet role
         model model_info ai_api_key agent_id api_key server created_at];
    rewrite Hcfg;
    cbn [config stats completed points errors name owner solana_wallet role
         model model_info ai_api_key agent_id api_key server created_at].
  - exists 0%Z, 1%Z. repeat split; auto. do 2 f_equal; lia.
  - exists 0%Z, 0%Z. repeat split; auto. do 2 f_equal; lia.
  - exists 0%Z, 1%Z. repeat split; auto. do 2 f_equal; lia.
  - exists 0%Z, 0%Z. repeat split; auto. do 2 f_equal; lia.
  - exists 0%Z, 1%Z. repeat split; auto. do 2 f_equal; lia.
  - exists 1%Z, 0%Z. repeat split; auto. do 2 f_equal; lia.
  - exists 1%Z, 1%Z. repeat split; auto. do 2 f_equal; lia.
Qed.

Lemma with_stats_twice cfg st st' :
  with_stats (with_stats cfg st) st' = with_stats cfg st'.
Proof. reflexivity. Qed.

Lemma with_stats_same cfg : with_stats cfg (stats cfg) = cfg.
Proof. now destruct cfg. Qed.

(** What a run changes: the counts, each by a number of cycles. *)
Lemma run_stats P roleInfo Es m :
  let st := stats (config m) in
  exists dc de : Z,
    (0 <= dc <= Z.of_nat (length Es))%Z
    /\ (0 <= de <= Z.of_nat (length Es))%Z
    /\ config (run P roleInfo Es m) =
       with_stats (config m)
         {| completed := completed st + dc;
            points := points st + dc * role_points roleInfo;
            errors := errors st + de |}.
Proof.
  cbn zeta. revert m. induction Es as [ | E Es IH]; intros m.
  - exists 0%Z, 0%Z. cbn [run fold_left length].
    repeat split; try lia. rewrite <- (with_stats_same (config m)) at 1.
    destruct (stats (config m)); cbn. do 2 f_equal; lia.
  - rewrite run_cons.
    destruct (step_stats P roleInfo E m) as (dc1 & de1 & Hc1 & He1 & H1).
    destruct (IH (step P roleInfo E m)) as (dc & de & Hc & He & H).
    cbn zeta in H1. rewrite H, H1.
    exists (dc1 + dc)%Z, (de1 + de)%Z. cbn [length].
    repeat split; try lia.
    rewrite with_stats_twice. cbn [with_stats stats completed points errors].
    do 2 f_equal; lia.
Qed.

(** X10: [workerLoop] changes nothing of the identity but its
    statistics: name, owner, wallet, role, model, keys, agent id, server
    and creation time are, after any number of cycles, those it was
    started with. *)
Theorem identity_kept P cfg d Es m' :
  workerLoop P cfg d Es = Some m' ->
  config m' = with_stats cfg (stats (config m')).
Proof.
  intros H.
  destruct (workerLoop_run _ _ _ _ _ H) as (roleInfo & m0 & _ & <- & _ & _ & ->).
  destruct (run_stats P roleInfo Es m0) as (dc & de & _ & _ & Hrun).
  cbn zeta in Hrun. rewrite Hrun at 1. now rewrite Hrun.
Qed.

Lemma identity_kept_witness :
  config (run bare_process trend_researcher_info [cycle_good; cycle_down]
            {| config := trend_bot; consecutiveErrors := 0; disk := Absent;
               trace := [Print LPlain
                           (MWorkerActive (lit "Trend Researcher")
                              (lit "TrendBot") (lit "agent-7"))] |})
  = with_stats trend_bot {| completed := 1; points := 10; errors := 1 |}.
Proof.
  apply (identity_kept bare_process trend_bot Absent [cycle_good; cycle_down]).
  reflexivity.
Defined.

Lemma role_points_positive key roleInfo :
  ROLES key = Some roleInfo -> (0 < role_points roleInfo)%Z.
Proof.
  unfold ROLES, ROLE_TABLE. cbn [assoc].
  repeat (match goal with
          | |- context [if ?b then _ else _] => destruct b
          end; [ intros H; injection H as <-; reflexivity | ]).
  discriminate.
Qed.

(** X11: the statistics of [workerLoop] only grow, by at most one per
    cycle, and the points gained are always the point value of the role
    times the tasks completed. *)
Theorem stats_accounting P cfg d Es m' roleInfo :
  workerLoop P cfg d Es = Some m' ->
  ROLES (role cfg) = Some roleInfo ->
  let before := stats cfg in
  let after := stats (config m') in
  (points after - points before
   = role_points roleInfo * (completed after - completed before))%Z
  /\ (completed before <= completed after
      <= completed before + Z.of_nat (length Es))%Z
  /\ (points before <= points after)%Z
  /\ (errors before <= errors after <= errors before + Z.of_nat (length Es))%Z.
Proof.
  intros H Hrole.
  destruct (workerLoop_run _ _ _ _ _ H) as (r & m0 & Hr & <- & _ & _ & ->).
  rewrite Hrole in Hr. injection Hr as <-.
  pose proof (role_points_positive _ _ Hrole) as Hpos.
  destruct (run_stats P roleInfo Es m0) as (dc & de & Hc & He & Hrun).
  cbn zeta in *. rewrite Hrun.
  cbn [with_stats stats completed points errors]. nia.
Qed.

Lemma stats_accounting_witness :
  let m' := run bare_process trend_researcher_info
              [cycle_good; cycle_rejected; cycle_good]
              {| config := trend_bot; consecutiveErrors := 0; disk := Absent;
                 trace := [Print LPlain
                             (MWorkerActive (lit "Trend Researcher")
                                (lit "TrendBot") (lit "agent-7"))] |} in
  (points (stats (config m')) - 0
   = 10 * (completed (stats (config m')) - 0))%Z.
Proof.
  intros m'.
  apply (stats_accounting bare_process trend_bot Absent
           [cycle_good; cycle_rejected; cycle_good] m' trend_researcher_info);
    reflexivity.
Defined.

(* ===================================================================== *)
(** * The pace of the loop *)
(* ===================================================================== *)

(** The requests for work are the only GET requests of the worker. *)
Definition is_get (e : event) : bool :=
  match e with
  | Http method _ _ _ => Str.eqb method (lit "GET")
  | _ => false
  end.

(** The sleep at the end of a cycle. *)
Definition is_poll_sleep (e : event) : bool :=
  match e with
  | Sleep ms => (ms =? POLL_INTERVAL_MS)%Z
  | _ => false
  end.

Definition polls (tr : list event) : nat := length (filter is_get tr).

Definition poll_sleeps (tr : list event) : nat :=
  length (filter is_poll_sleep tr).

Lemma polls_app a b : polls (a ++ b) = (polls a + polls b)%nat.
Proof. unfold polls. now rewrite filter_app, length_app. Qed.

Lemma poll_sleeps_app a b :
  poll_sleeps (a ++ b) = (poll_sleeps a + poll_sleeps b)%nat.
Proof. unfold poll_sleeps. now rewrite filter_app, length_app. Qed.

Lemma model_events_pace evs :
  Forall model_event evs -> polls evs = 0%nat /\ poll_sleeps evs = 0%nat.
Proof.
  induction 1 as [ | e evs He _ [IH1 IH2]]; [ split; reflexivity | ].
  change (e :: evs) with ([e] ++ evs). rewrite polls_app, poll_sleeps_app.
  rewrite IH1, IH2.
  destruct e as [method u h b | data | ms | lvl what]; cbn in He.
  - subst method. split; reflexivity.
  - contradiction.
  - subst ms. split; reflexivity.
  - split; reflexivity.
Qed.

Lemma failed_pace why m :
  polls (trace (failed why m)) = polls (trace m)
  /\ poll_sleeps (trace (failed why m)) = S (poll_sleeps (trace m)).
Proof.
  unfold failed. cbn [trace]. rewrite !polls_app, !poll_sleeps_app.
  destruct (MAX_CONSECUTIVE_ERRORS <=? consecutiveErrors m + 1)%Z; cbn;
    split; lia.
Qed.

Lemma step_pace P roleInfo E m :
  polls (trace (step P roleInfo E m)) = S (polls (trace m))
  /\ poll_sleeps (trace (step P roleInfo E m)) = S (poll_sleeps (trace m)).
Proof.
  destruct (step_path P roleInfo E m);
    repeat match goal with
           | |- context [failed ?w ?x] =>
               let H1 := fresh in
               let H2 := fresh in
               destruct (failed_pace w x) as [H1 H2]; rewrite H1, H2;
               clear H1 H2
           end;
    cbn [trace add_events received];
    repeat match goal with
           | |- context [events_of (processWithAI ?a ?b ?c ?d)] =>
               let H1 := fresh in
               let H2 := fresh in
               destruct (model_events_pace _
                           (proj1 (processWithAI_events a b c d)))
                 as [H1 H2];
               change (?x :: ?y :: events_of (processWithAI a b c d))
                 with ([x; y] ++ events_of (processWithAI a b c d));
               rewrite !polls_app, !poll_sleeps_app, ?H1, ?H2;
               clear H1 H2
           end;
    rewrite ?polls_app, ?poll_sleeps_app; cbn; split; lia.
Qed.

(** X12: [workerLoop] polls at the pace of its sleep: in every cycle it
    asks the coordinator for work exactly once and sleeps the poll
    interval exactly once, whatever happens in between; after [n] cycles
    it has sent [n] requests for work and slept [n] poll intervals. *)
Theorem one_poll_per_cycle P roleInfo Es m :
  let m' := run P roleInfo Es m in
  polls (trace m') = (polls (trace m) + length Es)%nat
  /\ poll_sleeps (trace m') = (poll_sleeps (trace m) + length Es)%nat.
Proof.
  cbn zeta. revert m. induction Es as [ | E Es IH]; intros m.
  - cbn. split; lia.
  - rewrite run_cons. destruct (IH (step P roleInfo E m)) as [H1 H2].
    destruct (step_pace P roleInfo E m) as [S1 S2].
    rewrite H1, H2, S1, S2. cbn [length]. split; lia.
Qed.

(* ===================================================================== *)
(** * Failures after the work has arrived *)
(* ===================================================================== *)

(** X13: when the coordinator has accepted a submission and writing the
    identity file then fails, the cycle counts both as a completed task
    and as an error: the completed count and the points grow, the error
    count grows by one, the consecutive counter is one, and the file is
    left as the failed write left it. *)
Theorem save_failure_counts_twice P roleInfo E m why remains :
  submits P E m ->
  write_reply E = WriteFailed why remains ->
  let m' := step P roleInfo E m in
  completed (stats (config m')) = (completed (stats (config m)) + 1)%Z
  /\ points (stats (config m'))
     = (points (stats (config m)) + role_points roleInfo)%Z
  /\ errors (stats (config m')) = (errors (stats (config m)) + 1)%Z
  /\ consecutiveErrors m' = 1%Z
  /\ disk m' = remains
  /\ In (Print LErr (MWorkerError 1 why)) (trace m').
Proof.
  intros (work & taskId & r & ack & Hf & Ht & Hs & Hr & Htr & Hsub) Hw.
  cbn zeta. rewrite step_unfold.
  rewrite (try_save_throws P roleInfo E m _ _ Hf Ht Hs _ Hr Htr _ _ _ Hsub Hw).
  unfold failed.
  cbn [config consecutiveErrors disk trace bump_errors award with_stats stats
       completed points errors].
  change (MAX_CONSECUTIVE_ERRORS <=? 0 + 1)%Z with false.
  repeat split. rewrite !in_app_iff. right. left. now left.
Qed.

Lemma save_failure_counts_twice_witness :
  let E := {| work_reply := a_task;
              ai_reply := gemini_says (jlit "{'trend_name':'dinos'}");
              submit_reply := accepted;
              write_reply := WriteFailed (lit "ENOSPC") Absent |} in
  let m' := step bare_process trend_researcher_info E
                 (fresh trend_bot Absent) in
  completed (stats (config m')) = 1%Z
  /\ errors (stats (config m')) = 1%Z
  /\ disk m' = Absent.
Proof.
  intros E m'.
  destruct (save_failure_counts_twice bare_process trend_researcher_info E
              (fresh trend_bot Absent) (lit "ENOSPC") Absent)
    as (H1 & _ & H3 & _ & H5 & _).
  - exists (obj [("task_id", JStr (lit "t1"));
                 ("prompt", JStr (lit "dinosaur obby"))]%string),
      (JStr (lit "t1")),
      (obj [("trend_name", JStr (lit "dinos"))]%string),
      (obj [("ok", JBool true)]%string).
    repeat split; vm_compute; reflexivity.
  - reflexivity.
  - repeat split; assumption.
Defined.

(** X14: a work item whose prompt is neither a string nor an array (a
    number, [true] or an object under [prompt], [description] or [task])
    fails the cycle before the model is called: the only request is the
    one for work, nothing is submitted or written, the error count grows
    by one and the consecutive counter is one. *)
Theorem unsliceable_prompt P roleInfo E m work taskId :
  result_of (fetchWork P (config m) (work_reply E)) = Ok work ->
  task_of work = Some taskId ->
  has_slice (prompt_of work) = false ->
  let m' := step P roleInfo E m in
  http_calls (trace m') = http_calls (trace m) ++ [work_request P (config m)]
  /\ writes (trace m') = writes (trace m)
  /\ disk m' = disk m
  /\ config m' = bump_errors (config m)
  /\ consecutiveErrors m' = 1%Z.
Proof.
  intros Hf Ht Hs. cbn zeta.
  rewrite step_unfold, (try_no_slice P roleInfo E m _ _ Hf Ht Hs),
    fetchWork_events.
  unfold failed, received.
  cbn [config consecutiveErrors disk trace].
  change (MAX_CONSECUTIVE_ERRORS <=? 0 + 1)%Z with false.
  unfold http_calls, writes. rewrite !filter_app. cbn.
  rewrite !app_nil_r. repeat split.
Qed.

Lemma unsliceable_prompt_witness :
  let E := {| work_reply :=
                Response 200 (jlit "{'task_id':'t1','prompt':{'topic':'dinos'}}");
              ai_reply := NetFail []; submit_reply := NetFail [];
              write_reply := Written |} in
  config (step bare_process trend_researcher_info E (fresh trend_bot Absent))
  = bump_errors trend_bot.
Proof.
  intros E.
  refine (proj1 (proj2 (proj2 (proj2
    (unsliceable_prompt bare_process trend_researcher_info E
       (fresh trend_bot Absent)
       (obj [("task_id", JStr (lit "t1"));
             ("prompt", obj [("topic", JStr (lit "dinos"))])]%string)
       (JStr (lit "t1")) _ _ _)))));
    vm_compute; reflexivity.
Defined.

(* ===================================================================== *)
(** * Workers without a backend *)
(* ===================================================================== *)

(** With the model [openclaw] or [none], [processWithAI] returns nothing
    but [null] and sends nothing. *)
Lemma no_backend_null P cfg prompt reply :
  model cfg = lit "openclaw" \/ model cfg = lit "none" ->
  (forall r, result_of (processWithAI P cfg prompt reply) = Ok r -> r = JNull)
  /\ http_calls (events_of (processWithAI P cfg prompt reply)) = [].
Proof.
  intros Hm. split.
  - intros r. unfold result_of, processWithAI.
    destruct (ROLE_PROMPTS (role cfg)); [ | cbn; congruence ].
    destruct Hm as [-> | ->]; [ cbn; congruence | ].
    destruct (has_slice prompt); cbn; congruence.
  - destruct (processWithAI_events P cfg prompt reply) as [_ H].
    cbn zeta in H.
    destruct (ROLE_PROMPTS (role cfg)); [ | exact H ].
    destruct Hm as [Hm | Hm]; rewrite Hm in H; exact H.
Qed.

Lemma http_calls_app a b : http_calls (a ++ b) = http_calls a ++ http_calls b.
Proof. apply filter_app. Qed.

Lemma failed_http why m :
  http_calls (trace (failed why m)) = http_calls (trace m).
Proof.
  unfold failed. cbn [trace]. rewrite !http_calls_app.
  destruct (MAX_CONSECUTIVE_ERRORS <=? consecutiveErrors m + 1)%Z; cbn;
    now rewrite app_nil_r.
Qed.

Lemma no_backend_step P roleInfo E m :
  model (config m) = lit "openclaw" \/ model (config m) = lit "none" ->
  let m' := step P roleInfo E m in
  http_calls (trace m') = http_calls (trace m) ++ [work_request P (config m)]
  /\ disk m' = disk m
  /\ writes (trace m') = writes (trace m)
  /\ completed (stats (config m')) = completed (stats (config m))
  /\ points (stats (config m')) = points (stats (config m)).
Proof.
  intros Hm. cbn zeta.
  destruct (step_path P roleInfo E m);
    try match goal with
        | Hr : result_of (processWithAI _ _ _ _) = Ok ?r,
          Ht : truthy ?r = true |- _ =>
            apply (proj1 (no_backend_null _ _ _ _ Hm)) in Hr;
            subst; discriminate
        end;
    repeat match goal with
           | |- context [failed ?w ?x] =>
               rewrite (failed_http w x);
               rewrite (proj1 (failed_quiet w x));
               rewrite (proj2 (failed_quiet w x))
           end;
    unfold failed, received, add_events;
    cbn [config consecutiveErrors disk trace bump_errors with_stats stats
         completed points];
    rewrite ?http_calls_app, ?writes_app;
    try (change (?x :: ?y :: events_of ?c) with ([x; y] ++ events_of c);
         rewrite ?http_calls_app, ?writes_app,
           (proj2 (no_backend_null _ _ _ _ Hm)),
           (proj1 (processWithAI_quiet _ _ _ _)));
    cbn; rewrite ?app_nil_r; repeat split.
Qed.

(** X15: a worker whose model is [openclaw] or [none] never completes a
    task: over any number of cycles the only requests it sends are the
    requests for work, one per cycle; nothing is submitted, the file is
    neither written nor changed, and the completed count and the points
    stay as they were. *)
Theorem no_backend_no_submission P roleInfo Es m :
  model (config m) = lit "openclaw" \/ model (config m) = lit "none" ->
  let m' := run P roleInfo Es m in
  http_calls (trace m')
  = http_calls (trace m) ++ repeat (work_request P (config m)) (length Es)
  /\ disk m' = disk m
  /\ writes (trace m') = writes (trace m)
  /\ completed (stats (config m')) = completed (stats (config m))
  /\ points (stats (config m')) = points (stats (config m)).
Proof.
  cbn zeta. revert m. induction Es as [ | E Es IH]; intros m Hm.
  - cbn. rewrite app_nil_r. repeat split.
  - rewrite run_cons.
    destruct (no_backend_step P roleInfo E m Hm) as (S1 & S2 & S3 & S4 & S5).
    destruct (step_stats P roleInfo E m) as (dc & de & _ & _ & Hcfg).
    cbn zeta in *.
    assert (Hm' : model (config (step P roleInfo E m)) = lit "openclaw"
                  \/ model (config (step P roleInfo E m)) = lit "none")
      by (rewrite Hcfg; exact Hm).
    assert (Hreq : work_request P (config (step P roleInfo E m))
                   = work_request P (config m))
      by (rewrite Hcfg; reflexivity).
    destruct (IH (step P roleInfo E m) Hm') as (I1 & I2 & I3 & I4 & I5).
    rewrite I1, I2, I3, I4, I5, S1, S2, S3, S4, S5, Hreq.
    cbn [length repeat]. rewrite <- app_assoc. repeat split.
Qed.

Lemma no_backend_no_submission_witness :
  let manual :=
    {| name := name trend_bot; owner := owner trend_bot;
       solana_wallet := []; role := role trend_bot;
       model := lit "none"; model_info := lit "manual";
       ai_api_key := None; agent_id := agent_id trend_bot;
       api_key := api_key trend_bot; server := server trend_bot;
       created_at := created_at trend_bot; stats := stats trend_bot |} in
  let m' := run bare_process trend_researcher_info
              [cycle_good; cycle_good] (fresh manual Absent) in
  http_calls (trace m')
  = [work_request bare_process manual; work_request bare_process manual]
  /\ completed (stats (config m')) = 0%Z.
Proof.
  intros manual m'.
  destruct (no_backend_no_submission bare_process trend_researcher_info
              [cycle_good; cycle_good] (fresh manual Absent))
    as (H1 & _ & _ & H4 & _).
  - right. reflexivity.
  - split; [ exact H1 | exact H4 ].
Defined.

(* ===================================================================== *)
(** * Starting and stopping the process *)
(* ===================================================================== *)

(** The functions of [index.js] that run before and after the loop:
    [parseCLIFlag], [hasCLIFlag], [SERVER_URL], [isRunningInOpenClaw],
    [registerAgent], [cliSetup], [interactiveSetup], [main] and
    [handleShutdown].  The configuration is the JavaScript object the
    script builds, property by property; the time stamps and colours of
    the log lines are left out, as in [Agent]. *)
Module Startup.

(** ** CLI flag parsing *)

(** [process.argv.indexOf(flag)]. *)
Fixpoint indexOf (argv : list str) (flag : str) : option nat :=
  match argv with
  | [] => None
  | a :: rest =>
      if Str.eqb a flag then Some O else option_map S (indexOf rest flag)
  end.

Definition parseCLIFlag (argv : list str) (flag : str) : option str :=
  match indexOf argv flag with
  | None => None
  | Some idx =>
      if (length argv <=? idx + 1)%nat then None
      else nth_error argv (idx + 1)
  end.

Definition hasCLIFlag (argv : list str) (flag : str) : bool :=
  existsb (fun a => Str.eqb a flag) argv.

(** How the process was started: [process.env] and [process.argv]. *)
Record launch : Type :=
  { variables : str -> option str;
    argv : list str }.

(** [process.env.CLANKERBLOX_SERVER || parseCLIFlag("--server") ||
    DEFAULT_SERVER]. *)
Definition SERVER_URL (L : launch) : str :=
  match or_str (variables L (lit "CLANKERBLOX_SERVER"))
               (nonempty (parseCLIFlag (argv L) (lit "--server"))) with
  | Some s => s
  | None => DEFAULT_SERVER
  end.

Definition process_of (L : launch) : process :=
  {| env := variables L; Agent.SERVER_URL := SERVER_URL L |}.

(** ** OpenClaw detection *)

Definition isRunningInOpenClaw (L : launch) : bool :=
  match variables L (lit "OPENCLAW") with
  | Some s => Str.eqb s (lit "1")
  | None => false
  end
  || match nonempty (variables L (lit "OPENCLAW_MODEL")) with
     | Some _ => true
     | None => false
     end
  || match nonempty (variables L (lit "OPENCLAW_SESSION")) with
     | Some _ => true
     | None => false
     end.

(** ** JavaScript objects *)

(** The properties every object inherits from [Object.prototype]. *)
Definition OBJECT_PROTOTYPE : list str :=
  map lit [ "constructor"; "__defineGetter__"; "__defineSetter__";
            "hasOwnProperty"; "__lookupGetter__"; "__lookupSetter__";
            "isPrototypeOf"; "propertyIsEnumerable"; "toString"; "valueOf";
            "__proto__"; "toLocaleString" ]%string.

(** What [table[key]] finds in one of the constant tables of the script:
    an entry of the table, a property of the prototype (which is truthy
    and has none of the properties of an entry), or nothing. *)
Inductive slot (A : Type) : Type :=
| Own (a : A)
| Inherited
| Missing.
Arguments Own {A} a.
Arguments Inherited {A}.
Arguments Missing {A}.

Definition member_of {A : Type} (table : list (str * A)) (key : str)
  : slot A :=
  match assoc key table with
  | Some a => Own a
  | None =>
      if existsb (Str.eqb key) OBJECT_PROTOTYPE then Inherited else Missing
  end.

(** A value as a template literal or a property key shows it;
    [None] stands for [undefined]. *)
Definition shown (x : option json) : str :=
  match x with
  | Some v => to_string v
  | None => lit "undefined"
  end.

(** [o.k]. *)
Definition prop (k : string) (o : json) : option json := get (lit k) o.

(** [o.k = v] on an object. *)
Definition put (k : string) (v : json) (o : json) : json :=
  match o with
  | JObj l => JObj (set_prop (lit k) v l)
  | _ => o
  end.

(** [o.k = undefined] on an object: the property then reads as
    [undefined] and [JSON.stringify] leaves it out, as if it were not
    there. *)
Definition drop (k : string) (o : json) : json :=
  match o with
  | JObj l => JObj (filter (fun kv => negb (Str.eqb (fst kv) (lit k))) l)
  | _ => o
  end.

Definition put_opt (k : string) (v : option json) (o : json) : json :=
  match v with
  | Some x => put k x o
  | None => drop k o
  end.

(** An object literal; a property whose value is [undefined] is left
    out. *)
Fixpoint fields (l : list (string * option json)) : list (str * json) :=
  match l with
  | [] => []
  | (k, Some v) :: rest => (lit k, v) :: fields rest
  | (_, None) :: rest => fields rest
  end.

(** [{...o, k1: v1, ...}]. *)
Definition spread (o : json) (more : list (string * option json)) : json :=
  fold_left (fun acc kv => put_opt (fst kv) (snd kv) acc) more o.

(** [x || d]. *)
Definition or_value (x : option json) (d : json) : json :=
  match x with
  | Some v => if truthy v then v else d
  | None => d
  end.

(** [x || d] on strings that may be missing. *)
Definition or_default (x : option str) (d : str) : str :=
  match nonempty x with
  | Some s => s
  | None => d
  end.

(** [v.slice(0, 8)] on a string or an array. *)
Definition slice8 (v : json) : json :=
  match v with
  | JStr s => JStr (firstn 8 s)
  | JArr l => JArr (firstn 8 l)
  | _ => v
  end.

Definition zero_stats : json :=
  obj [ ("completed", JInt 0); ("points", JInt 0); ("errors", JInt 0) ]%string.

(** ** What the process prints and asks *)

Inductive notice : Type :=
| NBanner (server : str)
| NUsage
| NUsageRole (key : str) (info : RoleInfo)
| NUsageEnd
| NCliFlags
| NLoaded (name role : str)
| NModelOverridden (info : str)
| NKeyOverridden
| NFatal (why : str)
| NUnhandled (why : str)
| NErrorStack (why : str)
| NFirstRun
| NNoConfigFound
| NLetsSetUp
| NGeneratedName (name : str)
| NRolesHeading
| NRoleLine (number : nat) (info : RoleInfo)
| NBlank
| NInvalidSelection
| NRoleChosen (label : str)
| NOpenClawDetected
| NModelsHeading
| NModelLine (number : nat) (label : str) (hasKey : bool) (envKey : str)
| NManualLine (number : nat)
| NNoBackendSelected
| NInvalidRole
| NRegistering (name role : str)
| NRegistered (agent_id key_start : str)
| NRegistrationFailed (why : str)
| NShutdown (signal : str)
| NFinalStats (completed points : str).

Inductive question : Type :=
| QName
| QOwner
| QWallet
| QRole (choices : nat)
| QModel (choices : nat)
| QKey (envKey : str).

Inductive action : Type :=
| Did (e : event)
| Say (lvl : level) (what : notice)
| Ask (q : question)
| CloseInput.

(** What the user types at each prompt of the interactive setup. *)
Record answers : Type :=
  { name_typed : str;
    owner_typed : str;
    wallet_typed : str;
    role_typed : str;
    model_typed : str;
    key_typed : str }.

(** [Math.floor(Math.random() * 9000)] and [new Date().toISOString()] at
    the time of the setup. *)
Record chance : Type :=
  { random_9000 : N;
    now : str }.

(** How the process ends the start-up: it exits, or it enters the loop
    of [workerLoop] with the configuration object. *)
Inductive ending : Type :=
| Exit (code : Z)
| Loop (config : json).

(** ** Computations on the file and the terminal *)

Record world : Type :=
  { stored : file;
    done : list action }.

Definition IO (A : Type) : Type := world -> result A * world.

Definition pure {A : Type} (a : A) : IO A := fun w => (Ok a, w).

Definition raise {A : Type} (why : str) : IO A := fun w => (Throw why, w).

Definition and_next {A B : Type} (c : IO A) (k : A -> IO B) : IO B :=
  fun w =>
    match c w with
    | (Ok a, w') => k a w'
    | (Throw why, w') => (Throw why, w')
    end.

Definition catching {A : Type} (c : IO A) (handler : str -> IO A) : IO A :=
  fun w =>
    match c w with
    | (Ok a, w') => (Ok a, w')
    | (Throw why, w') => handler why w'
    end.

Declare Scope startup_scope.
Delimit Scope startup_scope with startup.
Notation "x <- c ;; k" := (and_next c (fun x => k))
  (at level 61, c at next level, right associativity) : startup_scope.
Notation "c ;; k" := (and_next c (fun _ => k))
  (at level 61, right associativity) : startup_scope.
Local Open Scope startup_scope.

Definition act (a : action) : IO unit :=
  fun w => (Ok tt, {| stored := stored w; done := done w ++ [a] |}).

Definition say (lvl : level) (what : notice) : IO unit := act (Say lvl what).

Fixpoint say_all (lvl : level) (l : list notice) : IO unit :=
  match l with
  | [] => pure tt
  | what :: rest => say lvl what ;; say_all lvl rest
  end.

(** A computation of the worker that uses neither the identity nor the
    error counter ([loadConfig], [apiRequest]), run on the file. *)
Definition worker {A : Type} (c : M A) : IO A :=
  fun w =>
    let rm := c {| config := config blank; consecutiveErrors := 0;
                   disk := stored w; trace := [] |} in
    (fst rm,
     {| stored := disk (snd rm); done := done w ++ map Did (trace (snd rm)) |}).

Definition store (f : file) : IO unit :=
  fun w => (Ok tt, {| stored := f; done := done w |}).

(** [ask(rl, question)]: the answer, trimmed. *)
Definition ask (q : question) (typed : str) : IO str :=
  act (Ask q) ;; pure (trim typed).

(** [saveConfig] on the object the setup has built. *)
Definition saveConfig (v : json) (w : write_outcome) : IO unit :=
  let data := stringify_indent 2 v in
  act (Did (WriteFile data)) ;;
  match w with
  | Written =>
      store (Content data) ;;
      act (Did (Print LOk MConfigSaved))
  | WriteFailed why remains =>
      store remains ;;
      act (Did (Print LErr (MSaveFailed why))) ;;
      raise why
  end.

(** ** Agent registration *)

(** The [payload] of the registration. *)
Definition payload (config : json) : json :=
  JObj (fields
    [ ("name", prop "name" config);
      ("role", prop "role" config);
      ("owner", prop "owner" config);
      ("solana_wallet",
       Some (or_value (prop "solana_wallet" config) JNull));
      ("model_info",
       Some (or_value (prop "model_info" config) (JStr (lit "openclaw"))))
    ]%string).

Definition registerAgent (P : process) (config : json) (reply : http_outcome)
  : IO json :=
  say LInfo (NRegistering (shown (prop "name" config))
                          (shown (prop "role" config))) ;;
  catching
    (result <- worker (apiRequest P (lit "/api/agents/register") (lit "POST")
                         (Some (payload config)) [] reply) ;;
     if negb (truthy result) || negb (truthy_opt (prop "agent_id" result))
     then raise (lit "Registration response missing agent_id")
     else
       let key := or_value (prop "api_key" result) (JStr []) in
       if has_slice key then
         say LOk (NRegistered (shown (prop "agent_id" result))
                              (shown (Some (slice8 key)))) ;;
         pure (JObj (fields
                 [ ("agent_id", prop "agent_id" result);
                   ("api_key",
                    Some (or_value (prop "api_key" result) JNull)) ]%string))
       else raise (jlit "(result.api_key || '').slice is not a function"))
    (fun why => say LErr (NRegistrationFailed why) ;; raise why).

(** The object both setups save and return. *)
Definition fullConfig (L : launch) (C : chance) (config registration : json)
  : json :=
  spread config
    [ ("agent_id", prop "agent_id" registration);
      ("api_key", prop "api_key" registration);
      ("server", Some (JStr (SERVER_URL L)));
      ("created_at", Some (JStr (now C)));
      ("stats", Some zero_stats) ]%string.

Definition generated_name (C : chance) : str :=
  lit "Agent-" ++ Str.digits (random_9000 C + 1000).

(** ** CLI flag-based setup *)

(** [ROLE_KEYS.includes(x)]. *)
Definition is_role (x : option json) : bool :=
  match x with
  | Some (JStr s) => existsb (Str.eqb s) ROLE_KEYS
  | _ => false
  end.

Definition cliSetup (L : launch) (C : chance) (reply : http_outcome)
           (w : write_outcome) : IO json :=
  let flag f := parseCLIFlag (argv L) (lit f) in
  let config :=
    JObj (fields
      [ ("name", Some (nullable (flag "--name")));
        ("owner", Some (JStr (or_default (flag "--owner") (lit "anonymous"))));
        ("solana_wallet", Some (JStr (or_default (flag "--wallet") [])));
        ("role", Some (nullable (flag "--role")));
        ("model", Some (JStr (or_default (flag "--model") (lit "none"))));
        ("model_info",
         Some (JStr (or_default (flag "--model") (lit "manual"))));
        ("ai_api_key", Some (nullable (nonempty (flag "--api-key"))))
      ]%string) in
  let config :=
    if negb (truthy_opt (prop "name" config))
    then put "name" (JStr (generated_name C)) config
    else config in
  config <-
    (if negb (truthy_opt (prop "role" config))
        || negb (is_role (prop "role" config))
     then say LWarn NInvalidRole ;;
          pure (put "role" (JStr (lit "trend_researcher")) config)
     else pure config) ;;
  let fill_key envKey config :=
    if negb (truthy_opt (prop "ai_api_key" config))
    then put "ai_api_key" (nullable (nonempty (variables L envKey))) config
    else config in
  let config :=
    if truthy_opt (prop "model" config) then
      match member_of AI_BACKEND_TABLE (shown (prop "model" config)) with
      | Own backend =>
          fill_key (envKey backend)
                   (put "model_info" (JStr (label backend)) config)
      | Inherited =>
          fill_key (lit "undefined") (drop "model_info" config)
      | Missing => config
      end
    else config in
  registration <- registerAgent (process_of L) config reply ;;
  let full := fullConfig L C config registration in
  saveConfig full w ;;
  pure full.

(** ** Interactive setup *)

(** [parseInt(s, 10)]: the integer a string starts with, after white
    space and a sign; [None] stands for [NaN].  The value is exact; the
    script only compares it with small integers. *)
Definition parseInt (s : str) : option Z :=
  let s1 := trim_start s in
  let signed :=
    match s1 with
    | c :: r =>
        if (c =? 45)%N then (true, r)
        else if (c =? 43)%N then (false, r)
        else (false, s1)
    | [] => (false, s1)
    end in
  match span_digits (snd signed) with
  | ([], _) => None
  | (d, _) => Some (if fst signed then - digits_val d else digits_val d)%Z
  end.

(** Comparisons with a number that may be [NaN]. *)
Definition below (x : option Z) (n : Z) : bool :=
  match x with Some z => (z <? n)%Z | None => false end.

Definition at_least (x : option Z) (n : Z) : bool :=
  match x with Some z => (n <=? z)%Z | None => false end.

(** [keys[idx]]. *)
Definition element (keys : list str) (idx : option Z) : option json :=
  match idx with
  | Some z =>
      if (0 <=? z)%Z then option_map JStr (nth_error keys (Z.to_nat z))
      else None
  | None => None
  end.

Fixpoint numbered {A : Type} (n : nat) (l : list A) : list (nat * A) :=
  match l with
  | [] => []
  | a :: rest => (n, a) :: numbered (S n) rest
  end.

Definition has_variable (L : launch) (key : str) : bool :=
  match nonempty (variables L key) with
  | Some _ => true
  | None => false
  end.

Definition choose_model (L : launch) (A : answers) (config : json) : IO json :=
  if isRunningInOpenClaw L then
    say LInfo NOpenClawDetected ;;
    pure (put "model_info"
            (JStr (lit "openclaw:"
                     ++ or_default (variables L (lit "OPENCLAW_MODEL"))
                                   (lit "default")))
            (put "model" (JStr (lit "openclaw")) config))
  else
    say LPlain NModelsHeading ;;
    say_all LPlain
      (map (fun ib =>
              NModelLine (fst ib) (label (snd (snd ib)))
                (has_variable L (envKey (snd (snd ib))))
                (envKey (snd (snd ib))))
           (numbered 1 AI_BACKEND_TABLE)) ;;
    say LPlain (NManualLine (length AI_BACKEND_KEYS + 1)) ;;
    say LPlain NBlank ;;
    modelChoice <- ask (QModel (length AI_BACKEND_KEYS + 1)) (model_typed A) ;;
    let modelIdx := option_map (fun z => z - 1)%Z (parseInt modelChoice) in
    if at_least modelIdx 0
       && below modelIdx (Z.of_nat (length AI_BACKEND_KEYS))
    then
      let config := put_opt "model" (element AI_BACKEND_KEYS modelIdx) config in
      match member_of AI_BACKEND_TABLE (shown (prop "model" config)) with
      | Own backend =>
          let config := put "model_info" (JStr (label backend)) config in
          match nonempty (variables L (envKey backend)) with
          | None =>
              apiKey <- ask (QKey (envKey backend)) (key_typed A) ;;
              match apiKey with
              | [] => pure config
              | _ :: _ => pure (put "ai_api_key" (JStr apiKey) config)
              end
          | Some apiKey => pure (put "ai_api_key" (JStr apiKey) config)
          end
      | _ => raise (lit "Cannot read properties of undefined (reading 'label')")
      end
    else
      say LInfo NNoBackendSelected ;;
      pure (put "model_info" (JStr (lit "manual"))
              (put "model" (JStr (lit "none")) config)).

Definition interactiveSetup (L : launch) (A : answers) (C : chance)
           (reply : http_outcome) (w : write_outcome) : IO json :=
  let config := JObj [] in
  say LPlain NFirstRun ;;
  say LPlain NNoConfigFound ;;
  say LPlain NLetsSetUp ;;
  name <- ask QName (name_typed A) ;;
  let config := put "name" (JStr name) config in
  config <-
    (if negb (truthy_opt (prop "name" config)) then
       let config := put "name" (JStr (generated_name C)) config in
       say LInfo (NGeneratedName (shown (prop "name" config))) ;;
       pure config
     else pure config) ;;
  owner <- ask QOwner (owner_typed A) ;;
  let config := put "owner" (JStr owner) config in
  let config :=
    if negb (truthy_opt (prop "owner" config))
    then put "owner" (JStr (lit "anonymous")) config
    else config in
  wallet <- ask QWallet (wallet_typed A) ;;
  let config := put "solana_wallet" (JStr wallet) config in
  say LPlain NRolesHeading ;;
  say_all LPlain
    (map (fun ir => NRoleLine (fst ir) (snd (snd ir)))
         (numbered 1 ROLE_TABLE)) ;;
  say LPlain NBlank ;;
  roleChoice <- ask (QRole (length ROLE_KEYS)) (role_typed A) ;;
  let roleIdx := option_map (fun z => z - 1)%Z (parseInt roleChoice) in
  config <-
    (if below roleIdx 0 || at_least roleIdx (Z.of_nat (length ROLE_KEYS))
     then say LWarn NInvalidSelection ;;
          pure (put "role" (JStr (lit "trend_researcher")) config)
     else pure (put_opt "role" (element ROLE_KEYS roleIdx) config)) ;;
  match member_of ROLE_TABLE (shown (prop "role" config)) with
  | Own info => say LOk (NRoleChosen (role_label info))
  | Inherited => say LOk (NRoleChosen (lit "undefined"))
  | Missing => raise (lit "Cannot read properties of undefined (reading 'label')")
  end ;;
  config <- choose_model L A config ;;
  act CloseInput ;;
  say LPlain NBlank ;;
  registration <- registerAgent (process_of L) config reply ;;
  let full := fullConfig L C config registration in
  saveConfig full w ;;
  pure full.

(** ** Main entry point *)

(** The type [typeof] names for a value that is not an object. *)
Definition type_name (v : json) : str :=
  match v with
  | JBool _ => lit "boolean"
  | JNum _ _ => lit "number"
  | JStr _ => lit "string"
  | _ => lit "object"
  end.

(** [config.k = v] in strict mode, on whatever [loadConfig] returned: an
    object takes the property, an array takes it too (none of the
    properties the loop reads is an index, and this model does not show
    it), anything else makes the assignment throw. *)
Definition assign (k : string) (v : option json) (config : json) : IO json :=
  match config with
  | JObj _ => pure (put_opt k v config)
  | JArr _ => pure config
  | _ =>
      raise (lit "Cannot create property '" ++ lit k ++ lit "' on "
               ++ type_name config ++ lit " '" ++ to_string config
               ++ lit "'")
  end.

(** [ROLES[config.role]?.label || config.role]. *)
Definition label_or_role (config : json) : option json :=
  match member_of ROLE_TABLE (shown (prop "role" config)) with
  | Own info => Some (JStr (role_label info))
  | _ => prop "role" config
  end.

(** The parts of [main] that adapt a configuration read from the file:
    the model and the key given on the command line override the stored
    ones, *)
Definition override_model (L : launch) (config : json) : IO json :=
  match nonempty (parseCLIFlag (argv L) (lit "--model")) with
  | Some cliModel =>
      match member_of AI_BACKEND_TABLE cliModel with
      | Own backend =>
          c1 <- assign "model" (Some (JStr cliModel)) config ;;
          c2 <- assign "model_info" (Some (JStr (label backend))) c1 ;;
          say LInfo (NModelOverridden (label backend)) ;;
          pure c2
      | Inherited =>
          c1 <- assign "model" (Some (JStr cliModel)) config ;;
          c2 <- assign "model_info" None c1 ;;
          say LInfo (NModelOverridden (lit "undefined")) ;;
          pure c2
      | Missing => pure config
      end
  | None => pure config
  end.

Definition override_key (L : launch) (config : json) : IO json :=
  match nonempty (parseCLIFlag (argv L) (lit "--api-key")) with
  | Some cliApiKey =>
      c <- assign "ai_api_key" (Some (JStr cliApiKey)) config ;;
      say LInfo NKeyOverridden ;;
      pure c
  | None => pure config
  end.

(** the server is the one of this start, and statistics are created
    when the file has none. *)
Definition adopt (L : launch) (loaded : json) : IO json :=
  say LOk (NLoaded (shown (prop "name" loaded))
                   (shown (label_or_role loaded))) ;;
  config <- override_model L loaded ;;
  config <- override_key L config ;;
  config <- assign "server" (Some (JStr (SERVER_URL L))) config ;;
  if negb (truthy_opt (prop "stats" config))
  then assign "stats" (Some zero_stats) config
  else pure config.

(** [workerLoop(config)] up to its first cycle, inside the [try] of
    [main]: without a role of the table the banner throws and the
    process exits. *)
Definition enter_loop (config : json) : IO ending :=
  match member_of ROLE_TABLE (shown (prop "role" config)) with
  | Own info =>
      act (Did (Print LPlain
                  (MWorkerActive (role_label info)
                     (shown (prop "name" config))
                     (shown (prop "agent_id" config))))) ;;
      pure (Loop config)
  | Inherited =>
      act (Did (Print LPlain
                  (MWorkerActive (lit "undefined")
                     (shown (prop "name" config))
                     (shown (prop "agent_id" config))))) ;;
      pure (Loop config)
  | Missing =>
      let why := lit "Cannot read properties of undefined (reading 'label')" in
      say LErr (NFatal why) ;;
      say LErr (NErrorStack why) ;;
      pure (Exit 1)
  end.

Definition main (L : launch) (A : answers) (C : chance)
           (reply : http_outcome) (w : write_outcome) : IO ending :=
  say LPlain (NBanner (SERVER_URL L)) ;;
  if hasCLIFlag (argv L) (lit "--help") || hasCLIFlag (argv L) (lit "-h")
  then
    say LPlain NUsage ;;
    say_all LPlain (map (fun kr => NUsageRole (fst kr) (snd kr)) ROLE_TABLE) ;;
    say LPlain NUsageEnd ;;
    pure (Exit 0)
  else
    loaded <- worker loadConfig ;;
    config <-
      (if negb (truthy loaded) then
         match nonempty (parseCLIFlag (argv L) (lit "--name")),
               nonempty (parseCLIFlag (argv L) (lit "--role")) with
         | Some _, Some _ => say LInfo NCliFlags ;; cliSetup L C reply w
         | _, _ => interactiveSetup L A C reply w
         end
       else adopt L loaded) ;;
    enter_loop config.

(** [main().catch(...)], the whole start of the process. *)
Definition start (L : launch) (A : answers) (C : chance)
           (reply : http_outcome) (w : write_outcome) (x : world)
  : ending * world :=
  match main L A C reply w x with
  | (Ok e, x') => (e, x')
  | (Throw why, x') =>
      (Exit 1,
       {| stored := stored x';
          done := done x' ++ [Say LErr (NUnhandled why);
                              Say LErr (NErrorStack why)] |})
  end.

(** ** Graceful shutdown *)

Definition handleShutdown (signal : str) : IO ending :=
  say LPlain (NShutdown signal) ;;
  config <- worker loadConfig ;;
  (if truthy config then
     say LPlain
       (NFinalStats
          (shown (Some (or_value (chain (prop "stats" config)
                                        (get (lit "completed")))
                                 (JInt 0))))
          (shown (Some (or_value (chain (prop "stats" config)
                                        (get (lit "points")))
                                 (JInt 0)))))
   else pure tt) ;;
  pure (Exit 0).

End Startup.

(* ===================================================================== *)
(** * The command line *)
(* ===================================================================== *)

Lemma indexOf_spec argv flag i :
  Startup.indexOf argv flag = Some i <->
  exists pre post,
    argv = pre ++ flag :: post /\ ~ In flag pre /\ length pre = i.
Proof.
  revert i. induction argv as [ | a rest IH]; intros i; cbn [Startup.indexOf].
  - split; [ discriminate | ]. intros (pre & post & H & _).
    now destruct pre.
  - destruct (Str.eqb a flag) eqn:Ha.
    + apply str_eqb_eq in Ha. subst a. split.
      * intros H. injection H as <-. exists [], rest. now repeat split.
      * intros (pre & post & H & Hn & <-). destruct pre as [ | p pre].
        -- reflexivity.
        -- injection H as <- _. cbn in Hn. tauto.
    + assert (Hne : a <> flag).
      { intros ->. now rewrite str_eqb_refl in Ha. }
      split.
      * destruct (Startup.indexOf rest flag) as [j | ] eqn:Hj;
          [ | discriminate ].
        cbn [option_map]. intros H. injection H as <-.
        destruct (proj1 (IH j) eq_refl) as (pre & post & -> & Hn & <-).
        exists (a :: pre), post. repeat split.
        cbn [In]. intros [H | H]; [ now apply Hne | now apply Hn ].
      * intros (pre & post & H & Hn & <-). destruct pre as [ | p pre].
        -- injection H as -> _. now destruct Hne.
        -- injection H as <- ->. cbn [In] in Hn.
           rewrite (proj2 (IH (length pre))); [ reflexivity | ].
           exists pre, post. repeat split. tauto.
Qed.

Lemma indexOf_none argv flag :
  Startup.indexOf argv flag = None <-> ~ In flag argv.
Proof.
  induction argv as [ | a rest IH]; cbn [Startup.indexOf In]; [ tauto | ].
  destruct (Str.eqb a flag) eqn:Ha.
  - apply str_eqb_eq in Ha. split; [ discriminate | tauto ].
  - assert (Hne : a <> flag).
    { intros ->. now rewrite str_eqb_refl in Ha. }
    destruct (Startup.indexOf rest flag); cbn [option_map].
    + split; [ discriminate | ]. intros H. exfalso. apply H. right.
      apply Decidable.not_not; [ | now rewrite <- IH ].
      destruct (in_dec (list_eq_dec N.eq_dec) flag rest); [ now left | now right ].
    + split; [ | reflexivity ]. intros _ [H | H]; [ now apply Hne | ].
      now apply (proj1 IH).
Qed.

Lemma parseCLIFlag_some argv flag v :
  Startup.parseCLIFlag argv flag = Some v <->
  exists pre post, argv = pre ++ flag :: v :: post /\ ~ In flag pre.
Proof.
  unfold Startup.parseCLIFlag. split.
  - destruct (Startup.indexOf argv flag) as [i | ] eqn:Hi;
      [ | discriminate ].
    apply indexOf_spec in Hi. destruct Hi as (pre & post & -> & Hn & <-).
    destruct (length (pre ++ flag :: post) <=? length pre + 1)%nat;
      [ discriminate | ].
    rewrite nth_error_app2 by lia.
    replace (length pre + 1 - length pre)%nat with 1%nat by lia.
    destruct post as [ | v' post]; cbn; [ discriminate | ].
    intros H. injection H as ->. now exists pre, post.
  - intros (pre & post & -> & Hn).
    rewrite (proj2 (indexOf_spec _ flag (length pre))).
    2:{ exists pre, (v :: post). now repeat split. }
    destruct (Nat.leb_spec (length (pre ++ flag :: v :: post))
                (length pre + 1)) as [H | H].
    { rewrite length_app in H. cbn [length] in H. lia. }
    rewrite nth_error_app2 by lia.
    replace (length pre + 1 - length pre)%nat with 1%nat by lia.
    reflexivity.
Qed.

Lemma parseCLIFlag_none argv flag :
  Startup.parseCLIFlag argv flag = None <->
  ~ In flag argv \/ exists pre, argv = pre ++ [flag] /\ ~ In flag pre.
Proof.
  unfold Startup.parseCLIFlag.
  destruct (Startup.indexOf argv flag) as [i | ] eqn:Hi.
  - apply indexOf_spec in Hi. destruct Hi as (pre & post & -> & Hn & <-).
    destruct post as [ | v post].
    + destruct (Nat.leb_spec (length (pre ++ [flag])) (length pre + 1))
        as [H | H].
      * split; [ | reflexivity ]. intros _. right. now exists pre.
      * rewrite length_app in H. cbn [length] in H. lia.
    + destruct (Nat.leb_spec (length (pre ++ flag :: v :: post))
                  (length pre + 1)) as [H | H].
      { rewrite length_app in H. cbn [length] in H. lia. }
      rewrite nth_error_app2 by lia.
      replace (length pre + 1 - length pre)%nat with 1%nat by lia.
      cbn. split; [ discriminate | ].
      intros [H0 | (pre' & H0 & Hn')].
      * exfalso. apply H0. rewrite in_app_iff. right. now left.
      * exfalso.
        assert (Hlen : length pre' = length pre \/ length pre' <> length pre)
          by lia.
        apply (f_equal (fun l => nth_error l (length pre'))) in H0 as H1.
        rewrite (nth_error_app2 pre') in H1 by lia.
        rewrite Nat.sub_diag in H1. cbn in H1.
        destruct (Nat.lt_trichotomy (length pre') (length pre))
          as [Hlt | [Heq | Hgt]].
        -- rewrite nth_error_app1 in H1 by lia.
           apply nth_error_In in H1. contradiction.
        -- apply (f_equal (@length str)) in H0. rewrite !length_app in H0.
           cbn [length] in H0. lia.
        -- apply (f_equal (fun l => nth_error l (length pre))) in H0 as H2.
           rewrite nth_error_app2, Nat.sub_diag in H2 by lia. cbn in H2.
           rewrite nth_error_app1 in H2 by lia. symmetry in H2.
           apply nth_error_In in H2. contradiction.
  - apply indexOf_none in Hi. split; [ now left | reflexivity ].
Qed.

(** X16: [parseCLIFlag] returns the argument that follows the first
    occurrence of the flag, whatever it is (another flag, or the empty
    string), and [null] exactly when the flag is absent or its first
    occurrence is the last argument; [hasCLIFlag] tells whether the flag
    occurs at all. *)
Theorem parseCLIFlag_spec argv flag :
  (forall v,
      Startup.parseCLIFlag argv flag = Some v <->
      exists pre post, argv = pre ++ flag :: v :: post /\ ~ In flag pre)
  /\ (Startup.parseCLIFlag argv flag = None <->
      ~ In flag argv \/ exists pre, argv = pre ++ [flag] /\ ~ In flag pre)
  /\ (Startup.hasCLIFlag argv flag = true <-> In flag argv).
Proof.
  split; [ intros v; apply parseCLIFlag_some | ].
  split; [ apply parseCLIFlag_none | ].
  unfold Startup.hasCLIFlag. rewrite existsb_exists. split.
  - intros (a & Ha & He). apply str_eqb_eq in He. now subst a.
  - intros H. exists flag. split; [ exact H | apply str_eqb_refl ].
Qed.

Lemma parseCLIFlag_found pre flag v post :
  ~ In flag pre ->
  Startup.parseCLIFlag (pre ++ flag :: v :: post) flag = Some v.
Proof.
  intros H. apply parseCLIFlag_some. now exists pre, post.
Qed.

(** X17: the server address is never empty: the variable
    [CLANKERBLOX_SERVER], when set to a non-empty value, wins over the
    flag [--server], a non-empty value of the flag wins over the default,
    and an empty value counts as none. *)
Theorem server_url_choice L :
  Startup.SERVER_URL L <> []
  /\ (forall s,
        nonempty (Startup.variables L (lit "CLANKERBLOX_SERVER")) = Some s ->
        Startup.SERVER_URL L = s)
  /\ (nonempty (Startup.variables L (lit "CLANKERBLOX_SERVER")) = None ->
      (forall s,
          nonempty (Startup.parseCLIFlag (Startup.argv L) (lit "--server"))
            = Some s ->
          Startup.SERVER_URL L = s)
      /\ (nonempty (Startup.parseCLIFlag (Startup.argv L) (lit "--server"))
            = None ->
          Startup.SERVER_URL L = DEFAULT_SERVER)).
Proof.
  unfold Startup.SERVER_URL.
  destruct (Startup.variables L (lit "CLANKERBLOX_SERVER")) as [[ | c r] | ];
    cbn [nonempty or_str];
    destruct (Startup.parseCLIFlag (Startup.argv L) (lit "--server"))
      as [[ | c' r'] | ]; cbn [nonempty or_str];
    repeat split; try discriminate; intros; try congruence.
Qed.

(* ===================================================================== *)
(** * Registration *)
(* ===================================================================== *)

(** An oblivious computation of the worker, run from the start-up. *)
Lemma worker_oblivious (A : Type) (c : M A) x :
  oblivious c ->
  Startup.worker c x =
  (result_of c,
   {| Startup.stored := Startup.stored x;
      Startup.done := Startup.done x ++ map Startup.Did (events_of c) |}).
Proof.
  intros H. unfold Startup.worker. rewrite (oblivious_run _ c H).
  reflexivity.
Qed.

Lemma apiRequest_events P endpoint method body hdrs reply :
  events_of (apiRequest P endpoint method body hdrs reply)
  = [Http method (Agent.SERVER_URL P ++ endpoint) (json_headers hdrs)
          (option_map stringify body)].
Proof.
  unfold events_of, apiRequest, fetch, bind, emit.
  destruct reply as [why | status text]; cbn; [ reflexivity | ].
  destruct (resp_ok status); cbn; [ | reflexivity ].
  destruct text; [ reflexivity | ]. destruct (parse (n :: text)); reflexivity.
Qed.

(** What [apiRequest] resolves to on a success status. *)
Definition api_value (text : str) : json :=
  match text with
  | [] => JNull
  | _ :: _ =>
      match parse text with
      | Some v => v
      | None => JStr text
      end
  end.

Lemma apiRequest_result P endpoint method body hdrs reply :
  result_of (apiRequest P endpoint method body hdrs reply) =
  match reply with
  | NetFail why => Throw why
  | Response status text =>
      if resp_ok status then Ok (api_value text)
      else Throw (api_failure method endpoint status text)
  end.
Proof.
  unfold result_of, apiRequest, fetch, bind, emit, api_value.
  destruct reply as [why | status text]; cbn; [ reflexivity | ].
  destruct (resp_ok status); cbn; [ | reflexivity ].
  destruct text; [ reflexivity | ]. destruct (parse (n :: text)); reflexivity.
Qed.

(** The value [apiRequest] resolves to has an [agent_id] only when the
    body is JSON text. *)
Lemma api_value_prop k text id :
  Startup.prop k (api_value text) = Some id -> parse text = Some (api_value text).
Proof.
  unfold api_value. destruct text as [ | c text]; [ discriminate | ].
  destruct (parse (c :: text)); [ reflexivity | discriminate ].
Qed.

Ltac io :=
  unfold Startup.and_next, Startup.catching, Startup.say, Startup.act,
    Startup.pure, Startup.raise, Startup.store;
  cbn [fst snd Startup.stored Startup.done].

(** X18: [registerAgent] sends exactly one request, a POST to
    [/api/agents/register], and leaves the file alone.  It returns only
    when the coordinator answers with a success status and JSON text that
    holds a truthy [agent_id]; the registration is then that id with the
    [api_key] of the answer, [null] when the answer has none.  Every
    failure is reported as a failed registration and thrown on. *)
Theorem registerAgent_outcome P config reply x :
  let out := Startup.registerAgent P config reply x in
  Startup.stored (snd out) = Startup.stored x
  /\ (exists body lvl what,
        Startup.done (snd out) =
        Startup.done x
          ++ [ Startup.Say LInfo
                 (Startup.NRegistering
                    (Startup.shown (Startup.prop "name" config))
                    (Startup.shown (Startup.prop "role" config)));
               Startup.Did
                 (Http (lit "POST")
                       (Agent.SERVER_URL P ++ lit "/api/agents/register")
                       [(lit "Content-Type", lit "application/json")]
                       (Some body));
               Startup.Say lvl what ])
  /\ match fst out with
     | Ok registration =>
         exists status text answer id,
           reply = Response status text
           /\ resp_ok status = true
           /\ parse text = Some answer
           /\ Startup.prop "agent_id" answer = Some id
           /\ truthy id = true
           /\ registration =
              JObj [ (lit "agent_id", id);
                     (lit "api_key",
                      Startup.or_value (Startup.prop "api_key" answer) JNull) ]
     | Throw why =>
         In (Startup.Say LErr (Startup.NRegistrationFailed why))
            (Startup.done (snd out))
     end.
Proof.
  cbn zeta. unfold Startup.registerAgent. io.
  rewrite worker_oblivious by apply oblivious_apiRequest.
  rewrite apiRequest_events, apiRequest_result.
  cbn [map app Startup.stored Startup.done option_map json_headers].
  set (request :=
         Startup.Did
           (Http (lit "POST")
                 (Agent.SERVER_URL P ++ lit "/api/agents/register")
                 [(lit "Content-Type", lit "application/json")]
                 (Some (stringify (Startup.payload config))))).
  set (begun :=
         Startup.Say LInfo
           (Startup.NRegistering
              (Startup.shown (Startup.prop "name" config))
              (Startup.shown (Startup.prop "role" config)))).
  assert (Hfail : forall why,
    let w' :=
      {| Startup.stored := Startup.stored x;
         Startup.done :=
           ((Startup.done x ++ [begun]) ++ [request])
             ++ [Startup.Say LErr (Startup.NRegistrationFailed why)] |} in
    Startup.stored w' = Startup.stored x
    /\ (exists body lvl what,
          Startup.done w' =
          Startup.done x
            ++ [ begun;
                 Startup.Did
                   (Http (lit "POST")
                         (Agent.SERVER_URL P ++ lit "/api/agents/register")
                         [(lit "Content-Type", lit "application/json")]
                         (Some body));
                 Startup.Say lvl what ])
    /\ In (Startup.Say LErr (Startup.NRegistrationFailed why))
          (Startup.done w')).
  { intros why. cbn zeta. cbn [Startup.stored Startup.done].
    split; [ reflexivity | ]. split.
    - eexists _, _, _. rewrite <- !app_assoc. reflexivity.
    - rewrite !in_app_iff. right. now left. }
  destruct reply as [why | status text]; [ apply Hfail | ].
  destruct (resp_ok status) eqn:Hok; [ | apply Hfail ].
  cbn [fst snd].
  destruct (negb (truthy (api_value text))
            || negb (truthy_opt (Startup.prop "agent_id" (api_value text))))
    eqn:Hbad; [ apply Hfail | ].
  apply orb_false_iff in Hbad as [_ Hid]. apply negb_false_iff in Hid.
  destruct (Startup.prop "agent_id" (api_value text)) as [id | ] eqn:Hp;
    [ | discriminate ].
  cbn [truthy_opt] in Hid.
  destruct (has_slice (Startup.or_value
                         (Startup.prop "api_key" (api_value text)) (JStr [])))
    eqn:Hs; [ | apply Hfail ].
  cbn [fst snd Startup.stored Startup.done Startup.fields].
  split; [ reflexivity | ]. split.
  - eexists _, _, _. rewrite <- !app_assoc. reflexivity.
  - exists status, text, (api_value text), id.
    repeat split; try assumption.
    now apply api_value_prop in Hp.
Qed.

(** What [registerAgent] returns, when it returns. *)
Lemma registerAgent_value P config reply x registration x' :
  Startup.registerAgent P config reply x = (Ok registration, x') ->
  Startup.stored x' = Startup.stored x
  /\ exists id key,
       registration = JObj [(lit "agent_id", id); (lit "api_key", key)].
Proof.
  unfold Startup.registerAgent. io.
  rewrite worker_oblivious by apply oblivious_apiRequest.
  rewrite apiRequest_result.
  destruct reply as [why | status text]; [ discriminate | ].
  destruct (resp_ok status); [ | discriminate ].
  cbn [fst snd].
  destruct (negb (truthy (api_value text))
            || negb (truthy_opt (Startup.prop "agent_id" (api_value text))))
    eqn:Hbad; [ discriminate | ].
  apply orb_false_iff in Hbad as [_ Hid]. apply negb_false_iff in Hid.
  destruct (Startup.prop "agent_id" (api_value text)) as [id | ];
    [ | discriminate ].
  destruct (has_slice (Startup.or_value
                         (Startup.prop "api_key" (api_value text)) (JStr [])));
    [ | discriminate ].
  cbn [fst snd Startup.stored Startup.done Startup.fields].
  intros H. injection H as <- <-. split; [ reflexivity | ].
  now eexists _, _.
Qed.

(* ===================================================================== *)
(** * Setup from the command line *)
(* ===================================================================== *)

(** The coordinator accepts the registration: it answers with a success
    status and JSON text that holds the agent id [id] and the API key
    [key], both strings; [key] is [None] when the answer has no key. *)
Definition registered (reply : http_outcome) (id : str) (key : option str)
  : Prop :=
  exists status text answer,
    reply = Response status text
    /\ resp_ok status = true
    /\ parse text = Some answer
    /\ Startup.prop "agent_id" answer = Some (JStr id)
    /\ id <> []
    /\ Startup.or_value (Startup.prop "api_key" answer) JNull = nullable key.

Lemma parse_empty : parse [] = None.
Proof. reflexivity. Qed.

Lemma api_value_parsed text answer :
  parse text = Some answer -> api_value text = answer.
Proof.
  unfold api_value. destruct text as [ | c text]; [ discriminate | ].
  now intros ->.
Qed.

Lemma key_start x key :
  Startup.or_value x JNull = nullable key ->
  Startup.or_value x (JStr []) = JStr (match key with Some k => k | None => [] end).
Proof.
  unfold Startup.or_value, nullable.
  destruct x as [v | ]; [ | destruct key; [ discriminate | reflexivity ] ].
  destruct (truthy v) eqn:Hv.
  - intros ->. destruct key; [ reflexivity | discriminate ].
  - destruct key; [ discriminate | reflexivity ].
Qed.

(** What [registerAgent] does when the registration is accepted. *)
Lemma registerAgent_registered P config reply id key x :
  registered reply id key ->
  Startup.registerAgent P config reply x =
  (Ok (JObj [(lit "agent_id", JStr id); (lit "api_key", nullable key)]),
   {| Startup.stored := Startup.stored x;
      Startup.done :=
        Startup.done x
          ++ [ Startup.Say LInfo
                 (Startup.NRegistering
                    (Startup.shown (Startup.prop "name" config))
                    (Startup.shown (Startup.prop "role" config)));
               Startup.Did
                 (Http (lit "POST")
                       (Agent.SERVER_URL P ++ lit "/api/agents/register")
                       [(lit "Content-Type", lit "application/json")]
                       (Some (stringify (Startup.payload config))));
               Startup.Say LOk
                 (Startup.NRegistered id
                    (firstn 8 (match key with Some k => k | None => [] end)))
             ] |}).
Proof.
  intros (status & text & answer & -> & Hok & Hp & Hid & Hne & Hkey).
  unfold Startup.registerAgent. io.
  rewrite worker_oblivious by apply oblivious_apiRequest.
  rewrite apiRequest_events, apiRequest_result, Hok.
  rewrite (api_value_parsed _ _ Hp).
  cbn [map app Startup.stored Startup.done option_map json_headers fst snd].
  assert (Ht : truthy answer = true).
  { destruct answer; try discriminate. reflexivity. }
  rewrite Ht, Hid. cbn [truthy_opt truthy negb orb].
  destruct id as [ | c id]; [ now destruct Hne | ].
  cbn [negb]. rewrite (key_start _ _ Hkey), Hkey.
  cbn [has_slice Startup.slice8 Startup.shown to_string Startup.fields
       fst snd Startup.stored Startup.done].
  rewrite <- !app_assoc. reflexivity.
Qed.

(** What [registerAgent] does when the request fails. *)
Lemma registerAgent_refused P config reply why x :
  result_of (apiRequest P (lit "/api/agents/register") (lit "POST")
               (Some (Startup.payload config)) [] reply) = Throw why ->
  Startup.registerAgent P config reply x =
  (Throw why,
   {| Startup.stored := Startup.stored x;
      Startup.done :=
        Startup.done x
          ++ [ Startup.Say LInfo
                 (Startup.NRegistering
                    (Startup.shown (Startup.prop "name" config))
                    (Startup.shown (Startup.prop "role" config)));
               Startup.Did
                 (Http (lit "POST")
                       (Agent.SERVER_URL P ++ lit "/api/agents/register")
                       [(lit "Content-Type", lit "application/json")]
                       (Some (stringify (Startup.payload config))));
               Startup.Say LErr (Startup.NRegistrationFailed why) ] |}).
Proof.
  intros H. unfold Startup.registerAgent. io.
  rewrite worker_oblivious by apply oblivious_apiRequest.
  rewrite apiRequest_events, H.
  cbn [map app Startup.stored Startup.done option_map json_headers fst snd].
  rewrite <- !app_assoc. reflexivity.
Qed.

(** The role [cliSetup] settles on. *)
Definition cli_role (L : Startup.launch) : str :=
  match nonempty (Startup.parseCLIFlag (Startup.argv L) (lit "--role")) with
  | Some r =>
      if existsb (Str.eqb r) ROLE_KEYS then r else lit "trend_researcher"
  | None => lit "trend_researcher"
  end.

(** The identity of a worker set up from the command line, field by
    field, once the coordinator has given it the id [id] and the key
    [key]. *)
Definition cli_identity (L : Startup.launch) (C : Startup.chance)
           (id : str) (key : option str) : Config :=
  let flag f := Startup.parseCLIFlag (Startup.argv L) (lit f) in
  let chosen := Startup.or_default (flag "--model"%string) (lit "none") in
  {| name := Startup.or_default (flag "--name"%string) (Startup.generated_name C);
     owner := Startup.or_default (flag "--owner"%string) (lit "anonymous");
     solana_wallet := Startup.or_default (flag "--wallet"%string) [];
     role := cli_role L;
     model := chosen;
     model_info :=
       match AI_BACKENDS chosen with
       | Some backend => label backend
       | None => Startup.or_default (flag "--model"%string) (lit "manual")
       end;
     ai_api_key :=
       or_str (flag "--api-key"%string)
         match AI_BACKENDS chosen with
         | Some backend => nonempty (Startup.variables L (envKey backend))
         | None => None
         end;
     agent_id := id;
     api_key := key;
     server := Startup.SERVER_URL L;
     created_at := Startup.now C;
     stats := {| completed := 0; points := 0; errors := 0 |} |}.

Lemma cli_role_known L : In (cli_role L) ROLE_KEYS.
Proof.
  unfold cli_role.
  destruct (nonempty (Startup.parseCLIFlag (Startup.argv L) (lit "--role")))
    as [r | ]; [ | now left ].
  destruct (existsb (Str.eqb r) ROLE_KEYS) eqn:He; [ | now left ].
  apply existsb_exists in He. destruct He as (k & Hk & He).
  apply str_eqb_eq in He. now subst.
Qed.

Lemma generated_name_nonempty C : Startup.generated_name C <> [].
Proof. discriminate. Qed.

Lemma or_default_nonempty x d : d <> [] -> Startup.or_default x d <> [].
Proof.
  unfold Startup.or_default. destruct x as [[ | c r] | ]; cbn; try tauto.
  discriminate.
Qed.

Lemma saveConfig_written_object v x :
  Startup.saveConfig v Written x =
  (Ok tt,
   {| Startup.stored := Content (stringify_indent 2 v);
      Startup.done :=
        Startup.done x
          ++ [ Startup.Did (WriteFile (stringify_indent 2 v));
               Startup.Did (Print LOk MConfigSaved) ] |}).
Proof.
  unfold Startup.saveConfig. io. now rewrite <- app_assoc.
Qed.

#[local] Arguments Startup.registerAgent : simpl never.
#[local] Arguments Startup.saveConfig : simpl never.
#[local] Arguments Startup.fullConfig : simpl never.
#[local] Arguments Startup.payload : simpl never.
#[local] Arguments Startup.SERVER_URL : simpl never.
#[local] Arguments Startup.member_of : simpl never.
#[local] Arguments AI_BACKENDS : simpl never.
#[local] Arguments ROLE_KEYS : simpl never.
#[local] Arguments existsb : simpl never.

Lemma member_of_backend key :
  match Startup.member_of AI_BACKEND_TABLE key with
  | Startup.Own backend => AI_BACKENDS key = Some backend
  | _ => AI_BACKENDS key = None
  end.
Proof.
  unfold Startup.member_of, AI_BACKENDS.
  destruct (assoc key AI_BACKEND_TABLE); [ reflexivity | ].
  destruct (existsb (eqb key) Startup.OBJECT_PROTOTYPE); reflexivity.
Qed.

(** The warning of [cliSetup] about the role. *)
Definition cli_warned (L : Startup.launch) : list Startup.action :=
  match nonempty (Startup.parseCLIFlag (Startup.argv L) (lit "--role")) with
  | Some r =>
      if existsb (Str.eqb r) ROLE_KEYS then []
      else [Startup.Say LWarn Startup.NInvalidRole]
  | None => [Startup.Say LWarn Startup.NInvalidRole]
  end.

(** The object [cliSetup] registers. *)
Definition cli_draft (L : Startup.launch) (C : Startup.chance) : json :=
  let flag f := Startup.parseCLIFlag (Startup.argv L) (lit f) in
  let chosen := Startup.or_default (flag "--model"%string) (lit "none") in
  let slot := Startup.member_of AI_BACKEND_TABLE chosen in
  JObj (Startup.fields
    [ ("name",
       Some (JStr (Startup.or_default (flag "--name")
                                      (Startup.generated_name C))));
      ("owner",
       Some (JStr (Startup.or_default (flag "--owner") (lit "anonymous"))));
      ("solana_wallet", Some (JStr (Startup.or_default (flag "--wallet") [])));
      ("role", Some (JStr (cli_role L)));
      ("model", Some (JStr chosen));
      ("model_info",
       match slot with
       | Startup.Own backend => Some (JStr (label backend))
       | Startup.Inherited => None
       | Startup.Missing =>
           Some (JStr (Startup.or_default (flag "--model") (lit "manual")))
       end);
      ("ai_api_key",
       Some (nullable
               (or_str (flag "--api-key")
                  match slot with
                  | Startup.Own backend =>
                      nonempty (Startup.variables L (envKey backend))
                  | Startup.Inherited =>
                      nonempty (Startup.variables L (lit "undefined"))
                  | Startup.Missing => None
                  end))) ]%string).

(** [cliSetup], step by step: the warning, the registration of the
    draft, the write. *)
Lemma cliSetup_steps L C reply w x :
  Startup.cliSetup L C reply w x =
  match Startup.registerAgent (Startup.process_of L) (cli_draft L C) reply
          {| Startup.stored := Startup.stored x;
             Startup.done := Startup.done x ++ cli_warned L |} with
  | (Ok registration, x1) =>
      match Startup.saveConfig
              (Startup.fullConfig L C (cli_draft L C) registration) w x1 with
      | (Ok _, x2) =>
          (Ok (Startup.fullConfig L C (cli_draft L C) registration), x2)
      | (Throw why, x2) => (Throw why, x2)
      end
  | (Throw why, x1) => (Throw why, x1)
  end.
Proof.
  unfold Startup.cliSetup, cli_draft, cli_warned, cli_role.
  set (fname := Startup.parseCLIFlag (Startup.argv L) (lit "--name")).
  set (fowner := Startup.parseCLIFlag (Startup.argv L) (lit "--owner")).
  set (fwallet := Startup.parseCLIFlag (Startup.argv L) (lit "--wallet")).
  set (frole := Startup.parseCLIFlag (Startup.argv L) (lit "--role")).
  set (fmodel := Startup.parseCLIFlag (Startup.argv L) (lit "--model")).
  set (fkey := Startup.parseCLIFlag (Startup.argv L) (lit "--api-key")).
  set (chosen := Startup.or_default fmodel (lit "none")).
  set (info := Startup.or_default fmodel (lit "manual")).
  set (who := Startup.or_default fowner (lit "anonymous")).
  set (purse := Startup.or_default fwallet []).
  set (gen := Startup.generated_name C).
  assert (Hchosen : chosen <> []).
  { apply or_default_nonempty. discriminate. }
  assert (Hgen : gen <> []) by apply generated_name_nonempty.
  clearbody fname fowner fwallet frole fkey chosen info who purse gen.
  clear fmodel.
  destruct chosen as [ | m0 chosen]; [ now destruct Hchosen | ].
  destruct gen as [ | g0 gen]; [ now destruct Hgen | ].
  destruct x as [f acts].
  destruct fname as [[ | n0 fname] | ];
    destruct frole as [[ | r0 frole] | ];
    try (match goal with
         | |- context [Startup.is_role ?t] =>
             change (Startup.is_role t)
               with (existsb (eqb (r0 :: frole)) ROLE_KEYS)
         end;
         cbn [nonempty or_str];
         generalize (existsb (eqb (r0 :: frole)) ROLE_KEYS); intros [ | ]);
    destruct fkey as [[ | k0 fkey] | ];
    io; cbn;
    destruct (Startup.member_of AI_BACKEND_TABLE (m0 :: chosen));
    cbn; rewrite ?app_nil_r; reflexivity.
Qed.

(** With a known backend or none, the draft completed by the
    registration is the identity [cli_identity]. *)
Lemma cli_draft_identity L C id key :
  Startup.member_of AI_BACKEND_TABLE
    (Startup.or_default
       (Startup.parseCLIFlag (Startup.argv L) (lit "--model")) (lit "none"))
    <> Startup.Inherited ->
  Startup.fullConfig L C (cli_draft L C)
    (JObj [(lit "agent_id", JStr id); (lit "api_key", nullable key)])
  = config_json (cli_identity L C id key)
  /\ Startup.payload (cli_draft L C)
     = Startup.payload (config_json (cli_identity L C id key))
  /\ Startup.prop "name" (cli_draft L C)
     = Some (JStr (name (cli_identity L C id key)))
  /\ Startup.prop "role" (cli_draft L C)
     = Some (JStr (role (cli_identity L C id key))).
Proof.
  intros Hslot. unfold cli_draft, cli_identity.
  pose proof (member_of_backend
                (Startup.or_default
                   (Startup.parseCLIFlag (Startup.argv L) (lit "--model"))
                   (lit "none"))) as Hb.
  destruct (Startup.member_of AI_BACKEND_TABLE
              (Startup.or_default
                 (Startup.parseCLIFlag (Startup.argv L) (lit "--model"))
                 (lit "none"))) as [backend | | ];
    [ | now destruct Hslot | ]; rewrite Hb; repeat split.
Qed.

Lemma cli_warned_cases L :
  cli_warned L = [] \/ cli_warned L = [Startup.Say LWarn Startup.NInvalidRole].
Proof.
  unfold cli_warned.
  destruct (nonempty (Startup.parseCLIFlag (Startup.argv L) (lit "--role")))
    as [r | ]; [ | now right ].
  destruct (existsb (eqb r) ROLE_KEYS); [ now left | now right ].
Qed.

(** The texts written to the identity file and the requests sent during
    the start-up. *)
Definition file_writes (acts : list Startup.action) : list str :=
  flat_map (fun a =>
              match a with
              | Startup.Did (WriteFile data) => [data]
              | _ => []
              end) acts.

Definition requests (acts : list Startup.action) : list event :=
  flat_map (fun a =>
              match a with
              | Startup.Did (Http method u hdrs body) =>
                  [Http method u hdrs body]
              | _ => []
              end) acts.

Lemma file_writes_app a b : file_writes (a ++ b) = file_writes a ++ file_writes b.
Proof. apply flat_map_app. Qed.

Lemma requests_app a b : requests (a ++ b) = requests a ++ requests b.
Proof. apply flat_map_app. Qed.

Lemma cli_warned_quiet L :
  file_writes (cli_warned L) = [] /\ requests (cli_warned L) = [].
Proof. destruct (cli_warned_cases L) as [-> | ->]; split; reflexivity. Qed.

(** [cliSetup] when the coordinator accepts the registration and the
    file is written. *)
Lemma cliSetup_run L C reply id key x :
  registered reply id key ->
  Startup.member_of AI_BACKEND_TABLE
    (Startup.or_default
       (Startup.parseCLIFlag (Startup.argv L) (lit "--model")) (lit "none"))
    <> Startup.Inherited ->
  let cfg := cli_identity L C id key in
  let data := stringify_indent 2 (config_json cfg) in
  Startup.cliSetup L C reply Written x =
  (Ok (config_json cfg),
   {| Startup.stored := Content data;
      Startup.done :=
        Startup.done x ++ cli_warned L
          ++ [ Startup.Say LInfo (Startup.NRegistering (name cfg) (role cfg));
               Startup.Did
                 (Http (lit "POST")
                       (Startup.SERVER_URL L ++ lit "/api/agents/register")
                       [(lit "Content-Type", lit "application/json")]
                       (Some (stringify
                                (Startup.payload (config_json cfg)))));
               Startup.Say LOk
                 (Startup.NRegistered id
                    (firstn 8 (match key with Some k => k | None => [] end)));
               Startup.Did (WriteFile data);
               Startup.Did (Print LOk MConfigSaved) ] |}).
Proof.
  intros Hreg Hslot cfg data.
  destruct (cli_draft_identity L C id key Hslot) as (Hfull & Hpay & Hn & Hr).
  rewrite cliSetup_steps, (registerAgent_registered _ _ _ _ _ _ Hreg).
  rewrite Hfull, Hpay, Hn, Hr, saveConfig_written_object.
  cbn [Startup.stored Startup.done Startup.shown to_string
       Startup.process_of Agent.SERVER_URL].
  rewrite <- !app_assoc. reflexivity.
Qed.

(** X19: set up from the command line, with a registration the
    coordinator accepts and a file that can be written, the worker gets
    exactly the identity [cli_identity]: the values of the flags where they
    are given and not empty; a generated name, [anonymous], [none] and
    [manual] where they are not; the label and the environment key of a
    known backend; the id and key of the coordinator; statistics at zero.
    Its role is always one of the seven roles and its name is never
    empty.  [cliSetup] sends one request, the registration, then writes
    the identity to the file, and returns it. *)
Theorem cliSetup_identity L C reply id key x :
  registered reply id key ->
  Startup.member_of AI_BACKEND_TABLE
    (Startup.or_default
       (Startup.parseCLIFlag (Startup.argv L) (lit "--model")) (lit "none"))
    <> Startup.Inherited ->
  let cfg := cli_identity L C id key in
  let data := stringify_indent 2 (config_json cfg) in
  let out := Startup.cliSetup L C reply Written x in
  fst out = Ok (config_json cfg)
  /\ identity_of (config_json cfg) = Some cfg
  /\ In (role cfg) ROLE_KEYS
  /\ name cfg <> []
  /\ Startup.stored (snd out) = Content data
  /\ file_writes (Startup.done (snd out))
     = file_writes (Startup.done x) ++ [data]
  /\ requests (Startup.done (snd out))
     = requests (Startup.done x)
         ++ [Http (lit "POST")
                  (Startup.SERVER_URL L ++ lit "/api/agents/register")
                  [(lit "Content-Type", lit "application/json")]
                  (Some (stringify (Startup.payload (config_json cfg))))].
Proof.
  intros Hreg Hslot cfg data. cbn zeta.
  rewrite (cliSetup_run L C reply id key x Hreg Hslot).
  cbn [fst snd Startup.stored Startup.done].
  split; [ reflexivity | ].
  split; [ apply identity_of_config_json | ].
  split; [ apply cli_role_known | ].
  split; [ apply or_default_nonempty, generated_name_nonempty | ].
  split; [ reflexivity | ].
  destruct (cli_warned_quiet L) as [Hw Hr].
  rewrite !file_writes_app, !requests_app, Hw, Hr. split; reflexivity.
Qed.

(** The start of [trend_bot]. *)
Definition trend_bot_launch : Startup.launch :=
  {| Startup.variables := fun _ => None;
     Startup.argv :=
       map lit [ "node"; "index.js"; "--name"; "TrendBot"; "--role";
                 "trend_researcher"; "--model"; "gemini"; "--api-key";
                 "KEY" ]%string |}.

Definition new_year : Startup.chance :=
  {| Startup.random_9000 := 0; Startup.now := lit "2026-01-01T00:00:00.000Z" |}.

Definition welcome : http_outcome :=
  Response 200 (jlit "{'agent_id':'agent-7','api_key':'secret'}").

Definition nothing_yet : Startup.world :=
  {| Startup.stored := Absent; Startup.done := [] |}.

Lemma welcome_registered : registered welcome (lit "agent-7") (Some (lit "secret")).
Proof.
  exists 200%N, (jlit "{'agent_id':'agent-7','api_key':'secret'}"),
    (obj [("agent_id", JStr (lit "agent-7"));
          ("api_key", JStr (lit "secret"))]%string).
  repeat split; try (vm_compute; reflexivity). discriminate.
Qed.

Lemma cliSetup_identity_witness :
  fst (Startup.cliSetup trend_bot_launch new_year welcome Written nothing_yet)
  = Ok (config_json trend_bot).
Proof.
  apply (cliSetup_identity trend_bot_launch new_year welcome
           (lit "agent-7") (Some (lit "secret")) nothing_yet
           welcome_registered).
  vm_compute. discriminate.
Defined.

(** The registration fails: the coordinator cannot be reached, answers
    with a failure status, or answers without an agent id. *)
Definition refused (reply : http_outcome) (why : str) : Prop :=
  reply = NetFail why
  \/ (exists status body,
        reply = Response status body
        /\ resp_ok status = false
        /\ why = api_failure (lit "POST") (lit "/api/agents/register")
                             status body)
  \/ (exists status body,
        reply = Response status body
        /\ resp_ok status = true
        /\ truthy_opt (Startup.prop "agent_id" (api_value body)) = false
        /\ why = lit "Registration response missing agent_id").

Lemma registerAgent_throws P config reply why x :
  refused reply why ->
  Startup.registerAgent P config reply x =
  (Throw why,
   {| Startup.stored := Startup.stored x;
      Startup.done :=
        Startup.done x
          ++ [ Startup.Say LInfo
                 (Startup.NRegistering
                    (Startup.shown (Startup.prop "name" config))
                    (Startup.shown (Startup.prop "role" config)));
               Startup.Did
                 (Http (lit "POST")
                       (Agent.SERVER_URL P ++ lit "/api/agents/register")
                       [(lit "Content-Type", lit "application/json")]
                       (Some (stringify (Startup.payload config))));
               Startup.Say LErr (Startup.NRegistrationFailed why) ] |}).
Proof.
  intros [-> | [(status & body & -> & Hok & ->)
               | (status & body & -> & Hok & Hid & ->)]].
  - apply registerAgent_refused. now rewrite apiRequest_result.
  - apply registerAgent_refused. now rewrite apiRequest_result, Hok.
  - unfold Startup.registerAgent. io.
    rewrite worker_oblivious by apply oblivious_apiRequest.
    rewrite apiRequest_events, apiRequest_result, Hok.
    cbn [map app Startup.stored Startup.done option_map json_headers fst snd].
    rewrite Hid, orb_true_r.
    cbn [fst snd Startup.stored Startup.done].
    rewrite <- !app_assoc. reflexivity.
Qed.

(** X20: when the registration fails, [cliSetup] throws the error of
    the registration: it has sent its one request, and the identity file
    is neither written nor changed, so that the next start sets up
    again. *)
Theorem cliSetup_registration_fails L C reply w x why :
  refused reply why ->
  let out := Startup.cliSetup L C reply w x in
  fst out = Throw why
  /\ Startup.stored (snd out) = Startup.stored x
  /\ file_writes (Startup.done (snd out)) = file_writes (Startup.done x)
  /\ requests (Startup.done (snd out))
     = requests (Startup.done x)
         ++ [Http (lit "POST")
                  (Startup.SERVER_URL L ++ lit "/api/agents/register")
                  [(lit "Content-Type", lit "application/json")]
                  (Some (stringify (Startup.payload (cli_draft L C))))].
Proof.
  intros Hfail. cbn zeta.
  rewrite cliSetup_steps, (registerAgent_throws _ _ _ _ _ Hfail).
  cbn [fst snd Startup.stored Startup.done].
  destruct (cli_warned_quiet L) as [Hw Hr].
  rewrite !file_writes_app, !requests_app, Hw, Hr.
  cbn. rewrite !app_nil_r. repeat split.
Qed.

Lemma cliSetup_registration_fails_witness :
  fst (Startup.cliSetup trend_bot_launch new_year (Response 503 (lit "busy"))
         Written nothing_yet)
  = Throw (lit "API POST /api/agents/register failed (503): busy").
Proof.
  apply (cliSetup_registration_fails trend_bot_launch new_year
           (Response 503 (lit "busy")) Written nothing_yet).
  right. left. exists 503%N, (lit "busy"). repeat split.
Defined.

(* ===================================================================== *)
(** * [main] *)
(* ===================================================================== *)

Lemma hasCLIFlag_in argv flag :
  Startup.hasCLIFlag argv flag = true <-> In flag argv.
Proof.
  unfold Startup.hasCLIFlag. rewrite existsb_exists. split.
  - intros (a & Ha & He). apply str_eqb_eq in He. now subst a.
  - intros H. exists flag. split; [ exact H | apply str_eqb_refl ].
Qed.

(** X21: with [--help] or [-h] anywhere on the command line the process
    prints the banner and the usage and exits with code 0: it reads no
    configuration, sends nothing, writes nothing and asks nothing,
    whatever else the command line holds. *)
Theorem help_only L A C reply w x :
  In (lit "--help") (Startup.argv L) \/ In (lit "-h") (Startup.argv L) ->
  let out := Startup.start L A C reply w x in
  fst out = Startup.Exit 0
  /\ Startup.stored (snd out) = Startup.stored x
  /\ exists said,
       Startup.done (snd out)
       = Startup.done x ++ map (Startup.Say LPlain) said.
Proof.
  intros H. cbn zeta.
  assert (Hh : Startup.hasCLIFlag (Startup.argv L) (lit "--help")
               || Startup.hasCLIFlag (Startup.argv L) (lit "-h") = true).
  { apply orb_true_iff. destruct H as [H | H]; [ left | right ];
      now apply hasCLIFlag_in. }
  unfold Startup.start, Startup.main. io. rewrite Hh.
  cbn [map ROLE_TABLE Startup.say_all fst snd]. io.
  split; [ reflexivity | ]. split; [ reflexivity | ].
  eexists. rewrite <- !app_assoc. cbn [app].
  match goal with
  | |- _ ++ ?l = _ ++ map _ ?s =>
      instantiate (1 := map (fun a => match a with
                                      | Startup.Say _ what => what
                                      | _ => Startup.NBlank
                                      end) l)
  end.
  reflexivity.
Qed.

Lemma help_only_witness :
  fst (Startup.start
         {| Startup.variables := fun _ => None;
            Startup.argv := map lit ["node"; "index.js"; "--name"; "-h"]%string |}
         {| Startup.name_typed := []; Startup.owner_typed := [];
            Startup.wallet_typed := []; Startup.role_typed := [];
            Startup.model_typed := []; Startup.key_typed := [] |}
         new_year (NetFail []) Written nothing_yet)
  = Startup.Exit 0.
Proof.
  apply help_only. right. cbn. auto.
Defined.

(** ** A configuration read from the file *)


Lemma lookup_set_other k k' v l :
  k' <> k -> lookup k' (set_prop k v l) = lookup k' l.
Proof.
  intros Hne. induction l as [ | [k0 v0] l IH]; cbn [set_prop lookup].
  - destruct (Str.eqb k' k) eqn:He; [ | reflexivity ].
    apply str_eqb_eq in He. contradiction.
  - destruct (Str.eqb k k0) eqn:He; cbn [lookup].
    + apply str_eqb_eq in He. subst k0.
      destruct (Str.eqb k' k) eqn:He'; [ | reflexivity ].
      apply str_eqb_eq in He'. contradiction.
    + destruct (Str.eqb k' k0); [ reflexivity | exact IH ].
Qed.

Lemma lookup_drop_other (k : string) k' l :
  k' <> lit k ->
  lookup k' (filter (fun kv => negb (Str.eqb (fst kv) (lit k))) l)
  = lookup k' l.
Proof.
  intros Hne. induction l as [ | [k0 v0] l IH]; [ reflexivity | ].
  cbn [filter fst lookup].
  destruct (Str.eqb k0 (lit k)) eqn:He; cbn [negb lookup].
  - apply str_eqb_eq in He. subst k0.
    destruct (Str.eqb k' (lit k)) eqn:He'; [ | exact IH ].
    apply str_eqb_eq in He'. contradiction.
  - destruct (Str.eqb k' k0); [ reflexivity | exact IH ].
Qed.






Definition quiet (acts : list Startup.action) : Prop :=
  Forall (fun a => exists lvl what, a = Startup.Say lvl what) acts.




Lemma quiet_silent acts :
  quiet acts -> file_writes acts = [] /\ requests acts = [].
Proof.
  induction 1 as [ | a acts (lvl & what & ->) _ [IH1 IH2]];
    [ split; reflexivity | ].
  unfold file_writes, requests in *. cbn [flat_map app].
  now rewrite IH1, IH2.
Qed.





Lemma no_help L :
  ~ In (lit "--help") (Startup.argv L) ->
  ~ In (lit "-h") (Startup.argv L) ->
  Startup.hasCLIFlag (Startup.argv L) (lit "--help")
  || Startup.hasCLIFlag (Startup.argv L) (lit "-h") = false.
Proof.
  intros H1 H2. apply orb_false_iff. split.
  - destruct (Startup.hasCLIFlag (Startup.argv L) (lit "--help")) eqn:H;
      [ | reflexivity ]. apply hasCLIFlag_in in H. contradiction.
  - destruct (Startup.hasCLIFlag (Startup.argv L) (lit "-h")) eqn:H;
      [ | reflexivity ]. apply hasCLIFlag_in in H. contradiction.
Qed.

(** [loadConfig], run at the start, on a file that holds JSON text. *)
Lemma worker_loadConfig x data v :
  Startup.stored x = Content data ->
  parse data = Some v ->
  Startup.worker loadConfig x =
  (Ok v, {| Startup.stored := Startup.stored x; Startup.done := Startup.done x |}).
Proof.
  destruct x as [f acts]. cbn [Startup.stored Startup.done]. intros -> Hp.
  unfold Startup.worker, loadConfig, bind, get_disk, ret.
  cbn [disk Startup.stored]. rewrite Hp. cbn. now rewrite app_nil_r.
Qed.

Lemma worker_loadConfig_absent x :
  Startup.stored x = Absent ->
  Startup.worker loadConfig x =
  (Ok JNull,
   {| Startup.stored := Startup.stored x; Startup.done := Startup.done x |}).
Proof.
  destruct x as [f acts]. cbn [Startup.stored Startup.done]. intros ->.
  unfold Startup.worker, loadConfig, bind, get_disk, ret.
  cbn. now rewrite app_nil_r.
Qed.




(** ** Starting again *)

Lemma role_info key :
  In key ROLE_KEYS ->
  exists info, Startup.member_of ROLE_TABLE key = Startup.Own info.
Proof.
  unfold ROLE_KEYS, Startup.member_of. intros H.
  assert (Ha : exists info, assoc key ROLE_TABLE = Some info).
  { induction ROLE_TABLE as [ | [k info] t IH]; [ contradiction | ].
    cbn [map fst In assoc] in *. destruct (Str.eqb key k) eqn:He.
    - now exists info.
    - destruct H as [-> | H]; [ now rewrite str_eqb_refl in He | ].
      now apply IH. }
  destruct Ha as [info ->]. now exists info.
Qed.

Lemma quiet_all (l : list Startup.action) :
  Forall (fun a => match a with Startup.Say _ _ => True | _ => False end) l ->
  quiet l.
Proof.
  induction 1 as [ | a l Ha _ IH]; [ constructor | ].
  constructor; [ | exact IH ].
  destruct a; try contradiction. now eexists _, _.
Qed.

(** The same command line and environment leave the identity they have
    set up as it is. *)
Lemma adopt_cli_identity L C id key x :
  Startup.member_of AI_BACKEND_TABLE
    (Startup.or_default
       (Startup.parseCLIFlag (Startup.argv L) (lit "--model")) (lit "none"))
    <> Startup.Inherited ->
  exists said,
    Startup.adopt L (config_json (cli_identity L C id key)) x =
    (Ok (config_json (cli_identity L C id key)),
     {| Startup.stored := Startup.stored x;
        Startup.done := Startup.done x ++ said |})
    /\ quiet said.
Proof.
  intros Hslot. destruct x as [f acts].
  unfold Startup.adopt, Startup.override_model, Startup.override_key.
  set (hello := Startup.NLoaded _ _). clearbody hello.
  unfold cli_identity in *.
  set (fname := Startup.parseCLIFlag (Startup.argv L) (lit "--name")) in *.
  set (fowner := Startup.parseCLIFlag (Startup.argv L) (lit "--owner")) in *.
  set (fwallet := Startup.parseCLIFlag (Startup.argv L) (lit "--wallet")) in *.
  set (fmodel := Startup.parseCLIFlag (Startup.argv L) (lit "--model")) in *.
  set (fkey := Startup.parseCLIFlag (Startup.argv L) (lit "--api-key")) in *.
  set (who := Startup.or_default fowner (lit "anonymous")) in *.
  set (purse := Startup.or_default fwallet []) in *.
  set (called := Startup.or_default fname (Startup.generated_name C)) in *.
  set (r := cli_role L) in *.
  clearbody fname fowner fwallet fkey who purse called r.
  assert (Hnone : AI_BACKENDS (lit "none") = None) by reflexivity.
  destruct fmodel as [[ | m0 m] | ];
    cbn [Startup.or_default nonempty or_str] in *;
    rewrite ?Hnone;
    try (pose proof (member_of_backend (m0 :: m)) as Hb;
         destruct (Startup.member_of AI_BACKEND_TABLE (m0 :: m))
           as [backend | | ]; [ | now destruct Hslot | ]; rewrite Hb);
    destruct fkey as [[ | k0 k] | ];
    unfold config_json, obj, Startup.assign, Startup.put_opt, Startup.put;
    io; cbn;
    (eexists; split;
     [ rewrite <- ?app_assoc; reflexivity
     | apply quiet_all; repeat constructor ]).
Qed.

Lemma enter_loop_known cfg x :
  In (role cfg) ROLE_KEYS ->
  exists banner,
    Startup.enter_loop (config_json cfg) x =
    (Ok (Startup.Loop (config_json cfg)),
     {| Startup.stored := Startup.stored x;
        Startup.done := Startup.done x ++ [Startup.Did (Print LPlain banner)] |}).
Proof.
  intros Hr. destruct (role_info _ Hr) as [info Hi].
  unfold Startup.enter_loop.
  change (Startup.shown (Startup.prop "role" (config_json cfg)))
    with (role cfg).
  rewrite Hi. io. now eexists.
Qed.

(** X23: a worker set up from the command line is not set up again: a
    second start with the same command line and environment reads the
    identity the first start has saved and enters the loop with exactly
    that identity, without registering again and without writing the
    file, whatever the coordinator and the user would answer. *)
Theorem restart_keeps_identity L A C A' C' reply reply' w' x id key :
  ~ In (lit "--help") (Startup.argv L) ->
  ~ In (lit "-h") (Startup.argv L) ->
  Startup.stored x = Absent ->
  nonempty (Startup.parseCLIFlag (Startup.argv L) (lit "--name")) <> None ->
  nonempty (Startup.parseCLIFlag (Startup.argv L) (lit "--role")) <> None ->
  registered reply id key ->
  Startup.member_of AI_BACKEND_TABLE
    (Startup.or_default
       (Startup.parseCLIFlag (Startup.argv L) (lit "--model")) (lit "none"))
    <> Startup.Inherited ->
  let cfg := cli_identity L C id key in
  let first := Startup.start L A C reply Written x in
  let second := Startup.start L A' C' reply' w' (snd first) in
  fst first = Startup.Loop (config_json cfg)
  /\ fst second = Startup.Loop (config_json cfg)
  /\ Startup.stored (snd second) = Startup.stored (snd first)
  /\ file_writes (Startup.done (snd second))
     = file_writes (Startup.done (snd first))
  /\ requests (Startup.done (snd second))
     = requests (Startup.done (snd first)).
Proof.
  intros Hh1 Hh2 Hs Hname Hrole Hreg Hslot cfg first second.
  assert (Hfirst : exists acts,
             first = (Startup.Loop (config_json cfg),
                      {| Startup.stored :=
                           Content (stringify_indent 2 (config_json cfg));
                         Startup.done := acts |})).
  { subst first cfg. unfold Startup.start, Startup.main.
    unfold Startup.and_next at 1, Startup.say, Startup.act.
    rewrite (no_help L Hh1 Hh2).
    unfold Startup.and_next at 1.
    rewrite worker_loadConfig_absent by exact Hs.
    cbn [Startup.stored Startup.done truthy negb].
    destruct (nonempty (Startup.parseCLIFlag (Startup.argv L) (lit "--name")));
      [ | now destruct Hname ].
    destruct (nonempty (Startup.parseCLIFlag (Startup.argv L) (lit "--role")));
      [ | now destruct Hrole ].
    unfold Startup.and_next at 1 2, Startup.act.
    rewrite (cliSetup_run L C reply id key _ Hreg Hslot).
    match goal with
    | |- context [Startup.enter_loop ?c ?w0] =>
        destruct (enter_loop_known (cli_identity L C id key) w0
                    (cli_role_known L)) as [banner Hb];
        rewrite Hb
    end.
    now eexists. }
  destruct Hfirst as [acts Hfirst]. subst second. rewrite Hfirst.
  clear Hfirst first. subst cfg.
  cbn [fst snd Startup.stored Startup.done].
  split; [ reflexivity | ].
  assert (Hsecond : exists said,
    (file_writes said = [] /\ requests said = [])
    /\ Startup.start L A' C' reply' w'
         {| Startup.stored :=
              Content (stringify_indent 2
                         (config_json (cli_identity L C id key)));
            Startup.done := acts |}
       = (Startup.Loop (config_json (cli_identity L C id key)),
          {| Startup.stored :=
               Content (stringify_indent 2
                          (config_json (cli_identity L C id key)));
             Startup.done := acts ++ said |})).
  { unfold Startup.start, Startup.main.
    unfold Startup.and_next at 1, Startup.say, Startup.act.
    rewrite (no_help L Hh1 Hh2).
    unfold Startup.and_next at 1.
    rewrite (worker_loadConfig _
               (stringify_indent 2 (config_json (cli_identity L C id key)))
               (config_json (cli_identity L C id key)))
      by (try reflexivity; apply config_parses).
    cbn [Startup.stored Startup.done].
    change (truthy (config_json (cli_identity L C id key))) with true.
    cbn [negb].
    unfold Startup.and_next at 1.
    match goal with
    | |- context [Startup.adopt L ?c ?w0] =>
        destruct (adopt_cli_identity L C id key w0 Hslot)
          as (said & Hadopt & Hq);
        rewrite Hadopt
    end.
    match goal with
    | |- context [Startup.enter_loop ?c ?w0] =>
        destruct (enter_loop_known (cli_identity L C id key) w0
                    (cli_role_known L)) as [banner Hb];
        rewrite Hb
    end.
    cbn [fst snd Startup.stored Startup.done].
    exists ([Startup.Say LPlain (Startup.NBanner (Startup.SERVER_URL L))]
              ++ said ++ [Startup.Did (Print LPlain banner)]).
    destruct (quiet_silent _ Hq) as [Hw Hr].
    split.
    - rewrite !file_writes_app, !requests_app, Hw, Hr. split; reflexivity.
    - rewrite <- !app_assoc. reflexivity. }
  destruct Hsecond as (said & [Hw Hr] & ->).
  cbn [fst snd Startup.stored Startup.done].
  rewrite !file_writes_app, !requests_app, Hw, Hr, !app_nil_r.
  repeat split.
Qed.

Lemma restart_keeps_identity_witness :
  let A := {| Startup.name_typed := []; Startup.owner_typed := [];
              Startup.wallet_typed := []; Startup.role_typed := [];
              Startup.model_typed := []; Startup.key_typed := [] |} in
  let first := Startup.start trend_bot_launch A new_year welcome Written
                 nothing_yet in
  fst (Startup.start trend_bot_launch A new_year (NetFail [])
         (WriteFailed [] Absent) (snd first))
  = Startup.Loop (config_json trend_bot).
Proof.
  intros A first.
  refine (proj1 (proj2
    (restart_keeps_identity trend_bot_launch A new_year A new_year welcome
       (NetFail []) (WriteFailed [] Absent) nothing_yet (lit "agent-7")
       (Some (lit "secret")) _ _ _ _ _ welcome_registered _))).
  - cbn. intuition discriminate.
  - cbn. intuition discriminate.
  - reflexivity.
  - vm_compute. discriminate.
  - vm_compute. discriminate.
  - vm_compute. discriminate.
Defined.

(* ===================================================================== *)
(** * The interactive setup *)
(* ===================================================================== *)

#[local] Arguments Startup.choose_model : simpl never.
#[local] Arguments Startup.generated_name : simpl never.
#[local] Arguments trim : simpl never.
#[local] Arguments Startup.parseInt : simpl never.

(** The interactive setup when the answer to the role prompt does not
    start with a number. *)
Lemma interactive_no_number L A C reply w x :
  Startup.parseInt (trim (Startup.role_typed A)) = None ->
  exists said,
    Startup.interactiveSetup L A C reply w x =
    (Throw (lit "Cannot read properties of undefined (reading 'label')"),
     {| Startup.stored := Startup.stored x;
        Startup.done := Startup.done x ++ said |})
    /\ file_writes said = [] /\ requests said = [].
Proof.
  intros Hnan. destruct x as [f acts].
  unfold Startup.interactiveSetup, Startup.ask.
  destruct (trim (Startup.name_typed A)) as [ | n0 n];
    destruct (trim (Startup.owner_typed A)) as [ | o0 o];
    io; cbn; rewrite Hnan; cbn;
    match goal with
    | |- context [Startup.member_of ?t ?k] =>
        change (Startup.member_of t k) with (@Startup.Missing RoleInfo)
    end;
    io;
    (eexists; split;
     [ rewrite <- ?app_assoc; reflexivity | split; reflexivity ]).
Qed.

(** X24: the interactive setup fails when the answer to the role prompt
    does not start with a number (an empty line, or a role name): the
    index is then [NaN], which neither of the range tests rejects, no
    role is chosen, and the setup throws before it registers: nothing is
    sent and nothing is written. *)
Theorem interactive_role_not_a_number L A C reply w x :
  Startup.parseInt (trim (Startup.role_typed A)) = None ->
  let out := Startup.interactiveSetup L A C reply w x in
  fst out
  = Throw (lit "Cannot read properties of undefined (reading 'label')")
  /\ Startup.stored (snd out) = Startup.stored x
  /\ file_writes (Startup.done (snd out)) = file_writes (Startup.done x)
  /\ requests (Startup.done (snd out)) = requests (Startup.done x).
Proof.
  intros Hnan out.
  destruct (interactive_no_number L A C reply w x Hnan)
    as (said & Hrun & Hw & Hr).
  subst out. rewrite Hrun. cbn [fst snd Startup.stored Startup.done].
  rewrite file_writes_app, requests_app, Hw, Hr, !app_nil_r.
  repeat split.
Qed.

Lemma interactive_role_not_a_number_witness :
  fst (Startup.interactiveSetup
         {| Startup.variables := fun _ => None;
            Startup.argv := map lit ["node"; "index.js"]%string |}
         {| Startup.name_typed := lit "TrendBot";
            Startup.owner_typed := lit "me";
            Startup.wallet_typed := [];
            Startup.role_typed := lit "script_writer";
            Startup.model_typed := lit "1";
            Startup.key_typed := lit "KEY" |}
         new_year welcome Written nothing_yet)
  = Throw (lit "Cannot read properties of undefined (reading 'label')").
Proof.
  apply interactive_role_not_a_number. vm_compute. reflexivity.
Defined.

(* ===================================================================== *)
(** * Shutdown *)
(* ===================================================================== *)

(** The file holds an identity with the completed count and the points
    of the identity in memory. *)
Definition file_up_to_date (m : machine) : Prop :=
  exists saved,
    disk m = Content (stringify_indent 2 (config_json saved))
    /\ completed (stats saved) = completed (stats (config m))
    /\ points (stats saved) = points (stats (config m)).

Lemma failed_up_to_date why m :
  file_up_to_date m -> file_up_to_date (failed why m).
Proof.
  intros (saved & Hd & Hc & Hp). exists saved. unfold failed.
  cbn [disk config bump_errors with_stats stats completed points].
  repeat split; assumption.
Qed.

Lemma step_up_to_date P roleInfo E m :
  write_reply E = Written ->
  file_up_to_date m -> file_up_to_date (step P roleInfo E m).
Proof.
  intros Hw Hm.
  destruct (step_path P roleInfo E m);
    try (apply failed_up_to_date);
    try (destruct Hm as (saved & Hd & Hc & Hp); exists saved;
         cbn [disk config add_events received]; now repeat split).
  - eexists. cbn [disk config add_events]. repeat split.
  - congruence.
Qed.

Lemma run_up_to_date P roleInfo Es m :
  Forall (fun E => write_reply E = Written) Es ->
  file_up_to_date m -> file_up_to_date (run P roleInfo Es m).
Proof.
  intros Hall. revert m. induction Hall as [ | E Es HE _ IH]; intros m Hm;
    [ exact Hm | ].
  rewrite run_cons. apply IH. now apply step_up_to_date.
Qed.

(** [n || 0] on a count. *)
Lemma count_or_zero z :
  Startup.or_value (Some (JInt z)) (JInt 0) = JInt z.
Proof.
  unfold Startup.or_value.
  destruct (JInt_normal z) as (m & e & Hz & Hn). rewrite Hz.
  cbn [truthy]. destruct (Z.eqb_spec m 0) as [-> | Hm]; [ | reflexivity ].
  cbn [negb]. destruct Hn as [[_ ->] | Hn]; [ reflexivity | ].
  now destruct Hn.
Qed.

Lemma shutdown_saved signal saved acts :
  Startup.handleShutdown signal
    {| Startup.stored := Content (stringify_indent 2 (config_json saved));
       Startup.done := acts |}
  = (Ok (Startup.Exit 0),
     {| Startup.stored := Content (stringify_indent 2 (config_json saved));
        Startup.done :=
          acts
            ++ [ Startup.Say LPlain (Startup.NShutdown signal);
                 Startup.Say LPlain
                   (Startup.NFinalStats
                      (to_string (JInt (completed (stats saved))))
                      (to_string (JInt (points (stats saved))))) ] |}).
Proof.
  unfold Startup.handleShutdown.
  unfold Startup.and_next at 1, Startup.say, Startup.act.
  unfold Startup.and_next at 1.
  rewrite (worker_loadConfig _ (stringify_indent 2 (config_json saved))
             (config_json saved)) by (try reflexivity; apply config_parses).
  change (truthy (config_json saved)) with true.
  change (chain (Startup.prop "stats" (config_json saved))
                (get (lit "completed")))
    with (Some (JInt (completed (stats saved)))).
  change (chain (Startup.prop "stats" (config_json saved))
                (get (lit "points")))
    with (Some (JInt (points (stats saved)))).
  rewrite !count_or_zero. io. rewrite <- !app_assoc. reflexivity.
Qed.

(** X25: the statistics printed at shutdown are read from the file, not
    from memory; as long as every write of the file has succeeded they
    are the completed count and the points of the running worker, after
    any number of cycles; the errors are not reported.  The shutdown
    changes nothing and exits with code 0. *)
Theorem shutdown_reports_counts P roleInfo Es m signal :
  disk m = Content (stringify_indent 2 (config_json (config m))) ->
  Forall (fun E => write_reply E = Written) Es ->
  let m' := run P roleInfo Es m in
  Startup.handleShutdown signal
    {| Startup.stored := disk m'; Startup.done := [] |}
  = (Ok (Startup.Exit 0),
     {| Startup.stored := disk m';
        Startup.done :=
          [ Startup.Say LPlain (Startup.NShutdown signal);
            Startup.Say LPlain
              (Startup.NFinalStats
                 (to_string (JInt (completed (stats (config m')))))
                 (to_string (JInt (points (stats (config m')))))) ] |}).
Proof.
  intros Hd Hall m'.
  assert (Hm : file_up_to_date m) by (exists (config m); now repeat split).
  destruct (run_up_to_date P roleInfo Es m Hall Hm) as (saved & Hs & Hc & Hp).
  fold m' in Hs, Hc, Hp. rewrite Hs, shutdown_saved, Hc, Hp. reflexivity.
Qed.

Lemma shutdown_reports_counts_witness :
  let m' := run bare_process trend_researcher_info [cycle_good; cycle_down]
              (step bare_process trend_researcher_info cycle_good
                 (fresh trend_bot Absent)) in
  fst (Startup.handleShutdown (lit "SIGINT")
         {| Startup.stored := disk m'; Startup.done := [] |})
  = Ok (Startup.Exit 0).
Proof.
  intros m'. unfold m'.
  rewrite (shutdown_reports_counts bare_process trend_researcher_info
             [cycle_good; cycle_down]
             (step bare_process trend_researcher_info cycle_good
                (fresh trend_bot Absent)) (lit "SIGINT")).
  - reflexivity.
  - vm_compute. reflexivity.
  - repeat constructor.
Defined.

(** The interactive setup from the choice of the model on. *)
Definition finish_setup (L : Startup.launch) (A : Startup.answers)
           (C : Startup.chance) (reply : http_outcome) (w : write_outcome)
           (config : json) : Startup.IO json :=
  Startup.and_next (Startup.choose_model L A config) (fun config =>
  Startup.and_next (Startup.act Startup.CloseInput) (fun _ =>
  Startup.and_next (Startup.say LPlain Startup.NBlank) (fun _ =>
  Startup.and_next (Startup.registerAgent (Startup.process_of L) config reply)
    (fun registration =>
  Startup.and_next
    (Startup.saveConfig (Startup.fullConfig L C config registration) w)
    (fun _ => Startup.pure (Startup.fullConfig L C config registration)))))).

(** The role the interactive setup settles on for the number [n]. *)
Definition picked_role (n : Z) : str :=
  if ((1 <=? n) && (n <=? 7))%Z
  then nth (Z.to_nat (n - 1)) ROLE_KEYS (lit "trend_researcher")
  else lit "trend_researcher".

Lemma picked_role_known n : In (picked_role n) ROLE_KEYS.
Proof.
  unfold picked_role. destruct ((1 <=? n) && (n <=? 7))%Z eqn:Hn.
  - apply nth_In. apply andb_true_iff in Hn as [H1 H2].
    apply Z.leb_le in H1, H2. change (length ROLE_KEYS) with 7%nat. lia.
  - now left.
Qed.

#[local] Arguments picked_role : simpl never.
#[local] Arguments Startup.element : simpl never.
#[local] Arguments Startup.below : simpl never.
#[local] Arguments Startup.at_least : simpl never.

(** The interactive setup up to the choice of the model, when the answer
    to the role prompt starts with the number [n]. *)
Lemma interactive_steps L A C reply w x n :
  Startup.parseInt (trim (Startup.role_typed A)) = Some n ->
  exists called who said,
    Startup.interactiveSetup L A C reply w x =
    finish_setup L A C reply w
      (JObj [ (lit "name", JStr called); (lit "owner", JStr who);
              (lit "solana_wallet", JStr (trim (Startup.wallet_typed A)));
              (lit "role", JStr (picked_role n)) ])
      {| Startup.stored := Startup.stored x;
         Startup.done := Startup.done x ++ said |}
    /\ file_writes said = [] /\ requests said = [].
Proof.
  intros Hn. destruct x as [f acts].
  destruct (role_info _ (picked_role_known n)) as [info Hinfo].
  assert (Hpick :
    (if Startup.below (Some (n - 1)%Z) 0
        || Startup.at_least (Some (n - 1)%Z) (Z.of_nat (length ROLE_KEYS))
     then Some (JStr (lit "trend_researcher"))
     else Startup.element ROLE_KEYS (Some (n - 1)%Z))
    = Some (JStr (picked_role n))).
  { unfold picked_role, Startup.below, Startup.at_least, Startup.element.
    change (length ROLE_KEYS) with 7%nat.
    destruct (Z.ltb_spec (n - 1) 0); destruct (Z.leb_spec (Z.of_nat 7) (n - 1));
      destruct (Z.leb_spec 1 n); destruct (Z.leb_spec n 7);
      destruct (Z.leb_spec 0 (n - 1)); cbn [orb andb]; try lia;
      try reflexivity.
    assert (Hlt : (Z.to_nat (n - 1) < length ROLE_KEYS)%nat)
      by (change (length ROLE_KEYS) with 7%nat; lia).
    destruct (nth_error ROLE_KEYS (Z.to_nat (n - 1))) as [r | ] eqn:Hr.
    - cbn [option_map]. now rewrite (nth_error_nth _ _ _ Hr).
    - apply nth_error_None in Hr. lia. }
  unfold Startup.interactiveSetup, finish_setup, Startup.ask.
  destruct (trim (Startup.name_typed A)) as [ | n0 called];
    destruct (trim (Startup.owner_typed A)) as [ | o0 who];
    io; cbn; rewrite Hn; cbn [option_map];
    (destruct (Startup.below (Some (n - 1)%Z) 0
               || Startup.at_least (Some (n - 1)%Z)
                    (Z.of_nat (length ROLE_KEYS)));
     [ injection Hpick as Hpick; rewrite <- Hpick in *
     | rewrite Hpick ]);
    io; cbn;
    match goal with
    | |- context [Startup.member_of ?t ?k] =>
        replace (Startup.member_of t k) with (Startup.Own info)
          by (symmetry; exact Hinfo)
    end;
    io;
    (eexists _, _, _; split;
     [ rewrite <- ?app_assoc; reflexivity | split; reflexivity ]).
Qed.

(** A configuration object whose role is [r]. *)
Definition role_is (r : json) (c : json) : Prop :=
  exists l, c = JObj l /\ lookup (lit "role") l = Some r.

Lemma role_put (k : string) v r c :
  lit "role" <> lit k -> role_is r c -> role_is r (Startup.put k v c).
Proof.
  intros Hk (l & -> & Hl). eexists. split; [ reflexivity | ].
  now rewrite lookup_set_other.
Qed.

Lemma role_put_opt (k : string) v r c :
  lit "role" <> lit k -> role_is r c -> role_is r (Startup.put_opt k v c).
Proof.
  intros Hk Hr. destruct v as [v | ]; cbn [Startup.put_opt].
  - now apply role_put.
  - destruct Hr as (l & -> & Hl). eexists. split; [ reflexivity | ].
    now rewrite lookup_drop_other.
Qed.

Create HintDb role.
#[local] Hint Extern 1 (lit _ <> lit _) => discriminate : role.
#[local] Hint Resolve role_put role_put_opt : role.

Lemma choose_model_role L A r config x c' x' :
  role_is r config ->
  Startup.choose_model L A config x = (Ok c', x') ->
  role_is r c'.
Proof.
  intros Hr. unfold Startup.choose_model, Startup.ask.
  destruct (Startup.isRunningInOpenClaw L).
  - io. intros H. injection H as <- _. auto with role.
  - io.
    match goal with
    | |- context [Startup.say_all ?lvl ?l ?w0] =>
        destruct (Startup.say_all lvl l w0) as [[u | why] w1] eqn:Hall
    end; cbn [fst snd]; [ | discriminate ].
    match goal with
    | |- context [if ?b then _ else _] => destruct b
    end.
    + destruct (Startup.member_of AI_BACKEND_TABLE _) as [backend | | ];
        io; try discriminate.
      destruct (nonempty (Startup.variables L (envKey backend))) as [k | ].
      * io. intros H. injection H as <- _. auto with role.
      * io. destruct (trim (Startup.key_typed A)) as [ | k0 k];
          io; intros H; injection H as <- _; auto 6 with role.
    + io. intros H. injection H as <- _. auto with role.
Qed.

Lemma fullConfig_role L C r config registration :
  role_is r config ->
  role_is r (Startup.fullConfig L C config registration).
Proof.
  intros Hr. unfold Startup.fullConfig, Startup.spread.
  cbn [fold_left fst snd]. auto 8 with role.
Qed.

(** X26: when the interactive setup succeeds and the answer to the role
    prompt starts with the number [n], the configuration it returns has
    one of the seven roles: the [n]-th of the list for [n] from 1 to 7,
    and [trend_researcher] for any other number. *)
Theorem interactive_role_by_number L A C reply w x n cfg x' :
  Startup.parseInt (trim (Startup.role_typed A)) = Some n ->
  Startup.interactiveSetup L A C reply w x = (Ok cfg, x') ->
  exists r,
    Startup.prop "role" cfg = Some (JStr r)
    /\ In r ROLE_KEYS
    /\ ((1 <= n <= 7)%Z -> nth_error ROLE_KEYS (Z.to_nat (n - 1)) = Some r)
    /\ ((n < 1 \/ 7 < n)%Z -> r = lit "trend_researcher").
Proof.
  intros Hn Hrun.
  destruct (interactive_steps L A C reply w x n Hn)
    as (called & who & said & Hsteps & _).
  rewrite Hsteps in Hrun. clear Hsteps.
  unfold finish_setup in Hrun. revert Hrun. io.
  match goal with
  | |- context [Startup.choose_model L A ?c ?w0] =>
      destruct (Startup.choose_model L A c w0) as [[c' | why] w1] eqn:Hmodel;
      [ assert (Hrole : role_is (JStr (picked_role n)) c')
          by (eapply choose_model_role; [ | exact Hmodel ];
              eexists; split; reflexivity)
      | discriminate ]
  end.
  cbn [fst snd].
  destruct (Startup.registerAgent _ _ _ _) as [[registration | why] w2];
    cbn [fst snd]; [ | discriminate ].
  destruct (Startup.saveConfig _ _ _) as [[u | why] w3];
    cbn [fst snd]; [ | discriminate ].
  intros H. injection H as <- _.
  destruct (fullConfig_role L C _ _ registration Hrole) as (l & -> & Hl).
  exists (picked_role n). unfold Startup.prop. cbn [get]. rewrite Hl.
  split; [ reflexivity | ]. split; [ apply picked_role_known | ].
  unfold picked_role. split.
  - intros [H1 H7].
    destruct (Z.leb_spec 1 n); [ | lia ]. destruct (Z.leb_spec n 7); [ | lia ].
    cbn [andb]. apply nth_error_nth'.
    change (length ROLE_KEYS) with 7%nat. lia.
  - intros Hout.
    destruct (Z.leb_spec 1 n); destruct (Z.leb_spec n 7); cbn [andb];
      try reflexivity.
    lia.
Qed.

(** Someone who answers the prompts, and takes the third role. *)
Definition third_role : Startup.answers :=
  {| Startup.name_typed := lit "TrendBot";
     Startup.owner_typed := lit "me";
     Startup.wallet_typed := [];
     Startup.role_typed := lit "3";
     Startup.model_typed := lit "1";
     Startup.key_typed := lit "KEY" |}.

Definition plain_launch : Startup.launch :=
  {| Startup.variables := fun _ => None;
     Startup.argv := map lit ["node"; "index.js"]%string |}.

Lemma interactive_role_by_number_witness :
  exists cfg x',
    Startup.interactiveSetup plain_launch third_role new_year welcome Written
      nothing_yet = (Ok cfg, x')
    /\ Startup.prop "role" cfg = Some (JStr (lit "world_architect")).
Proof.
  eexists _, _. split; [ vm_compute; reflexivity | ].
  edestruct (interactive_role_by_number plain_launch third_role new_year
               welcome Written nothing_yet 3)
    as (r & Hrole & _ & Hnth & _).
  - vm_compute. reflexivity.
  - vm_compute. reflexivity.
  - assert (H3 : (1 <= 3 <= 7)%Z) by lia. specialize (Hnth H3).
    vm_compute in Hnth. injection Hnth as <-. exact Hrole.
Defined.

(* ===================================================================== *)
(** * A file that holds no configuration *)
(* ===================================================================== *)

(** The file gives [main] nothing to go on: it is absent, cannot be
    read, does not hold JSON text, or holds a falsy value ([null],
    [false], [0] or the empty string). *)
Definition unusable (f : file) : Prop :=
  match f with
  | Absent => True
  | Unreadable _ => True
  | Content data =>
      match parse data with
      | Some v => truthy v = false
      | None => True
      end
  end.

Lemma worker_loadConfig_unusable x :
  unusable (Startup.stored x) ->
  exists v said,
    Startup.worker loadConfig x =
    (Ok v, {| Startup.stored := Startup.stored x;
              Startup.done := Startup.done x ++ said |})
    /\ truthy v = false
    /\ file_writes said = [] /\ requests said = [].
Proof.
  destruct x as [f acts]. cbn [Startup.stored Startup.done].
  unfold Startup.worker, loadConfig, bind, get_disk, ret, logWarn, emit.
  destruct f as [ | why | data]; cbn.
  - intros _. exists JNull, []. cbn. repeat split.
  - intros _. exists JNull, [Startup.Did (Print LWarn (MReadFailed why))].
    cbn. repeat split.
  - destruct (parse data) as [v | ].
    + intros Hv. exists v, []. cbn. rewrite app_nil_r. repeat split.
      exact Hv.
    + intros _.
      exists JNull,
        [Startup.Did
           (Print LWarn (MReadFailed (lit "Unexpected token in JSON")))].
      cbn. repeat split.
Qed.

(** X27: a file that holds no configuration (absent, unreadable, not
    JSON, or a falsy value) does not stop the start: with [--name] and
    [--role] on the command line and a registration the coordinator
    accepts, the worker registers once, the file is overwritten with the
    fresh identity and the process enters the loop with it; what the
    file held before is lost. *)
Theorem unusable_file_replaced L A C reply x id key :
  ~ In (lit "--help") (Startup.argv L) ->
  ~ In (lit "-h") (Startup.argv L) ->
  unusable (Startup.stored x) ->
  nonempty (Startup.parseCLIFlag (Startup.argv L) (lit "--name")) <> None ->
  nonempty (Startup.parseCLIFlag (Startup.argv L) (lit "--role")) <> None ->
  registered reply id key ->
  Startup.member_of AI_BACKEND_TABLE
    (Startup.or_default
       (Startup.parseCLIFlag (Startup.argv L) (lit "--model")) (lit "none"))
    <> Startup.Inherited ->
  let cfg := cli_identity L C id key in
  let data := stringify_indent 2 (config_json cfg) in
  let out := Startup.start L A C reply Written x in
  fst out = Startup.Loop (config_json cfg)
  /\ Startup.stored (snd out) = Content data
  /\ file_writes (Startup.done (snd out))
     = file_writes (Startup.done x) ++ [data]
  /\ requests (Startup.done (snd out))
     = requests (Startup.done x)
         ++ [Http (lit "POST")
                  (Startup.SERVER_URL L ++ lit "/api/agents/register")
                  [(lit "Content-Type", lit "application/json")]
                  (Some (stringify (Startup.payload (config_json cfg))))].
Proof.
  intros Hh1 Hh2 Hs Hname Hrole Hreg Hslot cfg data out.
  assert (Hrun : exists acts,
             out = (Startup.Loop (config_json cfg),
                    {| Startup.stored := Content data;
                       Startup.done := Startup.done x ++ acts |})
             /\ file_writes acts = [data]
             /\ requests acts
                = [Http (lit "POST")
                        (Startup.SERVER_URL L ++ lit "/api/agents/register")
                        [(lit "Content-Type", lit "application/json")]
                        (Some (stringify
                                 (Startup.payload (config_json cfg))))]).
  { destruct (cli_warned_quiet L) as [Hcw Hcr].
    subst out data cfg. unfold Startup.start, Startup.main.
    unfold Startup.and_next at 1, Startup.say, Startup.act.
    rewrite (no_help L Hh1 Hh2).
    unfold Startup.and_next at 1.
    match goal with
    | |- context [Startup.worker loadConfig ?w0] =>
        destruct (worker_loadConfig_unusable w0 Hs)
          as (v & said & Hload & Hv & Hw & Hr);
        rewrite Hload, Hv
    end.
    cbn [Startup.stored Startup.done negb].
    destruct (nonempty (Startup.parseCLIFlag (Startup.argv L) (lit "--name")));
      [ | now destruct Hname ].
    destruct (nonempty (Startup.parseCLIFlag (Startup.argv L) (lit "--role")));
      [ | now destruct Hrole ].
    unfold Startup.and_next at 1 2, Startup.act.
    rewrite (cliSetup_run L C reply id key _ Hreg Hslot).
    match goal with
    | |- context [Startup.enter_loop ?c ?w0] =>
        destruct (enter_loop_known (cli_identity L C id key) w0
                    (cli_role_known L)) as [banner Hb];
        rewrite Hb
    end.
    cbn [fst snd Startup.stored Startup.done].
    rewrite <- !app_assoc.
    eexists. split; [ reflexivity | ].
    rewrite !file_writes_app, !requests_app, Hw, Hr, Hcw, Hcr.
    split; reflexivity. }
  destruct Hrun as (acts & -> & Hw & Hr).
  cbn [fst snd Startup.stored Startup.done].
  rewrite file_writes_app, requests_app, Hw, Hr.
  repeat split.
Qed.

(** A file that holds [null]. *)
Definition null_file : Startup.world :=
  {| Startup.stored := Content (lit "null"); Startup.done := [] |}.

Lemma unusable_file_replaced_witness :
  let A := {| Startup.name_typed := []; Startup.owner_typed := [];
              Startup.wallet_typed := []; Startup.role_typed := [];
              Startup.model_typed := []; Startup.key_typed := [] |} in
  Startup.stored
    (snd (Startup.start trend_bot_launch A new_year welcome Written null_file))
  = Content (stringify_indent 2 (config_json trend_bot)).
Proof.
  intros A.
  refine (proj1 (proj2
    (unusable_file_replaced trend_bot_launch A new_year welcome null_file
       (lit "agent-7") (Some (lit "secret")) _ _ _ _ _ welcome_registered _))).
  - cbn. intuition discriminate.
  - cbn. intuition discriminate.
  - vm_compute. reflexivity.
  - vm_compute. discriminate.
  - vm_compute. discriminate.
  - vm_compute. discriminate.
Defined.

(* ===================================================================== *)
(** * What the model call may throw *)
(* ===================================================================== *)




